(** * fritzbox_exporter: discovery, naming, classification and cached reads

    A shallow embedding of [fritzbox_exporter.py].  Python [str] values are
    [string]s of ASCII characters (the names of a TR-064 schema), Python
    [dict]s are association lists in insertion order (the order in which
    [.items()] and [.keys()] iterate; a well-formed one has distinct keys),
    exceptions are an error type threaded through a state-and-error monad,
    and the monotonic clock read by the cache is an oracle indexed by the
    number of readings taken so far, its readings integers in the unit of
    the cache's time to live.  Calls run one after the other: threads are
    outside this embedding.  Logging is left out.

    The packages the exporter imports ([inflection], [cachetools],
    [prometheus_client], [fritzconnection]) are not part of the
    repository; what the exporter uses of them is modelled where it is
    needed and says so. *)

From Stdlib Require Import String Ascii List ZArith Lia Bool Arith.
Import ListNotations.
Open Scope string_scope.

(** ** Python string primitives used by the exporter *)

Module Str.

(** [s.startswith(p)] *)
Definition startswith (s p : string) : bool := String.prefix p s.

(** [s.endswith(suf)]: [s] is [suf], or the tail of [s] ends with [suf]. *)
Fixpoint endswith (s suf : string) : bool :=
  String.eqb s suf ||
  match s with
  | EmptyString => false
  | String _ t => endswith t suf
  end.

(** [sub in s]: [sub] occurs at the head of [s] or somewhere in its tail. *)
Fixpoint contains (sub s : string) : bool :=
  String.prefix sub s ||
  match s with
  | EmptyString => false
  | String _ t => contains sub t
  end.

(** [s.replace(a, b)] for one-character [a] and [b]. *)
Fixpoint replace (a b : ascii) (s : string) : string :=
  match s with
  | EmptyString => EmptyString
  | String c t => String (if Ascii.eqb c a then b else c) (replace a b t)
  end.

Definition code (c : ascii) : nat := nat_of_ascii c.

Definition between (lo hi : nat) (c : ascii) : bool :=
  Nat.leb lo (code c) && Nat.leb (code c) hi.

Definition is_upper : ascii -> bool := between 65 90.   (* [A-Z] *)
Definition is_lower : ascii -> bool := between 97 122.  (* [a-z] *)
Definition is_digit : ascii -> bool := between 48 57.   (* \d on ASCII *)

Definition lower_char (c : ascii) : ascii :=
  if is_upper c then ascii_of_nat (code c + 32) else c.

(** [s.lower()] on ASCII text. *)
Fixpoint lower (s : string) : string :=
  match s with
  | EmptyString => EmptyString
  | String c t => String (lower_char c) (lower t)
  end.

(** Every character of [s] satisfies [p]. *)
Fixpoint all_chars (p : ascii -> bool) (s : string) : bool :=
  match s with
  | EmptyString => true
  | String c t => p c && all_chars p t
  end.

(** Propositional readings of the three tests. *)
Definition StartsWith (s p : string) : Prop := exists q, s = p ++ q.
Definition EndsWith (s suf : string) : Prop := exists p, s = p ++ suf.
Definition Contains (sub s : string) : Prop := exists p q, s = p ++ sub ++ q.

End Str.

(** ** Exportability classifier

    The condition of the [if] at lines 112-114 of [collect_variables],
    as a function of the state variable's name. *)

Definition isExportable (name : string) : bool :=
  (Str.endswith name "Rate" && negb (Str.startswith name "Max")
     && negb (Str.startswith name "Min"))
  || Str.endswith name "Sent" || Str.endswith name "Received"
  || Str.contains "Total" name
  || Str.contains "Attenuation" name || Str.contains "Margin" name
  || Str.endswith name "Errors".

(** ** Metric identity

    [inflection] is a third-party package; [underscore] is its function

      word = re.sub(r"([A-Z]+)([A-Z][a-z])", r'\1_\2', word)
      word = re.sub(r"([a-z\d])([A-Z])", r'\1_\2', word)
      word = word.replace("-", "_")
      return word.lower()

    on ASCII text.  The two substitutions are written as one left-to-right
    pass each.  The first pattern matches a maximal run of two or more
    capitals followed by a small letter and puts the underscore before the
    run's last capital, that is between two capitals the second of which
    is followed by a small letter; the second pattern puts it between a
    small letter or digit and a capital.  Matches of either pattern end in
    a character that cannot start the next match, so scanning without
    overlap and looking at every position agree. *)

Module Inflection.

(** Modelled from the spec: the first substitution of [underscore] in
    the package [inflection], which is not part of the repository (the
    spec's "convert from the schema's mixed/camel naming convention"). *)
Fixpoint sub_acronym (s : string) : string :=
  match s with
  | EmptyString => EmptyString
  | String c1 t =>
      match t with
      | String c2 (String c3 _) =>
          if Str.is_upper c1 && Str.is_upper c2 && Str.is_lower c3
          then String c1 (String "_" (sub_acronym t))
          else String c1 (sub_acronym t)
      | _ => String c1 (sub_acronym t)
      end
  end.

(** Modelled from the spec: the second substitution of [underscore] in
    the package [inflection], which is not part of the repository. *)
Fixpoint sub_camel (s : string) : string :=
  match s with
  | EmptyString => EmptyString
  | String c1 t =>
      match t with
      | String c2 _ =>
          if (Str.is_lower c1 || Str.is_digit c1) && Str.is_upper c2
          then String c1 (String "_" (sub_camel t))
          else String c1 (sub_camel t)
      | EmptyString => String c1 (sub_camel t)
      end
  end.

(** Modelled from the spec: [inflection.underscore], which is not part
    of the repository: "a lower-snake-case form" of the word. *)
Definition underscore (word : string) : string :=
  Str.lower (Str.replace "-" "_" (sub_camel (sub_acronym word))).

End Inflection.

(** [metricify], lines 59-61: the service and the action are ignored. *)
Definition metricify (service action variable : string) : string :=
  let variable := Str.replace "." "_" variable in
  "fritzbox_" ++ Inflection.underscore variable.

(** A character that the derivation leaves alone: not a capital, not a
    dot, not a hyphen. *)
Definition snake_char (c : ascii) : bool :=
  negb (Str.is_upper c) && negb (Ascii.eqb c ".") && negb (Ascii.eqb c "-").

(** ** Values, dictionaries and exceptions *)

Open Scope list_scope.

(** The exceptions the exporter can meet: a missing [dict] key, a failed
    device call, a metric the registry refuses. *)
Inductive exn : Set := KeyError | DeviceError | ValueError.

Inductive result (A : Type) : Type :=
| Ok (a : A)
| Raise (e : exn).
Arguments Ok {A} a.
Arguments Raise {A} e.

(** A [dict] with [str] keys, in insertion order. *)
Definition dict (V : Type) : Type := list (string * V).

(** [d[k]]; [None] stands for [KeyError]. *)
Fixpoint dict_get {V : Type} (d : dict V) (k : string) : option V :=
  match d with
  | [] => None
  | (k', v) :: rest => if String.eqb k' k then Some v else dict_get rest k
  end.

(** [d[k] = v]: a present key keeps its place, a new key goes last. *)
Fixpoint dict_set {V : Type} (d : dict V) (k : string) (v : V) : dict V :=
  match d with
  | [] => [(k, v)]
  | (k', v') :: rest =>
      if String.eqb k' k then (k', v) :: rest else (k', v') :: dict_set rest k v
  end.

(** [d[k]] as an expression that raises. *)
Definition subscript {V : Type} (d : dict V) (k : string) : result V :=
  match dict_get d k with
  | Some v => Ok v
  | None => Raise KeyError
  end.

(** [d.keys()] *)
Definition dict_keys {V : Type} (d : dict V) : list string := map fst d.

(** [x in xs] for a list of strings (the skip lists). *)
Definition str_in (x : string) (xs : list string) : bool :=
  existsb (String.eqb x) xs.

(** A value the device returns for an output argument. *)
Inductive value : Set :=
| VInt (z : Z)
| VStr (s : string)
| VBool (b : bool).

(** ** The device schema ([fritzconnection]) *)

Module Fritz.

Record StateVariable : Set := { name : string; dataType : string }.

Record Argument : Set := { direction : string; relatedStateVariable : string }.

Record Action : Type := { arguments : dict Argument }.

Record Service : Type := {
  actions : dict Action;
  state_variables : dict StateVariable
}.

(** A connection: the schema, and [call_action(service, action)].  The
    device's answer may change from call to call and may be an
    exception, so it is a function of the number of calls made before. *)
Record FritzConnection : Type := {
  services : dict Service;
  call_action : nat -> string -> string -> result (dict value)
}.

End Fritz.

(** ** Discovery *)

(** The named tuple [Action], line 56. *)
Record Action : Type := {
  service_name : string;
  action_name : string;
  arguments : dict Fritz.StateVariable
}.

(** Lines 74-76: resolve each argument's related state variable. *)
Fixpoint resolve_arguments (state_variables : dict Fritz.StateVariable)
    (items : list (string * Fritz.Argument))
    (arguments : dict Fritz.StateVariable)
  : result (dict Fritz.StateVariable) :=
  match items with
  | [] => Ok arguments
  | (argument_name, argument) :: rest =>
      match dict_get state_variables (Fritz.relatedStateVariable argument) with
      | None => Raise KeyError
      | Some sv =>
          resolve_arguments state_variables rest
            (dict_set arguments argument_name sv)
      end
  end.

(** Line 71: [all([arg.direction == 'out' for arg in ...values()])]. *)
Definition just_out_parameters (action : Fritz.Action) : bool :=
  forallb (fun item => String.eqb (Fritz.direction (snd item)) "out")
          (Fritz.arguments action).

(** Lines 67-77: the loop over one service's actions. *)
Fixpoint scan_actions (service_name : string) (service : Fritz.Service)
    (items : list (string * Fritz.Action)) (actions : list Action)
  : result (list Action) :=
  match items with
  | [] => Ok actions
  | (action_name, action) :: rest =>
      if negb (Str.startswith action_name "Get") then
        scan_actions service_name service rest actions
      else if negb (just_out_parameters action) then
        scan_actions service_name service rest actions
      else
        match resolve_arguments (Fritz.state_variables service)
                (Fritz.arguments action) [] with
        | Raise e => Raise e
        | Ok arguments =>
            scan_actions service_name service rest
              (actions ++ [Build_Action service_name action_name arguments])
        end
  end.

(** Line 66: the loop over the services. *)
Fixpoint scan_services (items : list (string * Fritz.Service))
    (actions : list Action) : result (list Action) :=
  match items with
  | [] => Ok actions
  | (service_name, service) :: rest =>
      match scan_actions service_name service (Fritz.actions service) actions with
      | Raise e => Raise e
      | Ok actions => scan_services rest actions
      end
  end.

(** [collect_actions], lines 64-78. *)
Definition collect_actions (client : Fritz.FritzConnection) : result (list Action) :=
  scan_services (Fritz.services client) [].

(** ** The cache

    [cachetools] is a third-party package.  [TTLCache(maxsize, ttl)] keeps
    its links in an ordered dictionary whose order is the order of use
    (looking a key up or storing it moves its link to the end) and gives
    every stored item the default size 1.  A link is expired once
    [link.expire < timer()].  The package also chains the links in the
    order they were stored and [expire(time)] removes the expired front of
    that chain; the timer is [time.monotonic] and the time to live is one
    constant, so the links expire in chain order and the expired front is
    the set of all expired links, which is how [expire] is written here.
    Clock readings are integers in the cache's time unit. *)

Module TTLCache.

(** The cache key: what [hashkey] returns. *)
Definition key : Type := string * string.

Definition key_eqb (a b : key) : bool :=
  String.eqb (fst a) (fst b) && String.eqb (snd a) (snd b).

Record Link : Type := {
  lk_key : key;
  lk_value : dict value;
  expire : Z
}.

(** Modelled from the spec: the state of a [cachetools.TTLCache], a class
    that is not part of the repository: its capacity, its time to live and
    its links in order of use, least recently used first ("default window:
    10 time units; default capacity: 200 distinct Operations"). *)
Record t : Type := {
  maxsize : nat;
  ttl : Z;
  links : list Link
}.

Fixpoint find (k : key) (ls : list Link) : option Link :=
  match ls with
  | [] => None
  | l :: rest => if key_eqb (lk_key l) k then Some l else find k rest
  end.

Definition remove (k : key) (ls : list Link) : list Link :=
  filter (fun l => negb (key_eqb (lk_key l) k)) ls.

(** [OrderedDict.move_to_end(key)] *)
Definition move_to_end (k : key) (ls : list Link) : list Link :=
  match find k ls with
  | Some l => remove k ls ++ [l]
  | None => ls
  end.

Definition expired (time : Z) (l : Link) : bool := Z.ltb (expire l) time.

(** Modelled from the spec: [TTLCache.expire(time)], which is not part of
    the repository: it drops every link whose age exceeds the time to live
    ("an entry is unusable once its age exceeds the TTL"). *)
Definition expire_links (time : Z) (ls : list Link) : list Link :=
  filter (fun l => negb (expired time l)) ls.

(** Modelled from the spec: the loop [while currsize + 1 > maxsize:
    popitem()] of [Cache.__setitem__], which is not part of the
    repository: it drops links from the least recently used end
    ("least-recently-used entries evicted first once capacity is
    exceeded"). *)
Fixpoint evict (maxsize : nat) (ls : list Link) : list Link :=
  match ls with
  | [] => []
  | _ :: rest =>
      if Nat.ltb maxsize (List.length ls + 1) then evict maxsize rest else ls
  end.

(** Modelled from the spec: [TTLCache.__getitem__], which is not part of
    the repository: [cache[k]] at clock reading [time]; [None] stands for
    [KeyError].  The link, if there is one, has been used, and it is a
    miss when it is expired, whatever the number of links. *)
Definition getitem (c : t) (k : key) (time : Z) : option (dict value) * t :=
  match find k (links c) with
  | None => (None, c)
  | Some l =>
      let c' := {| maxsize := maxsize c; ttl := ttl c;
                   links := move_to_end k (links c) |} in
      if expired time l then (None, c') else (Some (lk_value l), c')
  end.

(** Modelled from the spec: [TTLCache.__setitem__], which is not part of
    the repository: [cache[k] = v] at clock reading [time].  Expired links
    go first; a value larger than the whole cache is refused with
    [ValueError], which [cachedmethod] swallows; a new key makes room by
    eviction; the link goes to the end with expiry [time + ttl]. *)
Definition setitem (c : t) (k : key) (v : dict value) (time : Z) : t :=
  let live := expire_links time (links c) in
  if Nat.ltb (maxsize c) 1 then
    {| maxsize := maxsize c; ttl := ttl c; links := live |}
  else
    let kept :=
      match find k live with
      | Some _ => live
      | None => evict (maxsize c) live
      end in
    {| maxsize := maxsize c; ttl := ttl c;
       links := remove k kept
                ++ [{| lk_key := k; lk_value := v; expire := (time + ttl c)%Z |}] |}.

End TTLCache.

(** [cache = TTLCache(maxsize=200, ttl=10)], line 81. *)
Definition cache : TTLCache.t :=
  {| TTLCache.maxsize := 200; TTLCache.ttl := 10; TTLCache.links := [] |}.

(** [hashkey], lines 83-84.  [cachedmethod] calls the key function with
    the arguments that follow the first one, so [args[0]] is the action. *)
Definition hashkey (action : Action) : TTLCache.key :=
  (service_name action, action_name action).

(** ** The state the exporter runs in *)

(** The process state: the module's cache, how many times the clock has
    been read, and the device calls issued so far, oldest first. *)
Record World : Type := {
  w_cache : TTLCache.t;
  w_ticks : nat;
  w_calls : list TTLCache.key
}.

(** A computation that may raise and may change the process state. *)
Definition M (A : Type) : Type := World -> result A * World.

Definition ret {A : Type} (a : A) : M A := fun w => (Ok a, w).

Definition raise {A : Type} (e : exn) : M A := fun w => (Raise e, w).

Definition lift {A : Type} (r : result A) : M A := fun w => (r, w).

Definition bind {A B : Type} (m : M A) (k : A -> M B) : M B :=
  fun w =>
    match m w with
    | (Ok a, w') => k a w'
    | (Raise e, w') => (Raise e, w')
    end.

Declare Scope monad_scope.
Delimit Scope monad_scope with monad.
Notation "x <- m ;; k" := (bind m (fun x => k))
  (at level 61, m at next level, right associativity) : monad_scope.
Notation "m ;;; k" := (bind m (fun _ => k))
  (at level 61, right associativity) : monad_scope.
Open Scope monad_scope.

(** A [for] loop that threads its local state and stops at an exception. *)
Fixpoint for_each {St X : Type} (body : St -> X -> M St) (xs : list X) (s : St)
  : M St :=
  match xs with
  | [] => ret s
  | x :: rest => s' <- body s x ;; for_each body rest s'
  end.

(** ** The metric registry ([prometheus_client]) *)

(** The function given to [set_function]: the lambda of line 122, whose
    default arguments hold the action and the key of the iteration that
    made it. *)
Record Accessor : Type := {
  acc_action : Action;
  acc_key : string
}.

(** A [Gauge] with label names (service, action): its children by label
    values, each with the function that computes its value. *)
Definition Gauge : Type := list (TTLCache.key * Accessor).

(** [gauge.labels(service=s, action=a).set_function(f)]: the child of
    these label values is made if need be and its function replaced. *)
Fixpoint set_function (g : Gauge) (labels : TTLCache.key) (f : Accessor) : Gauge :=
  match g with
  | [] => [(labels, f)]
  | (l, f') :: rest =>
      if TTLCache.key_eqb l labels then (l, f) :: rest
      else (l, f') :: set_function rest labels f
  end.

(** The flags the core reads. *)
Record Flags : Type := {
  service_skiplist : list string;
  action_skiplist : list string;
  verbose : bool
}.

(** The defaults of lines 36-53. *)
Definition default_flags : Flags :=
  {| service_skiplist :=
       ["DeviceConfig1"; "X_AVM-DE_OnTel1"; "X_AVM-DE_Filelinks1";
        "WANIPConnection1"];
     action_skiplist := ["GetDefaultWEPKeyIndex"; "GetLinkLayerMaxBitRates"];
     verbose := false |}.

(** ** Cached reads and registration *)

Section Exporter.

(** The connection, the flags, the readings of [time.monotonic] in the
    order they are taken, and the registry's verdict on a metric name
    ([Gauge(...)] raises [ValueError] for a name it refuses). *)
Variable client : Fritz.FritzConnection.
Variable FLAGS : Flags.
Variable clock : nat -> Z.
Variable registry_accepts : string -> bool.

(** Reading the clock. *)
Definition timer : M Z :=
  fun w => (Ok (clock (w_ticks w)),
            {| w_cache := w_cache w; w_ticks := S (w_ticks w);
               w_calls := w_calls w |}).

(** The module's cache as [c[k]]: the clock is read only when the key has
    a link. *)
Definition cache_getitem (k : TTLCache.key) : M (option (dict value)) :=
  fun w =>
    match TTLCache.find k (TTLCache.links (w_cache w)) with
    | None => (Ok None, w)
    | Some _ =>
        let (r, c) := TTLCache.getitem (w_cache w) k (clock (w_ticks w)) in
        (Ok r, {| w_cache := c; w_ticks := S (w_ticks w);
                  w_calls := w_calls w |})
    end.

(** The module's cache as [c[k] = v]: the clock is read once. *)
Definition cache_setitem (k : TTLCache.key) (v : dict value) : M unit :=
  time <- timer ;;
  fun w => (Ok tt, {| w_cache := TTLCache.setitem (w_cache w) k v time;
                      w_ticks := w_ticks w; w_calls := w_calls w |}).

(** [client.call_action(service_name, action_name)], line 89. *)
Definition device_call (service_name action_name : string) : M (dict value) :=
  fun w => (Fritz.call_action client (List.length (w_calls w))
              service_name action_name,
            {| w_cache := w_cache w; w_ticks := w_ticks w;
               w_calls := w_calls w ++ [(service_name, action_name)] |}).

(** [call_action], lines 87-89.  The body is line 89; around it is the
    wrapper of [cachetools.cachedmethod], modelled from the spec ("on
    cache miss or expiry, exactly one underlying call is performed; its
    full output mapping is cached keyed by Operation identity"; "failure
    of the underlying call is not cached"): look the key up, and on a
    miss run the body and store what it returned; an exception of the
    body leaves before the store. *)
Definition call_action (action : Action) : M (dict value) :=
  let k := hashkey action in
  hit <- cache_getitem k ;;
  match hit with
  | Some v => ret v
  | None =>
      v <- device_call (service_name action) (action_name action) ;;
      cache_setitem k v ;;;
      ret v
  end.

(** [handle_read], lines 92-94. *)
Definition handle_read (action : Action) (key : string) : M value :=
  output <- call_action action ;;
  lift (subscript output key).

(** Calling the function a gauge child holds, as a scrape does. *)
Definition invoke (f : Accessor) : M value :=
  handle_read (acc_action f) (acc_key f).

(** [Gauge(metric_name, '', labelnames=('service', 'action'))], a new
    gauge without children, or [ValueError]. *)
Definition new_gauge (metric_name : string) : M Gauge :=
  if registry_accepts metric_name then ret [] else raise ValueError.

(** Lines 107-128: the body of the loop over the output keys.  The
    gauge is one object shared by [variables] and [metric], so the
    child set through [metric] is a child of the gauge in [variables].
    The second [action.arguments[key]] (line 125) comes after the first
    one succeeded and cannot raise. *)
Definition bind_key (action : Action) (variables : dict Gauge) (key : string)
  : M (dict Gauge) :=
  match dict_get (arguments action) key with
  | None => raise KeyError
  | Some state_variable =>
      let name := Fritz.name state_variable in
      let metric_name :=
        metricify (service_name action) (action_name action) name in
      if isExportable name then
        metric <- match dict_get variables metric_name with
                  | Some g => ret g
                  | None => new_gauge metric_name
                  end ;;
        let metric :=
          set_function metric (service_name action, action_name action)
            {| acc_action := action; acc_key := key |} in
        let variables := dict_set variables metric_name metric in
        if verbose FLAGS then
          handle_read action key ;;; ret variables
        else ret variables
      else ret variables
  end.

(** Lines 100-106: the body of the loop over the actions. *)
Definition visit_action (variables : dict Gauge) (action : Action)
  : M (dict Gauge) :=
  if str_in (service_name action) (service_skiplist FLAGS) then ret variables
  else if str_in (action_name action) (action_skiplist FLAGS) then ret variables
  else
    output <- call_action action ;;
    for_each (bind_key action) (dict_keys output) variables.

(** [collect_variables], lines 97-129. *)
Definition collect_variables (actions : list Action) : M (dict Gauge) :=
  for_each visit_action actions [].

End Exporter.

(** The process state when [main] starts. *)
Definition initial_world : World :=
  {| w_cache := cache; w_ticks := 0; w_calls := [] |}.

(** The two tests of lines 100-103 together. *)
Definition skipped (FLAGS : Flags) (action : Action) : bool :=
  str_in (service_name action) (service_skiplist FLAGS)
  || str_in (action_name action) (action_skiplist FLAGS).

(** The operations that pass the two tests: the spec's Candidate Set. *)
Definition candidates (FLAGS : Flags) (actions : list Action) : list Action :=
  filter (fun action => negb (skipped FLAGS action)) actions.

(** ** What the properties speak of *)

(** What discovery promises about an operation it returns: it comes from
    an action of the schema whose name starts with "Get" and whose
    arguments all have direction "out". *)
Definition read_only_in (client : Fritz.FritzConnection) (a : Action) : Prop :=
  exists service action,
    In (service_name a, service) (Fritz.services client)
    /\ In (action_name a, action) (Fritz.actions service)
    /\ Str.StartsWith (action_name a) "Get"
    /\ (forall n arg, In (n, arg) (Fritz.arguments action) ->
                      Fritz.direction arg = "out")
    /\ List.length (filter (fun item => String.eqb (Fritz.direction (snd item)) "in")
                      (Fritz.arguments action)) = 0
    /\ (forall n, In n (dict_keys (arguments a)) ->
                  In n (dict_keys (Fritz.arguments action))).

(** What registration promises about a child of a gauge: its function
    holds one of the operations registered, one that is not skipped, the
    child's label values are that operation's names, and the function's
    key is an output of that operation whose state variable is exportable
    and gives the gauge its name. *)
Definition bound_to (FLAGS : Flags) (actions : list Action)
    (metric_name : string) (labels : TTLCache.key) (f : Accessor) : Prop :=
  In (acc_action f) actions
  /\ skipped FLAGS (acc_action f) = false
  /\ labels = (service_name (acc_action f), action_name (acc_action f))
  /\ exists state_variable,
       dict_get (arguments (acc_action f)) (acc_key f) = Some state_variable
       /\ isExportable (Fritz.name state_variable) = true
       /\ metric_name = metricify (service_name (acc_action f))
                           (action_name (acc_action f))
                           (Fritz.name state_variable).

Definition registry_ok (FLAGS : Flags) (actions : list Action)
    (variables : dict Gauge) : Prop :=
  forall metric_name g labels f,
    In (metric_name, g) variables -> In (labels, f) g ->
    bound_to FLAGS actions metric_name labels f.

(** The device calls issued since [calls0] all belong to candidates. *)
Definition calls_ok (FLAGS : Flags) (actions : list Action)
    (calls0 : list TTLCache.key) (w : World) : Prop :=
  exists new,
    w_calls w = calls0 ++ new
    /\ Forall (fun k => exists a, In a (candidates FLAGS actions)
                                  /\ k = hashkey a) new.

(** ** A sample device *)

Module Demo.

Definition out (related : string) : Fritz.Argument :=
  {| Fritz.direction := "out"; Fritz.relatedStateVariable := related |}.

Definition inp (related : string) : Fritz.Argument :=
  {| Fritz.direction := "in"; Fritz.relatedStateVariable := related |}.

Definition var (n : string) : string * Fritz.StateVariable :=
  (n, {| Fritz.name := n; Fritz.dataType := "ui4" |}).

Definition wan : Fritz.Service :=
  {| Fritz.actions :=
       [("GetAddonInfos",
         {| Fritz.arguments := [("NewByteSendRate", out "ByteSendRate");
                                ("NewByteReceiveRate", out "ByteReceiveRate")] |});
        ("SetEnable", {| Fritz.arguments := [("NewEnable", inp "Enable")] |});
        ("GetGenericEntry",
         {| Fritz.arguments := [("NewIndex", inp "Index");
                                ("NewValue", out "Value")] |})];
     Fritz.state_variables :=
       [var "ByteSendRate"; var "ByteReceiveRate"; var "Enable";
        var "Index"; var "Value"] |}.

Definition addon_output : dict value :=
  [("NewByteSendRate", VInt 42); ("NewByteReceiveRate", VInt 7)].

(** A device that answers [GetAddonInfos] and nothing else. *)
Definition client : Fritz.FritzConnection :=
  {| Fritz.services := [("WANCommonIFC1", wan)];
     Fritz.call_action := fun _ _ action_name =>
       if String.eqb action_name "GetAddonInfos" then Ok addon_output
       else Raise DeviceError |}.

(** The same schema on a device whose calls all fail. *)
Definition dead_client : Fritz.FritzConnection :=
  {| Fritz.services := [("WANCommonIFC1", wan)];
     Fritz.call_action := fun _ _ _ => Raise DeviceError |}.

(** The same schema on a device that fails once and answers afterwards. *)
Definition flaky_client : Fritz.FritzConnection :=
  {| Fritz.services := [("WANCommonIFC1", wan)];
     Fritz.call_action := fun n _ _ =>
       match n with O => Raise DeviceError | _ => Ok addon_output end |}.

(** The same schema on a device that returns an output the action does
    not declare. *)
Definition chatty_client : Fritz.FritzConnection :=
  {| Fritz.services := [("WANCommonIFC1", wan)];
     Fritz.call_action := fun _ _ _ =>
       Ok [("NewByteSendRate", VInt 42); ("NewUptime", VInt 9)] |}.

(** The operation discovery finds on this schema. *)
Definition addon_infos : Action :=
  {| service_name := "WANCommonIFC1";
     action_name := "GetAddonInfos";
     arguments := [("NewByteSendRate", snd (var "ByteSendRate"));
                   ("NewByteReceiveRate", snd (var "ByteReceiveRate"))] |}.

(** A clock that advances by [step] at every reading. *)
Definition clock (step : Z) (n : nat) : Z := (step * Z.of_nat n)%Z.

Definition accepts_all (metric_name : string) : bool := true.

Definition verbose_flags : Flags :=
  {| service_skiplist := service_skiplist default_flags;
     action_skiplist := action_skiplist default_flags;
     verbose := true |}.

(** The device of the spec's end-to-end example: one service "X" with
    one action "GetTotal" that returns [{BytesSent: 42}]. *)
Definition x_client : Fritz.FritzConnection :=
  {| Fritz.services :=
       [("X", {| Fritz.actions :=
                   [("GetTotal",
                     {| Fritz.arguments := [("BytesSent", out "BytesSent")] |})];
                 Fritz.state_variables := [var "BytesSent"] |})];
     Fritz.call_action := fun _ _ _ => Ok [("BytesSent", VInt 42)] |}.

Definition get_total : Action :=
  {| service_name := "X";
     action_name := "GetTotal";
     arguments := [("BytesSent", snd (var "BytesSent"))] |}.

(** An operation of a service on the default skip list. *)
Definition persistent_data : Action :=
  {| service_name := "DeviceConfig1";
     action_name := "GetPersistentData";
     arguments := [("NewPersistentData", snd (var "PersistentData"))] |}.

(** A world whose cache holds an old answer of [GetAddonInfos] that
    expired at time 3, after one clock reading. *)
Definition stale_world : World :=
  {| w_cache :=
       {| TTLCache.maxsize := 200; TTLCache.ttl := 10;
          TTLCache.links :=
            [{| TTLCache.lk_key := ("WANCommonIFC1", "GetAddonInfos");
                TTLCache.lk_value := [("NewByteSendRate", VInt 1)];
                TTLCache.expire := 3 |}] |};
     w_ticks := 1;
     w_calls := [] |}.

(** A world whose cache is full: 200 live links, the least recently used
    one under the key (S, x), the next one under (S, xx), and so on. *)
Fixpoint xs (n : nat) : string :=
  match n with
  | O => ""
  | S n' => String "x" (xs n')
  end.

Definition full_world : World :=
  {| w_cache :=
       {| TTLCache.maxsize := 200; TTLCache.ttl := 10;
          TTLCache.links :=
            map (fun i => {| TTLCache.lk_key := ("S", xs i);
                             TTLCache.lk_value := [];
                             TTLCache.expire := 100 |})
                (seq 1 200) |};
     w_ticks := 0;
     w_calls := [] |}.

End Demo.

(** ** Startup *)

(** [s.rsplit(sep, 1)] for a one-character separator: the text before
    the last separator and the text after it.  [None] stands for the list
    of one element that [rsplit] returns when there is no separator. *)
Fixpoint rsplit (sep : ascii) (s : string) : option (string * string) :=
  match s with
  | EmptyString => None
  | String c t =>
      match rsplit sep t with
      | Some (before, after) => Some (String c before, after)
      | None => if Ascii.eqb c sep then Some (EmptyString, t) else None
      end
  end.

(** [main], lines 156-161, from the connection to the arguments the
    server is started with: discovery, registration, then the listen
    address.  Unpacking a list of one element into [address, port] raises
    [ValueError]; [int] is Python's, a parameter here, and raises
    [ValueError] as well. *)
Definition startup (client : Fritz.FritzConnection) (FLAGS : Flags)
    (listen : string) (int : string -> result Z) (clock : nat -> Z)
    (registry_accepts : string -> bool) : M (dict Gauge * string * Z) :=
  actions <- lift (collect_actions client) ;;
  variables <- collect_variables client FLAGS clock registry_accepts actions ;;
  match rsplit ":" listen with
  | None => raise ValueError
  | Some (address, port) =>
      port <- lift (int port) ;;
      ret (variables, address, port)
  end.

(** ** What the further properties speak of *)

(** The two tests of lines 69-73 on an item of [service.actions]. *)
Definition eligible (item : string * Fritz.Action) : bool :=
  Str.startswith (fst item) "Get" && just_out_parameters (snd item).

(** The (service, action) names of the schema's eligible actions, in the
    order the schema lists them. *)
Definition eligible_keys (client : Fritz.FritzConnection) : list TTLCache.key :=
  flat_map (fun s => map (fun item => (fst s, fst item))
                         (filter eligible (Fritz.actions (snd s))))
           (Fritz.services client).

(** The characters of a schema name: letters, digits, dot, hyphen and
    underscore. *)
Definition name_char (c : ascii) : bool :=
  Str.is_upper c || Str.is_lower c || Str.is_digit c
  || Ascii.eqb c "." || Ascii.eqb c "-" || Ascii.eqb c "_".

(** The characters of a metric name derived from such a name. *)
Definition metric_char (c : ascii) : bool :=
  Str.is_lower c || Str.is_digit c || Ascii.eqb c "_".

(** A cache in good order: one link for a key, no more links than the
    capacity. *)
Definition cache_ok (c : TTLCache.t) : Prop :=
  NoDup (map TTLCache.lk_key (TTLCache.links c))
  /\ List.length (TTLCache.links c) <= TTLCache.maxsize c.

(** A table of gauges in good order: one gauge for a name, one child for
    a pair of label values. *)
Definition registry_distinct (variables : dict Gauge) : Prop :=
  NoDup (dict_keys variables)
  /\ forall metric_name g, In (metric_name, g) variables -> NoDup (map fst g).

(** A device that answers every call for the operation, at any time, with
    outputs the operation declares. *)
Definition answers_as_declared (client : Fritz.FritzConnection) (a : Action)
  : Prop :=
  forall n, exists output,
    Fritz.call_action client n (service_name a) (action_name a) = Ok output
    /\ forall key, In key (dict_keys output) ->
                   dict_get (arguments a) key <> None.

(** Every cached answer for an operation's key holds outputs the
    operation declares. *)
Definition cache_declared (actions : list Action) (c : TTLCache.t) : Prop :=
  forall l a, In l (TTLCache.links c) -> In a actions ->
              TTLCache.lk_key l = hashkey a ->
              forall key, In key (dict_keys (TTLCache.lk_value l)) ->
                          dict_get (arguments a) key <> None.

(** An operation as discovery builds it: from an eligible action of the
    schema, with the state variables its arguments relate to. *)
Definition resolved_in (client : Fritz.FritzConnection) (a : Action) : Prop :=
  exists service action,
    In (service_name a, service) (Fritz.services client)
    /\ In (action_name a, action) (Fritz.actions service)
    /\ eligible (action_name a, action) = true
    /\ resolve_arguments (Fritz.state_variables service)
         (Fritz.arguments action) [] = Ok (arguments a).

(** The table holds a gauge of this name with a child of these labels. *)
Definition has_child (variables : dict Gauge) (metric_name : string)
    (labels : TTLCache.key) : Prop :=
  exists g f, dict_get variables metric_name = Some g /\ In (labels, f) g.

(** ** Further samples *)

Module Sample.

(** A schema whose eligible action "GetInfo" relates to a state variable
    the service does not declare, and whose action "SetConfig", which
    discovery passes over, does so as well. *)
Definition broken_client : Fritz.FritzConnection :=
  {| Fritz.services :=
       [("DeviceInfo1",
         {| Fritz.actions :=
              [("SetConfig",
                {| Fritz.arguments := [("NewConfig", Demo.inp "Missing")] |});
               ("GetInfo",
                {| Fritz.arguments := [("NewUpTime", Demo.out "UpTime")] |})];
            Fritz.state_variables := [] |})];
     Fritz.call_action := fun _ _ _ => Raise DeviceError |}.

(** The same schema without "GetInfo". *)
Definition passed_over_client : Fritz.FritzConnection :=
  {| Fritz.services :=
       [("DeviceInfo1",
         {| Fritz.actions :=
              [("SetConfig",
                {| Fritz.arguments := [("NewConfig", Demo.inp "Missing")] |})];
            Fritz.state_variables := [] |})];
     Fritz.call_action := fun _ _ _ => Raise DeviceError |}.

(** [int] on the one port text the samples use. *)
Definition int (text : string) : result Z :=
  if String.eqb text "9413" then Ok 9413%Z else Raise ValueError.

End Sample.

(** ** Reads that overlap

    [cachedmethod] is given no lock (line 87), so a read is three steps
    with nothing held between them: the lookup, the device call, the
    store.  Two reads in progress take their steps in the order a
    schedule gives. *)

(** A read in progress. *)
Inductive Reading : Type :=
| Looking (action : Action) (key : string)
| Calling (action : Action) (key : string)
| Storing (action : Action) (key : string) (v : dict value)
| Returned (r : result value).

(** The next step of a read: the lookup of [call_action]'s wrapper, the
    body of [call_action] (line 89), or the store of the wrapper followed
    by [output[key]] (line 94).  These are the steps [call_action] and
    [handle_read] compose; the wrapper's are modelled from the spec as
    there. *)
Definition step (client : Fritz.FritzConnection) (clock : nat -> Z)
    (r : Reading) (w : World) : Reading * World :=
  match r with
  | Looking a key =>
      match cache_getitem clock (hashkey a) w with
      | (Ok (Some v), w') => (Returned (subscript v key), w')
      | (Ok None, w') => (Calling a key, w')
      | (Raise e, w') => (Returned (Raise e), w')
      end
  | Calling a key =>
      match device_call client (service_name a) (action_name a) w with
      | (Ok v, w') => (Storing a key v, w')
      | (Raise e, w') => (Returned (Raise e), w')
      end
  | Storing a key v =>
      (Returned (subscript v key), snd (cache_setitem clock (hashkey a) v w))
  | Returned r => (Returned r, w)
  end.

(** Two reads under a schedule: [true] lets the first one step, [false]
    the second. *)
Fixpoint run_schedule (client : Fritz.FritzConnection) (clock : nat -> Z)
    (schedule : list bool) (r1 r2 : Reading) (w : World)
  : Reading * Reading * World :=
  match schedule with
  | [] => (r1, r2, w)
  | true :: rest =>
      let (r1', w') := step client clock r1 w in
      run_schedule client clock rest r1' r2 w'
  | false :: rest =>
      let (r2', w') := step client clock r2 w in
      run_schedule client clock rest r1 r2' w'
  end.

(** One read after the other, and the two reads step by step in turn. *)
Definition one_after_the_other : list bool :=
  [true; true; true; false; false; false].

Definition in_turn : list bool :=
  [true; false; true; false; true; false].

(** ** The function a scrape calls *)

(** The function of the child of these label values, if the gauge has
    such a child. *)
Fixpoint gauge_get (g : Gauge) (labels : TTLCache.key) : option Accessor :=
  match g with
  | [] => None
  | (l, f) :: rest =>
      if TTLCache.key_eqb l labels then Some f else gauge_get rest labels
  end.

(** The function that computes the sample (metric name, service, action),
    if the table has a gauge of this name with such a child. *)
Definition child_at (variables : dict Gauge) (metric_name : string)
    (labels : TTLCache.key) : option Accessor :=
  match dict_get variables metric_name with
  | Some g => gauge_get g labels
  | None => None
  end.

(** ** A sample with two outputs of one state variable *)

Module Twin.

(** An action whose two outputs relate to the same state variable. *)
Definition service : Fritz.Service :=
  {| Fritz.actions :=
       [("GetTotals",
         {| Fritz.arguments := [("NewX", Demo.out "TotalBytes");
                                ("NewY", Demo.out "TotalBytes")] |})];
     Fritz.state_variables := [Demo.var "TotalBytes"] |}.

Definition client : Fritz.FritzConnection :=
  {| Fritz.services := [("WANCommonIFC1", service)];
     Fritz.call_action := fun _ _ _ => Ok [("NewX", VInt 1); ("NewY", VInt 2)] |}.

(** The operation discovery finds on this schema. *)
Definition get_totals : Action :=
  {| service_name := "WANCommonIFC1";
     action_name := "GetTotals";
     arguments := [("NewX", snd (Demo.var "TotalBytes"));
                   ("NewY", snd (Demo.var "TotalBytes"))] |}.

End Twin.

(** The number of device calls a reading can still issue, and the cache
    key a reading works on. *)
Definition calls_left (r : Reading) : nat :=
  match r with
  | Looking _ _ | Calling _ _ => 1
  | Storing _ _ _ | Returned _ => 0
  end.

Definition reads_of (k : TTLCache.key) (r : Reading) : Prop :=
  match r with
  | Looking a _ | Calling a _ | Storing a _ _ => hashkey a = k
  | Returned _ => True
  end.


(** * Properties *)

(** ** String lemmas *)

Open Scope string_scope.

Lemma startswith_iff (s p : string) :
  Str.startswith s p = true <-> Str.StartsWith s p.
Proof.
  unfold Str.startswith, Str.StartsWith. revert s.
  induction p as [|c p IH]; intros s.
  - simpl. destruct s; split; intros _; try reflexivity; eexists; reflexivity.
  - destruct s as [|d s]; simpl.
    + split; [discriminate | intros [q Hq]; discriminate].
    + destruct (ascii_dec c d) as [->|Hne].
      * rewrite IH. split; intros [q Hq]; exists q.
        -- now rewrite Hq.
        -- now inversion Hq.
      * split; [discriminate | intros [q Hq]; inversion Hq; congruence].
Qed.

Lemma endswith_iff (s suf : string) :
  Str.endswith s suf = true <-> Str.EndsWith s suf.
Proof.
  unfold Str.EndsWith. induction s as [|c s IH]; cbn [Str.endswith].
  - rewrite orb_false_r, String.eqb_eq. split.
    + intros <-. now exists "".
    + intros [p Hp]. destruct p; simpl in Hp; [assumption | discriminate].
  - rewrite orb_true_iff, String.eqb_eq, IH. split.
    + intros [<- | [p ->]]; [now exists "" | now exists (String c p)].
    + intros [p Hp]. destruct p as [|d p]; simpl in Hp.
      * now left.
      * right. exists p. now inversion Hp.
Qed.

Lemma contains_iff (sub s : string) :
  Str.contains sub s = true <-> Str.Contains sub s.
Proof.
  unfold Str.Contains. induction s as [|c s IH].
  - cbn [Str.contains]. rewrite orb_false_r.
    change (String.prefix sub "") with (Str.startswith "" sub).
    rewrite startswith_iff. split.
    + intros [q Hq]. now exists "", q.
    + intros [p [q Hq]]. destruct p; simpl in Hq; [now exists q | discriminate].
  - cbn [Str.contains]. rewrite orb_true_iff, IH.
    change (String.prefix sub (String c s)) with (Str.startswith (String c s) sub).
    rewrite startswith_iff. split.
    + intros [[q Hq] | [p [q ->]]]; [now exists "", q | now exists (String c p), q].
    + intros [p [q Hq]]. destruct p as [|d p]; simpl in Hq.
      * left. now exists q.
      * right. exists p, q. now inversion Hq.
Qed.

(** C3: a name is exportable exactly when it ends with "Rate" without
    starting with "Max" or "Min", or ends with "Sent", "Received" or
    "Errors", or contains "Total", "Attenuation" or "Margin"; the four
    sample names of the spec classify as stated. *)
Theorem isExportable_spec :
  (forall name,
      isExportable name = true <->
      ((Str.EndsWith name "Rate" /\ ~ Str.StartsWith name "Max"
          /\ ~ Str.StartsWith name "Min")
       \/ Str.EndsWith name "Sent"
       \/ Str.EndsWith name "Received"
       \/ Str.Contains "Total" name
       \/ Str.Contains "Attenuation" name
       \/ Str.Contains "Margin" name
       \/ Str.EndsWith name "Errors"))
  /\ isExportable "TotalBytesSent" = true
  /\ isExportable "MaxBitRate" = false
  /\ isExportable "UpstreamCurrRate" = true
  /\ isExportable "DeviceName" = false.
Proof.
  split; [| repeat split; reflexivity].
  intros name. unfold isExportable.
  rewrite !orb_true_iff, !andb_true_iff, !negb_true_iff.
  rewrite !endswith_iff, !contains_iff.
  rewrite <- !not_true_iff_false, !startswith_iff.
  tauto.
Qed.

(** ** Lemmas on the metric name *)

Example metricify_total_bytes_sent :
  metricify "WANCommonIFC1" "GetTotalBytesSent" "TotalBytesSent"
  = "fritzbox_total_bytes_sent".
Proof. reflexivity. Qed.

Example metricify_avm :
  metricify "s" "a" "X_AVM-DE_TotalBytesSent64.v2HTTPRate"
  = "fritzbox_x_avm_de_total_bytes_sent64_v2_http_rate".
Proof. reflexivity. Qed.

Lemma all_chars_app (p : ascii -> bool) (a b : string) :
  Str.all_chars p (a ++ b) = Str.all_chars p a && Str.all_chars p b.
Proof.
  induction a as [|c a IH]; simpl; [reflexivity|].
  now rewrite IH, andb_assoc.
Qed.

Lemma all_chars_impl (p q : ascii -> bool) (s : string) :
  (forall c, p c = true -> q c = true) ->
  Str.all_chars p s = true -> Str.all_chars q s = true.
Proof.
  intros Hpq. induction s as [|c s IH]; simpl; [reflexivity|].
  rewrite !andb_true_iff. intros [Hc Hs]. auto.
Qed.

Lemma all_chars_not_contains (a : ascii) (s : string) :
  Str.all_chars (fun c => negb (Ascii.eqb c a)) s = true ->
  ~ Str.Contains (String a "") s.
Proof.
  intros H [p [q E]]. subst s.
  rewrite all_chars_app in H. simpl in H.
  rewrite Ascii.eqb_refl in H. simpl in H.
  now rewrite andb_false_r in H.
Qed.

Lemma replace_get (a b : ascii) (s : string) (i : nat) :
  String.get i (Str.replace a b s)
  = option_map (fun c => if Ascii.eqb c a then b else c) (String.get i s).
Proof.
  revert i. induction s as [|c s IH]; intros i; simpl; [reflexivity|].
  destruct i; simpl; [reflexivity | apply IH].
Qed.

Lemma replace_removes (a b : ascii) (s : string) :
  a <> b ->
  Str.all_chars (fun c => negb (Ascii.eqb c a)) (Str.replace a b s) = true.
Proof.
  intros Hab. induction s as [|c s IH]; simpl; [reflexivity|].
  rewrite IH, andb_true_r.
  destruct (Ascii.eqb c a) eqn:E; [|now rewrite E].
  apply negb_true_iff, Ascii.eqb_neq. congruence.
Qed.

Lemma replace_keeps (p : ascii -> bool) (a b : ascii) (s : string) :
  p b = true ->
  Str.all_chars p s = true -> Str.all_chars p (Str.replace a b s) = true.
Proof.
  intros Hb. induction s as [|c s IH]; simpl; [reflexivity|].
  rewrite !andb_true_iff. intros [Hc Hs]. split; [|auto].
  now destruct (Ascii.eqb c a).
Qed.

Lemma replace_absent (a b : ascii) (s : string) :
  Str.all_chars (fun c => negb (Ascii.eqb c a)) s = true ->
  Str.replace a b s = s.
Proof.
  induction s as [|c s IH]; simpl; [reflexivity|].
  rewrite andb_true_iff, negb_true_iff. intros [-> Hs]. now rewrite IH.
Qed.

Lemma sub_acronym_keeps (p : ascii -> bool) (s : string) :
  p "_"%char = true ->
  Str.all_chars p (Inflection.sub_acronym s) = Str.all_chars p s.
Proof.
  intros Hu. induction s as [|c1 t IH]; [reflexivity|].
  cbn [Inflection.sub_acronym].
  destruct t as [|c2 [|c3 u]];
    try destruct (Str.is_upper c1 && Str.is_upper c2 && Str.is_lower c3);
    cbn [Str.all_chars]; rewrite ?Hu, IH; reflexivity.
Qed.

Lemma sub_camel_keeps (p : ascii -> bool) (s : string) :
  p "_"%char = true ->
  Str.all_chars p (Inflection.sub_camel s) = Str.all_chars p s.
Proof.
  intros Hu. induction s as [|c1 t IH]; [reflexivity|].
  cbn [Inflection.sub_camel].
  destruct t as [|c2 u];
    try destruct ((Str.is_lower c1 || Str.is_digit c1) && Str.is_upper c2);
    cbn [Str.all_chars]; rewrite ?Hu, IH; reflexivity.
Qed.

Lemma sub_acronym_fixed (s : string) :
  Str.all_chars (fun c => negb (Str.is_upper c)) s = true ->
  Inflection.sub_acronym s = s.
Proof.
  induction s as [|c1 t IH]; [reflexivity|].
  cbn [Str.all_chars]. rewrite andb_true_iff, negb_true_iff.
  intros [Hc Ht]. cbn [Inflection.sub_acronym].
  rewrite Hc, (IH Ht). now destruct t as [|c2 [|c3 u]].
Qed.

Lemma sub_camel_fixed (s : string) :
  Str.all_chars (fun c => negb (Str.is_upper c)) s = true ->
  Inflection.sub_camel s = s.
Proof.
  induction s as [|c1 t IH]; [reflexivity|].
  cbn [Str.all_chars]. rewrite andb_true_iff.
  intros [Hc Ht]. cbn [Inflection.sub_camel]. rewrite (IH Ht).
  destruct t as [|c2 u]; [reflexivity|].
  cbn [Str.all_chars] in Ht. apply andb_true_iff in Ht as [Hc2 _].
  apply negb_true_iff in Hc2. now rewrite Hc2, andb_false_r.
Qed.

Lemma lower_fixed (s : string) :
  Str.all_chars (fun c => negb (Str.is_upper c)) s = true ->
  Str.lower s = s.
Proof.
  induction s as [|c s IH]; simpl; [reflexivity|].
  rewrite andb_true_iff, negb_true_iff. intros [Hc Hs].
  unfold Str.lower_char. now rewrite Hc, IH.
Qed.

Lemma lower_char_snake (c : ascii) :
  negb (Ascii.eqb c ".") && negb (Ascii.eqb c "-") = true ->
  snake_char (Str.lower_char c) = true.
Proof.
  destruct c as [[] [] [] [] [] [] [] []]; intros H;
    solve [reflexivity | discriminate H].
Qed.

Lemma lower_snake (s : string) :
  Str.all_chars (fun c => negb (Ascii.eqb c ".") && negb (Ascii.eqb c "-")) s
  = true ->
  Str.all_chars snake_char (Str.lower s) = true.
Proof.
  induction s as [|c s IH]; simpl; [reflexivity|].
  rewrite !andb_true_iff. intros [Hc Hs]. split; [|auto].
  apply lower_char_snake. now apply andb_true_iff.
Qed.

Lemma all_chars_and (p q : ascii -> bool) (s : string) :
  Str.all_chars (fun c => p c && q c) s
  = Str.all_chars p s && Str.all_chars q s.
Proof.
  induction s as [|c s IH]; simpl; [reflexivity|].
  rewrite IH. destruct (p c), (q c), (Str.all_chars p s); reflexivity.
Qed.

(** The snake-case form of a dot-free word holds only snake characters. *)
Lemma underscore_snake (w : string) :
  Str.all_chars (fun c => negb (Ascii.eqb c ".")) w = true ->
  Str.all_chars snake_char (Inflection.underscore w) = true.
Proof.
  intros Hw. unfold Inflection.underscore. apply lower_snake.
  rewrite all_chars_and. apply andb_true_iff. split.
  - apply replace_keeps; [reflexivity|].
    now rewrite sub_camel_keeps, sub_acronym_keeps.
  - apply replace_removes. discriminate.
Qed.

(** Both steps of the derivation leave a word of snake characters as it is. *)
Lemma snake_fixed (w : string) :
  Str.all_chars snake_char w = true ->
  Str.replace "." "_" w = w /\ Inflection.underscore w = w.
Proof.
  intros Hw.
  assert (Hup : Str.all_chars (fun c => negb (Str.is_upper c)) w = true).
  { revert Hw. apply all_chars_impl. unfold snake_char. intros c.
    rewrite !andb_true_iff. tauto. }
  assert (Hdot : Str.all_chars (fun c => negb (Ascii.eqb c ".")) w = true).
  { revert Hw. apply all_chars_impl. unfold snake_char. intros c.
    rewrite !andb_true_iff. tauto. }
  assert (Hhyp : Str.all_chars (fun c => negb (Ascii.eqb c "-")) w = true).
  { revert Hw. apply all_chars_impl. unfold snake_char. intros c.
    rewrite !andb_true_iff. tauto. }
  split; [now apply replace_absent|].
  unfold Inflection.underscore.
  rewrite (sub_acronym_fixed w Hup), (sub_camel_fixed w Hup).
  rewrite (replace_absent _ _ w Hhyp). now apply lower_fixed.
Qed.

Lemma metricify_snake (svc act v : string) :
  Str.all_chars snake_char (metricify svc act v) = true.
Proof.
  unfold metricify. rewrite all_chars_app. apply andb_true_iff.
  split; [reflexivity|]. apply underscore_snake, replace_removes. discriminate.
Qed.

(** C4, as stated, fails: deriving a name from a derived name does not
    give the same name back, the namespace token is put in front again. *)
Lemma metricify_not_idempotent :
  ~ (forall svc act v,
        metricify svc act (metricify svc act v) = metricify svc act v).
Proof.
  intros H. specialize (H "WANCommonIFC1" "GetTotalBytesSent" "BytesSent").
  vm_compute in H. discriminate H.
Qed.

(** C4, amended: the derived name depends on the variable name alone; it
    is "fritzbox_" followed by the snake-case form of the name with every
    dot turned into an underscore, so it holds no dot, no capital and no
    hyphen; the conversion without the token is idempotent, and deriving
    from a derived name puts one more token in front. *)
Theorem metricify_spec (svc act v : string) :
  (forall svc' act', metricify svc' act' v = metricify svc act v)
  /\ metricify svc act v
     = "fritzbox_" ++ Inflection.underscore (Str.replace "." "_" v)
  /\ (forall i, String.get i (Str.replace "." "_" v)
                = option_map (fun c => if Ascii.eqb c "." then "_"%char else c)
                             (String.get i v))
  /\ ~ Str.Contains "." (metricify svc act v)
  /\ Str.all_chars snake_char (metricify svc act v) = true
  /\ Inflection.underscore
       (Str.replace "." "_" (Inflection.underscore (Str.replace "." "_" v)))
     = Inflection.underscore (Str.replace "." "_" v)
  /\ metricify svc act (metricify svc act v)
     = "fritzbox_" ++ metricify svc act v.
Proof.
  pose proof (metricify_snake svc act v) as Hs.
  assert (Hu : Str.all_chars snake_char
                 (Inflection.underscore (Str.replace "." "_" v)) = true).
  { apply underscore_snake, replace_removes. discriminate. }
  repeat split.
  - apply replace_get.
  - apply all_chars_not_contains. revert Hs. apply all_chars_impl.
    unfold snake_char. intros c. rewrite !andb_true_iff. tauto.
  - exact Hs.
  - destruct (snake_fixed _ Hu) as [-> ->]. reflexivity.
  - destruct (snake_fixed _ Hs) as [E1 E2].
    unfold metricify at 1. cbv zeta. now rewrite E1, E2.
Qed.

(** ** Discovery *)

Open Scope list_scope.

Lemma dict_set_keys {V : Type} (d : dict V) (k : string) (v : V) (n : string) :
  In n (dict_keys (dict_set d k v)) -> n = k \/ In n (dict_keys d).
Proof.
  induction d as [|[k' v'] d IH]; simpl.
  - intros [<- | []]. now left.
  - destruct (String.eqb k' k); simpl; intros [<- | H]; auto.
    destruct (IH H); auto.
Qed.

Lemma resolve_arguments_keys svs items acc out :
  resolve_arguments svs items acc = Ok out ->
  forall n, In n (dict_keys out) ->
            In n (dict_keys acc) \/ In n (dict_keys items).
Proof.
  revert acc. induction items as [|[an arg] items IH]; simpl; intros acc H n Hn.
  - injection H as <-. now left.
  - destruct (dict_get svs (Fritz.relatedStateVariable arg)); [|discriminate].
    destruct (IH _ H n Hn) as [Hacc | Hit]; [|now auto].
    apply dict_set_keys in Hacc as [-> | Hacc]; auto.
Qed.

Lemma just_out_parameters_out action :
  just_out_parameters action = true ->
  forall n arg, In (n, arg) (Fritz.arguments action) ->
                Fritz.direction arg = "out".
Proof.
  unfold just_out_parameters. rewrite forallb_forall. intros H n arg Hin.
  apply String.eqb_eq. exact (H (n, arg) Hin).
Qed.

Lemma just_out_parameters_no_in action :
  just_out_parameters action = true ->
  List.length (filter (fun item => String.eqb (Fritz.direction (snd item)) "in")
                 (Fritz.arguments action)) = 0.
Proof.
  unfold just_out_parameters. induction (Fritz.arguments action) as [|[n arg] l IH];
    simpl; [reflexivity|].
  rewrite andb_true_iff, String.eqb_eq. intros [Hd Hl].
  rewrite Hd. simpl. auto.
Qed.

Lemma scan_actions_read_only client sn service :
  In (sn, service) (Fritz.services client) ->
  forall items acc out,
    incl items (Fritz.actions service) ->
    Forall (read_only_in client) acc ->
    scan_actions sn service items acc = Ok out ->
    Forall (read_only_in client) out.
Proof.
  intros Hsvc. induction items as [|[an action] items IH]; simpl;
    intros acc out Hincl Hacc H.
  - now injection H as <-.
  - assert (Hrest : incl items (Fritz.actions service))
      by (intros x Hx; apply Hincl; now right).
    destruct (Str.startswith an "Get") eqn:Hget; simpl in H; [|eauto].
    destruct (just_out_parameters action) eqn:Hout; simpl in H; [|eauto].
    destruct (resolve_arguments _ _ _) as [args|] eqn:Hres; [|discriminate].
    apply (IH _ _ Hrest) in H; [exact H|].
    apply Forall_app. split; [exact Hacc|]. constructor; [|constructor].
    exists service, action. simpl. repeat split.
    + exact Hsvc.
    + apply Hincl. now left.
    + now apply startswith_iff.
    + now apply just_out_parameters_out.
    + now apply just_out_parameters_no_in.
    + intros n Hn.
      destruct (resolve_arguments_keys _ _ _ _ Hres n Hn) as [[] | Hk]. exact Hk.
Qed.

Lemma scan_services_read_only client :
  forall items acc out,
    incl items (Fritz.services client) ->
    Forall (read_only_in client) acc ->
    scan_services items acc = Ok out ->
    Forall (read_only_in client) out.
Proof.
  induction items as [|[sn service] items IH]; simpl; intros acc out Hincl Hacc H.
  - now injection H as <-.
  - destruct (scan_actions sn service _ acc) as [acc'|] eqn:Hscan; [|discriminate].
    apply (IH acc'); [intros x Hx; apply Hincl; now right | | exact H].
    eapply scan_actions_read_only; eauto.
    + apply Hincl. now left.
    + apply incl_refl.
Qed.

(** C1: every operation that discovery returns has an action name that
    starts with "Get" and comes from a schema action all of whose
    arguments have direction "out", none has direction "in". *)
Theorem collect_actions_read_only (client : Fritz.FritzConnection)
    (actions : list Action) :
  collect_actions client = Ok actions ->
  forall a, In a actions -> read_only_in client a.
Proof.
  intros H. apply Forall_forall.
  eapply scan_services_read_only; eauto using incl_refl.
Qed.

(** Discovery returns on every schema whose arguments relate to declared
    state variables. *)
Lemma resolve_arguments_total svs items acc :
  (forall n arg, In (n, arg) items ->
                 dict_get svs (Fritz.relatedStateVariable arg) <> None) ->
  exists out, resolve_arguments svs items acc = Ok out.
Proof.
  revert acc. induction items as [|[n arg] items IH]; intros acc H; simpl.
  - now exists acc.
  - destruct (dict_get svs (Fritz.relatedStateVariable arg)) eqn:E.
    + apply IH. intros n' arg' Hin. apply (H n' arg'). now right.
    + exfalso. apply (H n arg); [now left | exact E].
Qed.

Lemma scan_actions_total sn service items acc :
  (forall an action n arg,
      In (an, action) items -> In (n, arg) (Fritz.arguments action) ->
      dict_get (Fritz.state_variables service) (Fritz.relatedStateVariable arg)
      <> None) ->
  exists out, scan_actions sn service items acc = Ok out.
Proof.
  revert acc. induction items as [|[an action] items IH]; intros acc H; simpl.
  - now exists acc.
  - assert (Hrest : forall acc', exists out,
               scan_actions sn service items acc' = Ok out).
    { intros acc'. apply IH. intros an' action' n arg Hin.
      apply (H an' action' n arg). now right. }
    destruct (Str.startswith an "Get"); simpl; [|apply Hrest].
    destruct (just_out_parameters action); simpl; [|apply Hrest].
    destruct (resolve_arguments_total (Fritz.state_variables service)
                (Fritz.arguments action) [])
      as [args ->]; [|apply Hrest].
    intros n arg. apply (H an action). now left.
Qed.

Lemma collect_actions_total (client : Fritz.FritzConnection) :
  (forall sn service an action n arg,
      In (sn, service) (Fritz.services client) ->
      In (an, action) (Fritz.actions service) ->
      In (n, arg) (Fritz.arguments action) ->
      dict_get (Fritz.state_variables service) (Fritz.relatedStateVariable arg)
      <> None) ->
  exists actions, collect_actions client = Ok actions.
Proof.
  unfold collect_actions. generalize (@nil Action).
  induction (Fritz.services client) as [|[sn service] items IH];
    intros acc H; simpl.
  - now exists acc.
  - destruct (scan_actions_total sn service (Fritz.actions service) acc)
      as [acc' ->].
    + intros an action n arg. apply (H sn service). now left.
    + apply IH. intros sn' service' an action n arg Hin.
      apply (H sn' service'). now right.
Qed.

(** ** The cache *)

Lemma key_eqb_eq (a b : TTLCache.key) : TTLCache.key_eqb a b = true <-> a = b.
Proof.
  destruct a as [a1 a2], b as [b1 b2]. unfold TTLCache.key_eqb. simpl.
  rewrite andb_true_iff, !String.eqb_eq. split.
  - intros [-> ->]. reflexivity.
  - intros E. injection E as -> ->. auto.
Qed.

Lemma key_eqb_refl (k : TTLCache.key) : TTLCache.key_eqb k k = true.
Proof. now apply key_eqb_eq. Qed.

Lemma find_key k ls l : TTLCache.find k ls = Some l -> TTLCache.lk_key l = k.
Proof.
  induction ls as [|x ls IH]; simpl; [discriminate|].
  destruct (TTLCache.key_eqb (TTLCache.lk_key x) k) eqn:E; [|exact IH].
  intros H. injection H as <-. now apply key_eqb_eq.
Qed.

Lemma find_app k a b :
  TTLCache.find k (a ++ b)
  = match TTLCache.find k a with
    | Some l => Some l
    | None => TTLCache.find k b
    end.
Proof.
  induction a as [|x a IH]; simpl; [reflexivity|].
  now destruct (TTLCache.key_eqb (TTLCache.lk_key x) k).
Qed.

Lemma find_remove_same k ls : TTLCache.find k (TTLCache.remove k ls) = None.
Proof.
  induction ls as [|x ls IH]; simpl; [reflexivity|].
  destruct (TTLCache.key_eqb (TTLCache.lk_key x) k) eqn:E; simpl; [exact IH|].
  now rewrite E.
Qed.

Lemma find_remove_other k k' ls :
  k' <> k -> TTLCache.find k' (TTLCache.remove k ls) = TTLCache.find k' ls.
Proof.
  intros Hne. induction ls as [|x ls IH]; simpl; [reflexivity|].
  destruct (TTLCache.key_eqb (TTLCache.lk_key x) k) eqn:E; simpl.
  - apply key_eqb_eq in E.
    destruct (TTLCache.key_eqb (TTLCache.lk_key x) k') eqn:E'; [|exact IH].
    apply key_eqb_eq in E'. congruence.
  - now rewrite IH.
Qed.

(** Using a link changes the order of use and nothing else. *)
Lemma find_move_to_end k k' ls :
  TTLCache.find k' (TTLCache.move_to_end k ls) = TTLCache.find k' ls.
Proof.
  unfold TTLCache.move_to_end.
  destruct (TTLCache.find k ls) as [l|] eqn:Hf; [|reflexivity].
  pose proof (find_key _ _ _ Hf) as Hk. rewrite find_app.
  destruct (String.string_dec (fst k') (fst k)) as [E1|N1];
    [destruct (String.string_dec (snd k') (snd k)) as [E2|N2]|].
  - assert (k' = k) as -> by (destruct k, k'; simpl in *; congruence).
    rewrite find_remove_same. simpl. now rewrite Hk, key_eqb_refl.
  - assert (Hne : k' <> k) by congruence.
    rewrite (find_remove_other _ _ _ Hne).
    destruct (TTLCache.find k' ls); [reflexivity|]. simpl.
    destruct (TTLCache.key_eqb (TTLCache.lk_key l) k') eqn:E; [|reflexivity].
    apply key_eqb_eq in E. congruence.
  - assert (Hne : k' <> k) by congruence.
    rewrite (find_remove_other _ _ _ Hne).
    destruct (TTLCache.find k' ls); [reflexivity|]. simpl.
    destruct (TTLCache.key_eqb (TTLCache.lk_key l) k') eqn:E; [|reflexivity].
    apply key_eqb_eq in E. congruence.
Qed.

(** A stored value is found under its key, with a fresh expiry time. *)
Lemma find_setitem c k v time :
  1 <= TTLCache.maxsize c ->
  TTLCache.find k (TTLCache.links (TTLCache.setitem c k v time))
  = Some {| TTLCache.lk_key := k; TTLCache.lk_value := v;
            TTLCache.expire := (time + TTLCache.ttl c)%Z |}.
Proof.
  intros Hmax. unfold TTLCache.setitem.
  destruct (Nat.ltb_spec (TTLCache.maxsize c) 1) as [Hlt|_]; [lia|].
  cbn [TTLCache.links]. rewrite find_app, find_remove_same. simpl.
  now rewrite key_eqb_refl.
Qed.

Lemma setitem_params c k v time :
  TTLCache.maxsize (TTLCache.setitem c k v time) = TTLCache.maxsize c
  /\ TTLCache.ttl (TTLCache.setitem c k v time) = TTLCache.ttl c.
Proof.
  unfold TTLCache.setitem.
  destruct (Nat.ltb (TTLCache.maxsize c) 1); split; reflexivity.
Qed.

Lemma getitem_params c k time :
  TTLCache.maxsize (snd (TTLCache.getitem c k time)) = TTLCache.maxsize c
  /\ TTLCache.ttl (snd (TTLCache.getitem c k time)) = TTLCache.ttl c.
Proof.
  unfold TTLCache.getitem.
  destruct (TTLCache.find k (TTLCache.links c)) as [l|]; [|now split].
  destruct (TTLCache.expired time l); split; reflexivity.
Qed.

(** Looking a key up leaves every link's value and expiry as it was. *)
Lemma getitem_find c k k' time :
  TTLCache.find k' (TTLCache.links (snd (TTLCache.getitem c k time)))
  = TTLCache.find k' (TTLCache.links c).
Proof.
  unfold TTLCache.getitem.
  destruct (TTLCache.find k (TTLCache.links c)) as [l|]; [|reflexivity].
  destruct (TTLCache.expired time l); simpl; apply find_move_to_end.
Qed.

(** ** Cached reads *)

Section Reads.

Variable client : Fritz.FritzConnection.
Variable clock : nat -> Z.

(** What [call_action] does, case by case: a link that is live is used;
    a link that is expired is used, then the device is called and its
    answer stored at the next clock reading; without a link the device
    is called and its answer stored at this clock reading.  A failed
    call stores nothing. *)
Lemma call_action_run (a : Action) (w : World) :
  call_action client clock a w =
  let k := hashkey a in
  let c := w_cache w in
  let now := clock (w_ticks w) in
  let answer := Fritz.call_action client (List.length (w_calls w))
                  (service_name a) (action_name a) in
  match TTLCache.find k (TTLCache.links c) with
  | Some l =>
      let c1 := snd (TTLCache.getitem c k now) in
      if TTLCache.expired now l then
        match answer with
        | Ok v =>
            (Ok v, {| w_cache := TTLCache.setitem c1 k v (clock (S (w_ticks w)));
                      w_ticks := S (S (w_ticks w));
                      w_calls := w_calls w ++ [k] |})
        | Raise e =>
            (Raise e, {| w_cache := c1; w_ticks := S (w_ticks w);
                         w_calls := w_calls w ++ [k] |})
        end
      else
        (Ok (TTLCache.lk_value l),
         {| w_cache := c1; w_ticks := S (w_ticks w); w_calls := w_calls w |})
  | None =>
      match answer with
      | Ok v =>
          (Ok v, {| w_cache := TTLCache.setitem c k v now;
                    w_ticks := S (w_ticks w);
                    w_calls := w_calls w ++ [k] |})
      | Raise e =>
          (Raise e, {| w_cache := c; w_ticks := w_ticks w;
                       w_calls := w_calls w ++ [k] |})
      end
  end.
Proof.
  unfold call_action, bind, cache_getitem, cache_setitem, device_call,
    timer, ret, bind. cbv zeta.
  destruct (TTLCache.find (hashkey a) (TTLCache.links (w_cache w)))
    as [l|] eqn:Hf.
  - unfold TTLCache.getitem. simpl. rewrite Hf.
    destruct (TTLCache.expired (clock (w_ticks w)) l); simpl; [|reflexivity].
    destruct (Fritz.call_action client _ _ _); reflexivity.
  - simpl. destruct (Fritz.call_action client _ _ _); reflexivity.
Qed.

Lemma handle_read_run (a : Action) (key : string) (w : World) :
  handle_read client clock a key w =
  match call_action client clock a w with
  | (Ok output, w') => (subscript output key, w')
  | (Raise e, w') => (Raise e, w')
  end.
Proof. reflexivity. Qed.

End Reads.

Section Coalescing.

Variable client : Fritz.FritzConnection.
Variable clock : nat -> Z.

(** A read that finds a live link answers from it and calls nothing. *)
Lemma call_action_live (a : Action) (w : World) (l : TTLCache.Link) :
  TTLCache.find (hashkey a) (TTLCache.links (w_cache w)) = Some l ->
  TTLCache.expired (clock (w_ticks w)) l = false ->
  fst (call_action client clock a w) = Ok (TTLCache.lk_value l)
  /\ w_calls (snd (call_action client clock a w)) = w_calls w.
Proof.
  intros Hf He. rewrite call_action_run. cbv zeta. rewrite Hf, He.
  split; reflexivity.
Qed.

(** A read that misses and whose device call succeeds leaves a link
    holding the whole answer, stored at the last clock reading taken. *)
Lemma call_action_stores (a : Action) (w : World) (output : dict value) :
  1 <= TTLCache.maxsize (w_cache w) ->
  fst (TTLCache.getitem (w_cache w) (hashkey a) (clock (w_ticks w))) = None ->
  Fritz.call_action client (List.length (w_calls w))
    (service_name a) (action_name a) = Ok output ->
  let w1 := snd (call_action client clock a w) in
  fst (call_action client clock a w) = Ok output
  /\ w_calls w1 = w_calls w ++ [hashkey a]
  /\ TTLCache.find (hashkey a) (TTLCache.links (w_cache w1))
     = Some {| TTLCache.lk_key := hashkey a; TTLCache.lk_value := output;
               TTLCache.expire :=
                 (clock (pred (w_ticks w1)) + TTLCache.ttl (w_cache w))%Z |}.
Proof.
  intros Hmax Hmiss Hans. cbv zeta. rewrite call_action_run. cbv zeta.
  unfold TTLCache.getitem in Hmiss. rewrite Hans.
  destruct (TTLCache.find (hashkey a) (TTLCache.links (w_cache w)))
    as [l|] eqn:Hf.
  - destruct (TTLCache.expired (clock (w_ticks w)) l) eqn:He;
      [|discriminate Hmiss].
    cbn [fst snd w_calls w_cache w_ticks pred].
    repeat split.
    destruct (getitem_params (w_cache w) (hashkey a) (clock (w_ticks w)))
      as [Hm Ht].
    rewrite find_setitem, Ht; [reflexivity|]. now rewrite Hm.
  - cbn [fst snd w_calls w_cache w_ticks pred].
    repeat split. now rewrite find_setitem.
Qed.

End Coalescing.

(** Reads one after the other: when a read of one output of an operation
    misses the cache and the device answers, and a read of another output
    of the same operation follows within the time to live of what was
    stored, the two reads issue one device call between them; the answer
    is stored whole under (service name, action name) and both reads take
    their value from it. *)
Lemma sequential_reads_one_call (client : Fritz.FritzConnection) (clock : nat -> Z)
    (a a' : Action) (key1 key2 : string) (w : World) (output : dict value) :
  hashkey a' = hashkey a ->
  1 <= TTLCache.maxsize (w_cache w) ->
  fst (TTLCache.getitem (w_cache w) (hashkey a) (clock (w_ticks w))) = None ->
  Fritz.call_action client (List.length (w_calls w))
    (service_name a) (action_name a) = Ok output ->
  forall w1, w1 = snd (handle_read client clock a key1 w) ->
  (clock (w_ticks w1) <= clock (pred (w_ticks w1)) + TTLCache.ttl (w_cache w))%Z ->
  fst (handle_read client clock a key1 w) = subscript output key1
  /\ fst (handle_read client clock a' key2 w1) = subscript output key2
  /\ w_calls (snd (handle_read client clock a' key2 w1))
     = w_calls w ++ [hashkey a]
  /\ exists l, TTLCache.find (service_name a, action_name a)
                 (TTLCache.links (w_cache w1)) = Some l
               /\ TTLCache.lk_value l = output.
Proof.
  intros Hk Hmax Hmiss Hans w1 Hw1 Hwin.
  destruct (call_action_stores client clock a w output Hmax Hmiss Hans)
    as (Hr & Hc & Hf).
  rewrite handle_read_run in Hw1.
  rewrite !handle_read_run.
  destruct (call_action client clock a w) as [r wa] eqn:Hrun.
  simpl in Hr, Hc, Hf. subst r. simpl in Hw1. subst wa.
  set (l := {| TTLCache.lk_key := hashkey a; TTLCache.lk_value := output;
               TTLCache.expire :=
                 (clock (pred (w_ticks w1)) + TTLCache.ttl (w_cache w))%Z |}) in *.
  assert (He : TTLCache.expired (clock (w_ticks w1)) l = false).
  { unfold TTLCache.expired. simpl. apply Z.ltb_ge. exact Hwin. }
  rewrite <- Hk in Hf.
  destruct (call_action_live client clock a' w1 l Hf He) as [Hr' Hc'].
  destruct (call_action client clock a' w1) as [r' w2].
  simpl in Hr', Hc'. subst r'. simpl.
  repeat split; try congruence.
  exists l. split; [|reflexivity]. rewrite <- Hf, Hk. reflexivity.
Qed.

Section Misses.

Variable client : Fritz.FritzConnection.
Variable clock : nat -> Z.

(** A read that misses calls the device once and returns its answer,
    exception or not. *)
Lemma call_action_miss (a : Action) (w : World) :
  fst (TTLCache.getitem (w_cache w) (hashkey a) (clock (w_ticks w))) = None ->
  fst (call_action client clock a w)
  = Fritz.call_action client (List.length (w_calls w))
      (service_name a) (action_name a)
  /\ w_calls (snd (call_action client clock a w)) = w_calls w ++ [hashkey a].
Proof.
  intros Hmiss. rewrite call_action_run. cbv zeta.
  unfold TTLCache.getitem in Hmiss.
  destruct (TTLCache.find (hashkey a) (TTLCache.links (w_cache w))) as [l|].
  - destruct (TTLCache.expired (clock (w_ticks w)) l); [|discriminate Hmiss].
    destruct (Fritz.call_action client _ _ _); split; reflexivity.
  - destruct (Fritz.call_action client _ _ _); split; reflexivity.
Qed.

(** A read never changes the cache's capacity or time to live. *)
Lemma call_action_params (a : Action) (w : World) :
  TTLCache.maxsize (w_cache (snd (call_action client clock a w)))
  = TTLCache.maxsize (w_cache w)
  /\ TTLCache.ttl (w_cache (snd (call_action client clock a w)))
     = TTLCache.ttl (w_cache w).
Proof.
  rewrite call_action_run. cbv zeta.
  pose proof (getitem_params (w_cache w) (hashkey a) (clock (w_ticks w)))
    as [Hm Ht].
  destruct (TTLCache.find (hashkey a) (TTLCache.links (w_cache w))) as [l|].
  - destruct (TTLCache.expired (clock (w_ticks w)) l); [|now split].
    destruct (Fritz.call_action client _ _ _) as [v|e]; simpl; [|now split].
    destruct (setitem_params (snd (TTLCache.getitem (w_cache w) (hashkey a)
                                     (clock (w_ticks w))))
                (hashkey a) v (clock (S (w_ticks w)))) as [-> ->].
    now split.
  - destruct (Fritz.call_action client _ _ _) as [v|e]; simpl; [|now split].
    apply setitem_params.
Qed.

(** A read whose device call fails leaves every link as it was and
    misses again at any later clock reading. *)
Lemma call_action_failed (a : Action) (w : World) (e : exn) :
  fst (TTLCache.getitem (w_cache w) (hashkey a) (clock (w_ticks w))) = None ->
  Fritz.call_action client (List.length (w_calls w))
    (service_name a) (action_name a) = Raise e ->
  let w1 := snd (call_action client clock a w) in
  (forall k, TTLCache.find k (TTLCache.links (w_cache w1))
             = TTLCache.find k (TTLCache.links (w_cache w)))
  /\ (w_ticks w <= w_ticks w1 <= S (w_ticks w))
  /\ forall time, (clock (w_ticks w) <= time)%Z ->
                  fst (TTLCache.getitem (w_cache w1) (hashkey a) time) = None.
Proof.
  intros Hmiss Hans. cbv zeta. rewrite call_action_run. cbv zeta.
  rewrite Hans. unfold TTLCache.getitem in Hmiss |- *.
  destruct (TTLCache.find (hashkey a) (TTLCache.links (w_cache w)))
    as [l|] eqn:Hf.
  - destruct (TTLCache.expired (clock (w_ticks w)) l) eqn:He;
      [|discriminate Hmiss].
    cbn [snd w_cache w_ticks TTLCache.links].
    repeat split; try lia.
    + intros k. apply find_move_to_end.
    + intros time Htime. rewrite find_move_to_end, Hf.
      assert (TTLCache.expired time l = true) as ->; [|reflexivity].
      unfold TTLCache.expired in *. apply Z.ltb_lt in He. apply Z.ltb_lt. lia.
  - cbn [snd w_cache w_ticks]. repeat split; try lia.
    intros time _. now rewrite Hf.
Qed.

End Misses.

(** C6: when a read misses the cache and the device call fails, the caller
    gets the failure, every cache entry (value and expiry) is as it was
    before, and the read that follows calls the device again and returns
    what the device answers then. *)
Theorem failed_read_not_cached (client : Fritz.FritzConnection)
    (clock : nat -> Z) (a : Action) (key key' : string) (w : World) (e : exn) :
  (forall n, (clock n <= clock (S n))%Z) ->
  fst (TTLCache.getitem (w_cache w) (hashkey a) (clock (w_ticks w))) = None ->
  Fritz.call_action client (List.length (w_calls w))
    (service_name a) (action_name a) = Raise e ->
  let w1 := snd (handle_read client clock a key w) in
  fst (handle_read client clock a key w) = Raise e
  /\ (forall k, TTLCache.find k (TTLCache.links (w_cache w1))
                = TTLCache.find k (TTLCache.links (w_cache w)))
  /\ TTLCache.maxsize (w_cache w1) = TTLCache.maxsize (w_cache w)
  /\ TTLCache.ttl (w_cache w1) = TTLCache.ttl (w_cache w)
  /\ w_calls w1 = w_calls w ++ [hashkey a]
  /\ w_calls (snd (handle_read client clock a key' w1))
     = w_calls w ++ [hashkey a; hashkey a]
  /\ fst (call_action client clock a w1)
     = Fritz.call_action client (S (List.length (w_calls w)))
         (service_name a) (action_name a).
Proof.
  intros Hmono Hmiss Hans. cbv zeta.
  destruct (call_action_miss client clock a w Hmiss) as [Hr Hc].
  destruct (call_action_failed client clock a w e Hmiss Hans) as (Hf & Ht & Hm).
  destruct (call_action_params client clock a w) as [Hmax Httl].
  rewrite Hans in Hr.
  assert (Hw1 : snd (handle_read client clock a key w)
                = snd (call_action client clock a w)).
  { rewrite handle_read_run.
    destruct (call_action client clock a w) as [[o|e'] w']; reflexivity. }
  rewrite Hw1. set (w1 := snd (call_action client clock a w)) in *.
  assert (Hmiss1 : fst (TTLCache.getitem (w_cache w1) (hashkey a)
                          (clock (w_ticks w1))) = None).
  { apply Hm. destruct Ht as [Ht1 Ht2].
    assert (w_ticks w1 = w_ticks w \/ w_ticks w1 = S (w_ticks w)) as [-> | ->]
        by lia; [lia | apply Hmono]. }
  destruct (call_action_miss client clock a w1 Hmiss1) as [Hr1 Hc1].
  repeat split; try assumption.
  - rewrite handle_read_run.
    destruct (call_action client clock a w) as [[o|e'] w']; simpl in *;
      congruence.
  - rewrite handle_read_run.
    destruct (call_action client clock a w1) as [[o|e'] w2]; simpl in *;
      rewrite Hc1, Hc, <- app_assoc; reflexivity.
  - rewrite Hr1, Hc, length_app. simpl. f_equal. lia.
Qed.

(** ** Expiry and eviction *)

Lemma expire_links_live time ls :
  Forall (fun l => TTLCache.expired time l = false) ls ->
  TTLCache.expire_links time ls = ls.
Proof.
  induction 1 as [|l ls Hl _ IH]; simpl; [reflexivity|].
  now rewrite Hl, IH.
Qed.

Lemma evict_below n ls : List.length ls < n -> TTLCache.evict n ls = ls.
Proof.
  destruct ls as [|l ls]; simpl; [reflexivity|]. intros H.
  destruct (Nat.ltb_spec n (S (List.length ls + 1))); [lia | reflexivity].
Qed.

Lemma evict_full n ls :
  1 <= n -> List.length ls = n -> TTLCache.evict n ls = tl ls.
Proof.
  destruct ls as [|l ls]; simpl; [reflexivity|]. intros Hn H.
  destruct (Nat.ltb_spec n (S (List.length ls + 1))); [|lia].
  apply evict_below. lia.
Qed.

Lemma remove_absent k ls :
  TTLCache.find k ls = None -> TTLCache.remove k ls = ls.
Proof.
  induction ls as [|l ls IH]; simpl; [reflexivity|].
  destruct (TTLCache.key_eqb (TTLCache.lk_key l) k); [discriminate|].
  intros H. simpl. now rewrite IH.
Qed.

Lemma find_tl k ls : TTLCache.find k ls = None -> TTLCache.find k (tl ls) = None.
Proof.
  destruct ls as [|l ls]; simpl; [auto|].
  now destruct (TTLCache.key_eqb (TTLCache.lk_key l) k).
Qed.

(** Storing a new key in a cache of live links: below capacity the link
    goes last; at capacity the first link, the least recently used, goes. *)
Lemma setitem_new c k v time :
  1 <= TTLCache.maxsize c ->
  TTLCache.find k (TTLCache.links c) = None ->
  Forall (fun l => TTLCache.expired time l = false) (TTLCache.links c) ->
  let new := {| TTLCache.lk_key := k; TTLCache.lk_value := v;
                TTLCache.expire := (time + TTLCache.ttl c)%Z |} in
  (List.length (TTLCache.links c) < TTLCache.maxsize c ->
   TTLCache.links (TTLCache.setitem c k v time) = TTLCache.links c ++ [new])
  /\ (List.length (TTLCache.links c) = TTLCache.maxsize c ->
      TTLCache.links (TTLCache.setitem c k v time)
      = tl (TTLCache.links c) ++ [new]).
Proof.
  intros Hmax Hf Hlive. cbv zeta. unfold TTLCache.setitem.
  destruct (Nat.ltb_spec (TTLCache.maxsize c) 1) as [Hlt|_]; [lia|].
  rewrite (expire_links_live _ _ Hlive), Hf. cbn [TTLCache.links].
  split; intros Hlen.
  - now rewrite evict_below, remove_absent.
  - rewrite evict_full by assumption.
    now rewrite remove_absent by now apply find_tl.
Qed.

(** C7: the module's cache has time to live 10 and capacity 200, and no
    read changes them.  A read that finds a link whose expiry time has
    passed calls the device once, whatever the number of links, and a
    successful answer replaces the link's value and expiry.  A read that
    hits moves its link to the end of the order of use; a successful read
    of a new key goes last when there are fewer than 200 links and drops
    the first link in the order of use when there are 200 live links. *)
Theorem cache_ttl_and_capacity (client : Fritz.FritzConnection)
    (clock : nat -> Z) (a : Action) (w : World) :
  TTLCache.maxsize (w_cache w) = TTLCache.maxsize cache ->
  TTLCache.ttl (w_cache w) = TTLCache.ttl cache ->
  let k := hashkey a in
  let w1 := snd (call_action client clock a w) in
  let answer := Fritz.call_action client (List.length (w_calls w))
                  (service_name a) (action_name a) in
  (TTLCache.ttl cache = 10%Z /\ TTLCache.maxsize cache = 200)
  /\ (TTLCache.ttl (w_cache w1) = 10%Z /\ TTLCache.maxsize (w_cache w1) = 200)
  /\ (forall l,
        TTLCache.find k (TTLCache.links (w_cache w)) = Some l ->
        (TTLCache.expire l < clock (w_ticks w))%Z ->
        fst (call_action client clock a w) = answer
        /\ w_calls w1 = w_calls w ++ [k]
        /\ forall v, answer = Ok v ->
             TTLCache.find k (TTLCache.links (w_cache w1))
             = Some {| TTLCache.lk_key := k; TTLCache.lk_value := v;
                       TTLCache.expire := (clock (S (w_ticks w)) + 10)%Z |})
  /\ (forall l,
        TTLCache.find k (TTLCache.links (w_cache w)) = Some l ->
        (clock (w_ticks w) <= TTLCache.expire l)%Z ->
        fst (call_action client clock a w) = Ok (TTLCache.lk_value l)
        /\ w_calls w1 = w_calls w
        /\ TTLCache.links (w_cache w1)
           = TTLCache.remove k (TTLCache.links (w_cache w)) ++ [l])
  /\ (forall v,
        TTLCache.find k (TTLCache.links (w_cache w)) = None ->
        Forall (fun l => (clock (w_ticks w) <= TTLCache.expire l)%Z)
          (TTLCache.links (w_cache w)) ->
        answer = Ok v ->
        let new := {| TTLCache.lk_key := k; TTLCache.lk_value := v;
                      TTLCache.expire := (clock (w_ticks w) + 10)%Z |} in
        (List.length (TTLCache.links (w_cache w)) < 200 ->
         TTLCache.links (w_cache w1) = TTLCache.links (w_cache w) ++ [new])
        /\ (List.length (TTLCache.links (w_cache w)) = 200 ->
            TTLCache.links (w_cache w1)
            = tl (TTLCache.links (w_cache w)) ++ [new])).
Proof.
  intros Hmax Httl. cbv zeta. simpl in Hmax, Httl.
  destruct (call_action_params client clock a w) as [Hm1 Ht1].
  split; [split; reflexivity|].
  split; [split; congruence|].
  split; [|split].
  - intros l Hf Hexp.
    assert (He : TTLCache.expired (clock (w_ticks w)) l = true)
      by now apply Z.ltb_lt.
    assert (Hmiss : fst (TTLCache.getitem (w_cache w) (hashkey a)
                           (clock (w_ticks w))) = None)
      by (unfold TTLCache.getitem; now rewrite Hf, He).
    destruct (call_action_miss client clock a w Hmiss) as [Hr Hc].
    repeat split; try assumption.
    intros v Hv. rewrite call_action_run. cbv zeta. rewrite Hf, He, Hv.
    cbn [snd w_cache].
    destruct (getitem_params (w_cache w) (hashkey a) (clock (w_ticks w)))
      as [Hm Ht].
    rewrite find_setitem by (rewrite Hm, Hmax; lia).
    now rewrite Ht, Httl.
  - intros l Hf Hlive.
    assert (He : TTLCache.expired (clock (w_ticks w)) l = false)
      by now apply Z.ltb_ge.
    rewrite call_action_run. cbv zeta. rewrite Hf, He.
    unfold TTLCache.getitem, TTLCache.move_to_end. rewrite Hf, He.
    repeat split.
  - intros v Hf Hlive Hv.
    rewrite call_action_run. cbv zeta. rewrite Hf, Hv. cbn [snd w_cache].
    assert (Hl : Forall (fun l => TTLCache.expired (clock (w_ticks w)) l = false)
                   (TTLCache.links (w_cache w))).
    { revert Hlive. apply Forall_impl. intros l Hl. now apply Z.ltb_ge. }
    pose proof (setitem_new (w_cache w) (hashkey a) v (clock (w_ticks w))) as H.
    cbv zeta in H. rewrite Hmax, Httl in H.
    apply H; [lia | exact Hf | exact Hl].
Qed.

(** ** Loops *)

Lemma for_each_app {St X : Type} (body : St -> X -> M St) (xs ys : list X)
    (s : St) (w : World) :
  for_each body (xs ++ ys) s w
  = match for_each body xs s w with
    | (Ok s', w') => for_each body ys s' w'
    | (Raise e, w') => (Raise e, w')
    end.
Proof.
  revert s w. induction xs as [|x xs IH]; intros s w; simpl; [reflexivity|].
  unfold bind. destruct (body s x w) as [[s'|e] w']; [apply IH | reflexivity].
Qed.

(** An invariant of the loop state and the world that every iteration
    keeps holds when the loop ends; [E] is what holds of the world when an
    iteration raises. *)
Lemma for_each_inv {St X : Type} (body : St -> X -> M St)
    (I : St -> World -> Prop) (E : World -> Prop) (xs : list X) :
  (forall s x w, In x xs -> I s w ->
     match body s x w with
     | (Ok s', w') => I s' w'
     | (Raise _, w') => E w'
     end) ->
  forall s w, I s w ->
    match for_each body xs s w with
    | (Ok s', w') => I s' w'
    | (Raise _, w') => E w'
    end.
Proof.
  induction xs as [|x xs IH]; intros Hbody s w HI; simpl; [exact HI|].
  unfold bind. pose proof (Hbody s x w (or_introl eq_refl) HI) as Hx.
  destruct (body s x w) as [[s'|e] w']; [|exact Hx].
  apply IH; [|exact Hx]. intros s0 x0 w0 Hin. apply Hbody. now right.
Qed.

(** ** Registration *)

Lemma str_in_iff (x : string) (xs : list string) : str_in x xs = true <-> In x xs.
Proof.
  unfold str_in. rewrite existsb_exists. split.
  - intros [y [Hy E]]. apply String.eqb_eq in E. now subst.
  - intros H. exists x. split; [exact H | apply String.eqb_refl].
Qed.

Lemma skipped_iff (FLAGS : Flags) (a : Action) :
  skipped FLAGS a = true
  <-> In (service_name a) (service_skiplist FLAGS)
      \/ In (action_name a) (action_skiplist FLAGS).
Proof. unfold skipped. now rewrite orb_true_iff, !str_in_iff. Qed.

Lemma dict_get_In {V : Type} (d : dict V) (k : string) (v : V) :
  dict_get d k = Some v -> In (k, v) d.
Proof.
  induction d as [|[k' v'] d IH]; simpl; [discriminate|].
  destruct (String.eqb_spec k' k) as [->|_]; [|auto].
  intros H. injection H as ->. now left.
Qed.

Lemma dict_set_In {V : Type} (d : dict V) (k : string) (v : V) (k' : string)
    (v' : V) :
  In (k', v') (dict_set d k v) -> (k' = k /\ v' = v) \/ In (k', v') d.
Proof.
  induction d as [|[k0 v0] d IH]; simpl.
  - intros [E | []]. injection E as <- <-. now left.
  - destruct (String.eqb_spec k0 k) as [->|_]; simpl.
    + intros [E | H]; [injection E as <- <-; now left | now right; right].
    + intros [E | H]; [now right; left|]. destruct (IH H); auto.
Qed.

Lemma dict_get_set {V : Type} (d : dict V) (k : string) (v : V) :
  dict_get (dict_set d k v) k = Some v.
Proof.
  induction d as [|[k0 v0] d IH]; simpl.
  - now rewrite String.eqb_refl.
  - destruct (String.eqb k0 k) eqn:E; simpl; now rewrite E.
Qed.

Lemma set_function_In (g : Gauge) (labels l : TTLCache.key) (f f' : Accessor) :
  In (l, f') (set_function g labels f) -> (l = labels /\ f' = f) \/ In (l, f') g.
Proof.
  induction g as [|[l0 f0] g IH]; simpl.
  - intros [E | []]. injection E as <- <-. now left.
  - destruct (TTLCache.key_eqb l0 labels) eqn:Ek; simpl.
    + apply key_eqb_eq in Ek. subst l0.
      intros [E | H]; [injection E as <- <-; now left | now right; right].
    + intros [E | H]; [now right; left|]. destruct (IH H); auto.
Qed.

Lemma set_function_has (g : Gauge) (labels : TTLCache.key) (f : Accessor) :
  In (labels, f) (set_function g labels f).
Proof.
  induction g as [|[l0 f0] g IH]; simpl; [now left|].
  destruct (TTLCache.key_eqb l0 labels) eqn:Ek; simpl.
  - apply key_eqb_eq in Ek. subst l0. now left.
  - now right.
Qed.

Section Registration.

Variable client : Fritz.FritzConnection.
Variable FLAGS : Flags.
Variable clock : nat -> Z.
Variable registry_accepts : string -> bool.

Local Abbreviation call_action := (call_action client clock).
Local Abbreviation handle_read := (handle_read client clock).
Local Abbreviation bind_key := (bind_key client FLAGS clock registry_accepts).
Local Abbreviation visit_action := (visit_action client FLAGS clock registry_accepts).
Local Abbreviation collect_variables :=
  (collect_variables client FLAGS clock registry_accepts).

(** A read issues no call or one call, of the operation read. *)
Lemma call_action_calls (a : Action) (w : World) :
  w_calls (snd (call_action a w)) = w_calls w
  \/ w_calls (snd (call_action a w)) = w_calls w ++ [hashkey a].
Proof.
  rewrite call_action_run. cbv zeta.
  destruct (TTLCache.find _ _) as [l|].
  - destruct (TTLCache.expired _ l); [|now left].
    destruct (Fritz.call_action client _ _ _); now right.
  - destruct (Fritz.call_action client _ _ _); now right.
Qed.

Lemma handle_read_calls (a : Action) (key : string) (w : World) :
  w_calls (snd (handle_read a key w)) = w_calls (snd (call_action a w)).
Proof.
  rewrite handle_read_run. now destruct (call_action a w) as [[o|e] w'].
Qed.

(** A skipped operation is passed over: nothing is read, nothing bound. *)
Lemma visit_action_skipped (variables : dict Gauge) (a : Action) (w : World) :
  skipped FLAGS a = true -> visit_action variables a w = (Ok variables, w).
Proof.
  unfold skipped, visit_action. intros H. apply orb_true_iff in H as [H|H].
  - now rewrite H.
  - rewrite H. now destruct (str_in (service_name a) (service_skiplist FLAGS)).
Qed.

Lemma visit_action_candidate (variables : dict Gauge) (a : Action) (w : World) :
  skipped FLAGS a = false ->
  visit_action variables a w
  = match call_action a w with
    | (Ok output, w') => for_each (bind_key a) (dict_keys output) variables w'
    | (Raise e, w') => (Raise e, w')
    end.
Proof.
  unfold skipped, visit_action. intros H. apply orb_false_iff in H as [H1 H2].
  now rewrite H1, H2.
Qed.

(** Registration runs as it would on the candidates alone. *)
Lemma collect_variables_candidates (actions : list Action)
    (variables : dict Gauge) (w : World) :
  for_each visit_action actions variables w
  = for_each visit_action (candidates FLAGS actions) variables w.
Proof.
  revert variables w. induction actions as [|a actions IH]; intros v w;
    [reflexivity|].
  simpl. destruct (skipped FLAGS a) eqn:Hs; simpl; unfold bind.
  - rewrite (visit_action_skipped v a w Hs). apply IH.
  - destruct (visit_action v a w) as [[v'|e] w']; [apply IH | reflexivity].
Qed.

(** What binding one output key does, case by case. *)
Lemma bind_key_run (a : Action) (variables : dict Gauge) (key : string)
    (w : World) :
  bind_key a variables key w =
  match dict_get (arguments a) key with
  | None => (Raise KeyError, w)
  | Some state_variable =>
      let metric_name :=
        metricify (service_name a) (action_name a)
          (Fritz.name state_variable) in
      if isExportable (Fritz.name state_variable) then
        match match dict_get variables metric_name with
              | Some g => Ok g
              | None => if registry_accepts metric_name then Ok []
                        else Raise ValueError
              end with
        | Raise e => (Raise e, w)
        | Ok g =>
            let variables' :=
              dict_set variables metric_name
                (set_function g (hashkey a)
                   {| acc_action := a; acc_key := key |}) in
            if verbose FLAGS then
              match handle_read a key w with
              | (Ok _, w') => (Ok variables', w')
              | (Raise e, w') => (Raise e, w')
              end
            else (Ok variables', w)
        end
      else (Ok variables, w)
  end.
Proof.
  unfold bind_key, new_gauge.
  destruct (dict_get (arguments a) key) as [sv|]; [|reflexivity].
  cbv zeta. destruct (isExportable (Fritz.name sv)); [|reflexivity].
  unfold bind.
  destruct (dict_get variables _) as [g|]; simpl.
  - destruct (verbose FLAGS); [|reflexivity].
    unfold bind. now destruct (handle_read a key w) as [[v|e] w'].
  - destruct (registry_accepts _); simpl; [|reflexivity].
    destruct (verbose FLAGS); [|reflexivity].
    unfold bind. now destruct (handle_read a key w) as [[v|e] w'].
Qed.

Lemma calls_ok_step (actions : list Action) (calls0 : list TTLCache.key)
    (a : Action) (w w' : World) :
  In a actions -> skipped FLAGS a = false ->
  calls_ok FLAGS actions calls0 w ->
  w_calls w' = w_calls w \/ w_calls w' = w_calls w ++ [hashkey a] ->
  calls_ok FLAGS actions calls0 w'.
Proof.
  intros Hin Hs (new & Hc & Hall) [E | E].
  - exists new. now rewrite E.
  - exists (new ++ [hashkey a]). rewrite E, Hc, app_assoc. split; [reflexivity|].
    apply Forall_app. split; [exact Hall|]. constructor; [|constructor].
    exists a. split; [|reflexivity]. apply filter_In. now rewrite Hs.
Qed.

(** Binding a key keeps the registry and the calls as promised. *)
Lemma bind_key_inv (actions : list Action) (calls0 : list TTLCache.key)
    (a : Action) (variables : dict Gauge) (key : string) (w : World) :
  In a actions -> skipped FLAGS a = false ->
  registry_ok FLAGS actions variables /\ calls_ok FLAGS actions calls0 w ->
  match bind_key a variables key w with
  | (Ok variables', w') =>
      registry_ok FLAGS actions variables' /\ calls_ok FLAGS actions calls0 w'
  | (Raise _, w') => calls_ok FLAGS actions calls0 w'
  end.
Proof.
  intros Hin Hs [Hreg Hcalls]. rewrite bind_key_run.
  destruct (dict_get (arguments a) key) as [sv|] eqn:Hsv; [|exact Hcalls].
  cbv zeta. destruct (isExportable (Fritz.name sv)) eqn:Hexp; [|now split].
  set (mn := metricify (service_name a) (action_name a) (Fritz.name sv)).
  assert (Hg : forall g,
             (forall labels f, In (labels, f) g ->
                               bound_to FLAGS actions mn labels f) ->
             registry_ok FLAGS actions
               (dict_set variables mn
                  (set_function g (hashkey a)
                     {| acc_action := a; acc_key := key |}))).
  { intros g Hgood mn' g' labels f Hin1 Hin2.
    apply dict_set_In in Hin1 as [[-> ->] | Hold]; [|now apply (Hreg mn' g')].
    apply set_function_In in Hin2 as [[-> ->] | Hold]; [|now apply Hgood].
    repeat split; simpl; try assumption. now exists sv. }
  assert (Hread : calls_ok FLAGS actions calls0 (snd (handle_read a key w))).
  { apply (calls_ok_step actions calls0 a w); try assumption.
    rewrite handle_read_calls. apply call_action_calls. }
  destruct (dict_get variables mn) as [g|] eqn:Hget.
  - assert (Hgood : forall labels f, In (labels, f) g ->
                                     bound_to FLAGS actions mn labels f)
      by (intros labels f; apply Hreg; now apply dict_get_In).
    destruct (verbose FLAGS); [|split; auto].
    destruct (handle_read a key w) as [[v|e] w']; simpl in Hread; auto.
  - destruct (registry_accepts mn); [|exact Hcalls].
    assert (Hgood : forall labels f, In (labels, f) (@nil (TTLCache.key * Accessor)) ->
                                     bound_to FLAGS actions mn labels f)
      by (intros labels f []).
    destruct (verbose FLAGS); [|split; auto].
    destruct (handle_read a key w) as [[v|e] w']; simpl in Hread; auto.
Qed.

(** Visiting an action keeps the registry and the calls as promised. *)
Lemma visit_action_inv (actions : list Action) (calls0 : list TTLCache.key)
    (variables : dict Gauge) (a : Action) (w : World) :
  In a actions ->
  registry_ok FLAGS actions variables /\ calls_ok FLAGS actions calls0 w ->
  match visit_action variables a w with
  | (Ok variables', w') =>
      registry_ok FLAGS actions variables' /\ calls_ok FLAGS actions calls0 w'
  | (Raise _, w') => calls_ok FLAGS actions calls0 w'
  end.
Proof.
  intros Hin [Hreg Hcalls].
  destruct (skipped FLAGS a) eqn:Hs.
  - rewrite visit_action_skipped by assumption. now split.
  - rewrite visit_action_candidate by assumption.
    assert (Hc : calls_ok FLAGS actions calls0 (snd (call_action a w)))
      by (apply (calls_ok_step actions calls0 a w); auto using call_action_calls).
    destruct (call_action a w) as [[output|e] w1]; simpl in Hc; [|exact Hc].
    apply (for_each_inv (bind_key a)
             (fun v w => registry_ok FLAGS actions v
                         /\ calls_ok FLAGS actions calls0 w)
             (calls_ok FLAGS actions calls0)); [|now split].
    intros s x w0 _ HI. now apply bind_key_inv.
Qed.

(** Registration from an empty table: every child of every gauge is bound
    as promised, and every device call made is a candidate's. *)
Lemma collect_variables_inv (actions : list Action) (w : World) :
  match collect_variables actions w with
  | (Ok variables, w') =>
      registry_ok FLAGS actions variables
      /\ calls_ok FLAGS actions (w_calls w) w'
  | (Raise _, w') => calls_ok FLAGS actions (w_calls w) w'
  end.
Proof.
  unfold collect_variables.
  apply (for_each_inv visit_action
           (fun v w' => registry_ok FLAGS actions v
                        /\ calls_ok FLAGS actions (w_calls w) w')
           (calls_ok FLAGS actions (w_calls w))).
  - intros s x w0 Hin HI. now apply visit_action_inv.
  - split.
    + intros mn g labels f [].
    + exists []. now rewrite app_nil_r.
Qed.

(** Binding an exportable output leaves its accessor in the gauge of
    its metric name, under the labels of its operation. *)
Lemma bind_key_binds (a : Action) (variables variables' : dict Gauge)
    (key : string) (w w' : World) (state_variable : Fritz.StateVariable) :
  bind_key a variables key w = (Ok variables', w') ->
  dict_get (arguments a) key = Some state_variable ->
  isExportable (Fritz.name state_variable) = true ->
  exists g,
    dict_get variables'
      (metricify (service_name a) (action_name a) (Fritz.name state_variable))
    = Some g
    /\ In (hashkey a, {| acc_action := a; acc_key := key |}) g.
Proof.
  rewrite bind_key_run. intros H Hsv Hexp. rewrite Hsv in H. cbv zeta in H.
  rewrite Hexp in H.
  set (mn := metricify (service_name a) (action_name a)
               (Fritz.name state_variable)) in *.
  assert (Hdone : forall g,
             exists g', dict_get
                          (dict_set variables mn
                             (set_function g (hashkey a)
                                {| acc_action := a; acc_key := key |})) mn
                        = Some g'
                        /\ In (hashkey a, {| acc_action := a; acc_key := key |}) g').
  { intros g. eexists. split; [apply dict_get_set | apply set_function_has]. }
  destruct (match dict_get variables mn with
            | Some g => Ok g
            | None => if registry_accepts mn then Ok [] else Raise ValueError
            end) as [g|e]; [|discriminate H].
  destruct (verbose FLAGS).
  - destruct (handle_read a key w) as [[v|e] w1]; [|discriminate H].
    injection H as <- _. apply Hdone.
  - injection H as <- _. apply Hdone.
Qed.

(** With the verbose flag off, binding reads nothing: the world is as it
    was, whatever the outcome. *)
Lemma bind_key_quiet (a : Action) (variables : dict Gauge) (key : string)
    (w : World) :
  verbose FLAGS = false -> snd (bind_key a variables key w) = w.
Proof.
  intros Hv. rewrite bind_key_run, Hv.
  destruct (dict_get (arguments a) key) as [sv|]; [|reflexivity].
  cbv zeta. destruct (isExportable (Fritz.name sv)); [|reflexivity].
  destruct (dict_get variables _) as [g|]; [reflexivity|].
  now destruct (registry_accepts _).
Qed.

Lemma bind_keys_quiet (a : Action) (keys : list string)
    (variables : dict Gauge) (w : World) :
  verbose FLAGS = false ->
  snd (for_each (bind_key a) keys variables w) = w.
Proof.
  intros Hv. revert variables.
  induction keys as [|key keys IH]; intros variables; [reflexivity|].
  simpl. unfold bind.
  pose proof (bind_key_quiet a variables key w Hv) as Hq.
  destruct (bind_key a variables key w) as [[v'|e] w']; simpl in Hq; subst w'.
  - apply IH.
  - reflexivity.
Qed.

(** With the verbose flag off, registration issues at most one device
    call for each candidate. *)
Lemma collect_variables_call_count (actions : list Action)
    (variables : dict Gauge) (w : World) :
  verbose FLAGS = false ->
  List.length (w_calls (snd (for_each visit_action actions variables w)))
  <= List.length (w_calls w) + List.length (candidates FLAGS actions).
Proof.
  intros Hv. revert variables w.
  induction actions as [|a actions IH]; intros variables w; simpl; [lia|].
  unfold bind. destruct (skipped FLAGS a) eqn:Hs; simpl.
  - rewrite (visit_action_skipped variables a w Hs). apply IH.
  - rewrite (visit_action_candidate variables a w Hs).
    pose proof (call_action_calls a w) as Hc.
    destruct (call_action a w) as [[output|e] w1]; simpl in Hc.
    + pose proof (bind_keys_quiet a (dict_keys output) variables w1 Hv) as Hq.
      destruct (for_each (bind_key a) (dict_keys output) variables w1)
        as [[v'|e] w2]; simpl in Hq; subst w2.
      * specialize (IH v' w1).
        destruct Hc as [Hc|Hc]; rewrite Hc in IH;
          [|rewrite length_app in IH; simpl in IH]; lia.
      * simpl. destruct Hc as [-> | ->]; [|rewrite length_app; simpl]; lia.
    + simpl. destruct Hc as [-> | ->]; [|rewrite length_app; simpl]; lia.
Qed.

(** An output key the operation does not declare stops the loop over the
    keys with an exception; with the verbose flag off and a registry that
    accepts every name the exception is [KeyError]. *)
Lemma bind_keys_undeclared (a : Action) (keys : list string) (key : string)
    (variables : dict Gauge) (w : World) :
  In key keys -> dict_get (arguments a) key = None ->
  (exists e w', for_each (bind_key a) keys variables w = (Raise e, w'))
  /\ (verbose FLAGS = false ->
      (forall metric_name, registry_accepts metric_name = true) ->
      for_each (bind_key a) keys variables w = (Raise KeyError, w)).
Proof.
  intros Hin Hkey. revert variables w.
  induction keys as [|k keys IH]; intros variables w; [destruct Hin|].
  simpl. unfold bind. rewrite bind_key_run.
  destruct (dict_get (arguments a) k) as [sv|] eqn:Hk.
  - assert (Hrest : In key keys)
      by (destruct Hin as [-> | H]; [congruence | exact H]).
    cbv zeta. split.
    + destruct (if isExportable (Fritz.name sv) then _ else _)
        as [[v'|e] w']; [apply IH; assumption | eauto].
    + intros Hv Hacc. rewrite Hv, Hacc.
      destruct (isExportable (Fritz.name sv)).
      * destruct (dict_get variables _); now apply IH.
      * now apply IH.
  - split; [eauto | reflexivity].
Qed.

End Registration.

(** ** The claims on registration *)

(** C5: an operation whose service name is in the service skip list or
    whose action name is in the action skip list is no candidate:
    registration runs as on the candidates alone, issues no device call
    for it and binds no gauge child to its labels.  Membership is equality
    of strings, capitals included. *)
Theorem skipped_never_candidate (client : Fritz.FritzConnection)
    (FLAGS : Flags) (clock : nat -> Z) (registry_accepts : string -> bool)
    (actions : list Action) (w : World) (a : Action) :
  In (service_name a) (service_skiplist FLAGS)
  \/ In (action_name a) (action_skiplist FLAGS) ->
  let run := collect_variables client FLAGS clock registry_accepts actions w in
  ~ In a (candidates FLAGS actions)
  /\ run = collect_variables client FLAGS clock registry_accepts
             (candidates FLAGS actions) w
  /\ (exists new, w_calls (snd run) = w_calls w ++ new
                  /\ ~ In (hashkey a) new)
  /\ (forall variables, fst run = Ok variables ->
        forall metric_name g f,
          In (metric_name, g) variables -> ~ In (hashkey a, f) g).
Proof.
  intros Hskip. apply skipped_iff in Hskip. cbv zeta.
  assert (Hsame : forall a', hashkey a' = hashkey a -> skipped FLAGS a' = true).
  { intros a' E. unfold hashkey in E. injection E as E1 E2.
    unfold skipped in *. now rewrite E1, E2. }
  pose proof (collect_variables_inv client FLAGS clock registry_accepts
                actions w) as Hinv.
  split; [|split; [|split]].
  - intros Hin. apply filter_In in Hin as [_ Hn]. now rewrite Hskip in Hn.
  - apply collect_variables_candidates.
  - destruct (collect_variables client FLAGS clock registry_accepts actions w)
      as [[variables|e] w']; simpl;
      [destruct Hinv as [_ Hc] | pose proof Hinv as Hc];
      destruct Hc as (new & Hnew & Hall); exists new; (split; [exact Hnew|]);
      intros Hin; rewrite Forall_forall in Hall;
      destruct (Hall _ Hin) as (a' & Ha' & E);
      apply filter_In in Ha' as [_ Hn];
      rewrite (Hsame a' (eq_sym E)) in Hn; discriminate Hn.
  - intros variables Hrun metric_name g f Hg Hf.
    destruct (collect_variables client FLAGS clock registry_accepts actions w)
      as [[variables'|e] w']; simpl in Hrun; [|discriminate Hrun].
    injection Hrun as ->. destruct Hinv as [Hreg _].
    destruct (Hreg metric_name g (hashkey a) f Hg Hf) as (_ & Hn & E & _).
    rewrite (Hsame (acc_action f)) in Hn; [discriminate Hn | now rewrite E].
Qed.

(** C9, as stated, fails: registering the sample operation on the sample
    device issues a device call. *)
Lemma registration_calls_device :
  ~ (forall client FLAGS clock registry_accepts actions w,
        w_calls (snd (collect_variables client FLAGS clock registry_accepts
                        actions w)) = w_calls w
        /\ exists variables,
             fst (collect_variables client FLAGS clock registry_accepts
                    actions w) = Ok variables).
Proof.
  intros H.
  destruct (H Demo.client default_flags (Demo.clock 1) Demo.accepts_all
              [Demo.addon_infos] initial_world) as [Hcalls _].
  vm_compute in Hcalls. discriminate Hcalls.
Qed.

(** C10: reading a field whose key the device's answer lacks raises
    [KeyError]; binding an output key the operation does not declare
    raises [KeyError]; and registration that reaches a candidate whose
    answer holds such a key ends in an exception, which is [KeyError]
    when the verbose flag is off and the registry accepts every name. *)
Theorem lookup_errors_uncaught (client : Fritz.FritzConnection)
    (FLAGS : Flags) (clock : nat -> Z) (registry_accepts : string -> bool) :
  (forall a key w output w1,
      call_action client clock a w = (Ok output, w1) ->
      dict_get output key = None ->
      handle_read client clock a key w = (Raise KeyError, w1))
  /\ (forall a variables key w,
        dict_get (arguments a) key = None ->
        bind_key client FLAGS clock registry_accepts a variables key w
        = (Raise KeyError, w))
  /\ (forall before a after w variables0 w0 output w1 key,
        for_each (visit_action client FLAGS clock registry_accepts) before [] w
        = (Ok variables0, w0) ->
        skipped FLAGS a = false ->
        call_action client clock a w0 = (Ok output, w1) ->
        In key (dict_keys output) ->
        dict_get (arguments a) key = None ->
        (exists e w2,
            collect_variables client FLAGS clock registry_accepts
              (before ++ a :: after) w = (Raise e, w2))
        /\ (verbose FLAGS = false ->
            (forall metric_name, registry_accepts metric_name = true) ->
            collect_variables client FLAGS clock registry_accepts
              (before ++ a :: after) w = (Raise KeyError, w1))).
Proof.
  split; [|split].
  - intros a key w output w1 Hcall Hkey.
    rewrite handle_read_run, Hcall. unfold subscript. now rewrite Hkey.
  - intros a variables key w Hkey. rewrite bind_key_run. now rewrite Hkey.
  - intros before a after w variables0 w0 output w1 key Hbefore Hs Hcall Hin Hkey.
    unfold collect_variables. rewrite for_each_app, Hbefore.
    simpl. unfold bind.
    rewrite (visit_action_candidate client FLAGS clock registry_accepts
               variables0 a w0 Hs), Hcall.
    destruct (bind_keys_undeclared client FLAGS clock registry_accepts a
                (dict_keys output) key variables0 w1 Hin Hkey)
      as [(e & w2 & He) Hprecise].
    split.
    + exists e, w2. now rewrite He.
    + intros Hv Hacc. now rewrite (Hprecise Hv Hacc).
Qed.

(** ** The claims at the sample device *)

(** C1 at the sample device. *)
Lemma collect_actions_read_only_witness :
  collect_actions Demo.client = Ok [Demo.addon_infos]
  /\ read_only_in Demo.client Demo.addon_infos.
Proof.
  split; [reflexivity|].
  apply (collect_actions_read_only Demo.client [Demo.addon_infos]);
    [reflexivity | left; reflexivity].
Defined.

(** C5 at the sample device. *)
Lemma skipped_never_candidate_witness :
  In (service_name Demo.persistent_data) (service_skiplist default_flags)
  /\ ~ In Demo.persistent_data
         (candidates default_flags [Demo.persistent_data; Demo.addon_infos])
  /\ collect_variables Demo.client default_flags (Demo.clock 1)
       Demo.accepts_all [Demo.persistent_data; Demo.addon_infos] initial_world
     = collect_variables Demo.client default_flags (Demo.clock 1)
         Demo.accepts_all [Demo.addon_infos] initial_world.
Proof.
  assert (H : In (service_name Demo.persistent_data)
                (service_skiplist default_flags)) by (left; reflexivity).
  split; [exact H|].
  destruct (skipped_never_candidate Demo.client default_flags (Demo.clock 1)
              Demo.accepts_all [Demo.persistent_data; Demo.addon_infos]
              initial_world Demo.persistent_data (or_introl H))
    as (H1 & H2 & _).
  split; [exact H1 | exact H2].
Defined.

(** C6 at the sample device. *)
Lemma failed_read_not_cached_witness :
  let read := handle_read Demo.flaky_client (Demo.clock 1) Demo.addon_infos in
  let w1 := snd (read "NewByteSendRate" initial_world) in
  fst (read "NewByteSendRate" initial_world) = Raise DeviceError
  /\ TTLCache.links (w_cache w1) = []
  /\ w_calls (snd (read "NewByteSendRate" w1))
     = [("WANCommonIFC1", "GetAddonInfos"); ("WANCommonIFC1", "GetAddonInfos")]
  /\ fst (call_action Demo.flaky_client (Demo.clock 1) Demo.addon_infos w1)
     = Ok Demo.addon_output.
Proof.
  cbv zeta.
  assert (Hmono : forall n, (Demo.clock 1 n <= Demo.clock 1 (S n))%Z)
    by (intros n; unfold Demo.clock; lia).
  destruct (failed_read_not_cached Demo.flaky_client (Demo.clock 1)
              Demo.addon_infos "NewByteSendRate" "NewByteSendRate"
              initial_world DeviceError Hmono eq_refl eq_refl)
    as (H1 & _ & _ & _ & _ & H2 & H3).
  split; [exact H1|]. split; [reflexivity|]. split; [exact H2 | exact H3].
Defined.

(** C7 at the sample device. *)
Lemma cache_ttl_and_capacity_witness :
  let w1 := snd (call_action Demo.client (Demo.clock 5) Demo.addon_infos
                   Demo.stale_world) in
  w_calls w1 = [("WANCommonIFC1", "GetAddonInfos")]
  /\ TTLCache.find ("WANCommonIFC1", "GetAddonInfos")
       (TTLCache.links (w_cache w1))
     = Some {| TTLCache.lk_key := ("WANCommonIFC1", "GetAddonInfos");
               TTLCache.lk_value := Demo.addon_output;
               TTLCache.expire := 20 |}.
Proof.
  cbv zeta.
  destruct (cache_ttl_and_capacity Demo.client (Demo.clock 5) Demo.addon_infos
              Demo.stale_world eq_refl eq_refl)
    as (_ & _ & Hexpired & _).
  destruct (Hexpired _ eq_refl eq_refl) as (_ & Hcalls & Hstore).
  split; [exact Hcalls | exact (Hstore _ eq_refl)].
Defined.

(** C10 at the sample device. *)
Lemma lookup_errors_uncaught_witness :
  fst (collect_variables Demo.chatty_client default_flags (Demo.clock 1)
         Demo.accepts_all [Demo.addon_infos] initial_world)
  = Raise KeyError.
Proof.
  destruct (lookup_errors_uncaught Demo.chatty_client default_flags
              (Demo.clock 1) Demo.accepts_all) as (_ & _ & H).
  destruct (H [] Demo.addon_infos [] initial_world [] initial_world
              _ _ "NewUptime" eq_refl eq_refl eq_refl
              (or_intror (or_introl eq_refl)) eq_refl) as [_ Hk].
  exact (f_equal fst (Hk eq_refl (fun _ => eq_refl))).
Defined.

(** The skip lists match whole strings, capitals included. *)
Example skip_is_case_sensitive :
  skipped default_flags Demo.persistent_data = true
  /\ skipped default_flags
       {| service_name := "deviceconfig1";
          action_name := "GetPersistentData";
          arguments := [] |} = false
  /\ skipped default_flags
       {| service_name := "DeviceConfig";
          action_name := "GetPersistentData";
          arguments := [] |} = false.
Proof. repeat split; reflexivity. Qed.

(** The end-to-end example: discovery finds "GetTotal", registration makes
    one gauge, named after "BytesSent" and labelled (X, GetTotal), and a
    scrape of its one child reads 42 from the cached answer. *)
Example end_to_end :
  collect_actions Demo.x_client = Ok [Demo.get_total]
  /\ exists w1,
       collect_variables Demo.x_client default_flags (Demo.clock 1)
         Demo.accepts_all [Demo.get_total] initial_world
       = (Ok [("fritzbox_bytes_sent",
               [(("X", "GetTotal"),
                 {| acc_action := Demo.get_total; acc_key := "BytesSent" |})])],
          w1)
       /\ w_calls w1 = [("X", "GetTotal")]
       /\ fst (invoke Demo.x_client (Demo.clock 1)
                 {| acc_action := Demo.get_total; acc_key := "BytesSent" |} w1)
          = Ok (VInt 42)
       /\ w_calls (snd (invoke Demo.x_client (Demo.clock 1)
                 {| acc_action := Demo.get_total; acc_key := "BytesSent" |} w1))
          = [("X", "GetTotal")].
Proof.
  split; [reflexivity|]. eexists. split; [reflexivity|].
  repeat split; reflexivity.
Qed.

(** Registration on a device whose calls fail ends in the device's
    exception, after one call. *)
Example registration_fails_with_the_device :
  collect_variables Demo.dead_client default_flags (Demo.clock 1)
    Demo.accepts_all [Demo.addon_infos] initial_world
  = (Raise DeviceError,
     {| w_cache := cache; w_ticks := 0;
        w_calls := [("WANCommonIFC1", "GetAddonInfos")] |}).
Proof. reflexivity. Qed.

(** With the verbose flag on, binding a metric calls its accessor at once:
    the cache is looked up once more for each of the two outputs. *)
Example verbose_registration_reads_at_once :
  w_ticks (snd (collect_variables Demo.client default_flags (Demo.clock 1)
                  Demo.accepts_all [Demo.addon_infos] initial_world)) = 1
  /\ w_ticks (snd (collect_variables Demo.client Demo.verbose_flags
                     (Demo.clock 1) Demo.accepts_all [Demo.addon_infos]
                     initial_world)) = 3.
Proof. split; reflexivity. Qed.

(** Eviction at the sample device: a read of a new operation in a full
    cache stores its answer last and drops the least recently used link,
    the one under (S, x); the cache holds 200 links again. *)
Example eviction_drops_least_recently_used :
  let w1 := snd (call_action Demo.client (Demo.clock 1) Demo.addon_infos
                   Demo.full_world) in
  List.length (TTLCache.links (w_cache Demo.full_world)) = 200
  /\ List.length (TTLCache.links (w_cache w1)) = 200
  /\ TTLCache.find ("S", "x") (TTLCache.links (w_cache Demo.full_world)) <> None
  /\ TTLCache.find ("S", "x") (TTLCache.links (w_cache w1)) = None
  /\ TTLCache.find ("S", "xx") (TTLCache.links (w_cache w1)) <> None
  /\ TTLCache.links (w_cache w1)
     = tl (TTLCache.links (w_cache Demo.full_world))
       ++ [{| TTLCache.lk_key := ("WANCommonIFC1", "GetAddonInfos");
              TTLCache.lk_value := Demo.addon_output;
              TTLCache.expire := 10 |}].
Proof.
  cbv zeta. repeat split; try (vm_compute; reflexivity);
    vm_compute; discriminate.
Qed.

(** * Further properties *)

(** ** Discovery finds every eligible action *)

Lemma scan_actions_keys sn service items acc out :
  scan_actions sn service items acc = Ok out ->
  map hashkey out
  = map hashkey acc ++ map (fun item => (sn, fst item)) (filter eligible items).
Proof.
  revert acc. induction items as [|[an action] items IH]; intros acc H;
    simpl in H |- *.
  - injection H as <-. now rewrite app_nil_r.
  - unfold eligible at 1. simpl.
    destruct (Str.startswith an "Get"); simpl in H |- *; [|now apply IH].
    destruct (just_out_parameters action); simpl in H |- *; [|now apply IH].
    destruct (resolve_arguments _ _ _) as [args|]; [|discriminate H].
    rewrite (IH _ H), map_app, <- app_assoc. reflexivity.
Qed.

Lemma scan_services_keys items acc out :
  scan_services items acc = Ok out ->
  map hashkey out
  = map hashkey acc
    ++ flat_map (fun s => map (fun item => (fst s, fst item))
                              (filter eligible (Fritz.actions (snd s)))) items.
Proof.
  revert acc. induction items as [|[sn service] items IH]; intros acc H;
    simpl in H |- *.
  - injection H as <-. now rewrite app_nil_r.
  - destruct (scan_actions sn service _ acc) as [acc'|] eqn:Hs; [|discriminate H].
    rewrite (IH _ H), (scan_actions_keys _ _ _ _ _ Hs), <- app_assoc.
    reflexivity.
Qed.

(** X1: when discovery returns, the operations it returns are the
    schema's eligible actions (name starting with "Get", every argument
    of direction "out"), each once, in the order of the schema. *)
Theorem collect_actions_complete (client : Fritz.FritzConnection)
    (actions : list Action) :
  collect_actions client = Ok actions ->
  map hashkey actions = eligible_keys client.
Proof.
  intros H. apply scan_services_keys in H. exact H.
Qed.

(** X1 at the sample device. *)
Lemma collect_actions_complete_witness :
  map hashkey [Demo.addon_infos] = eligible_keys Demo.client.
Proof.
  exact (collect_actions_complete Demo.client [Demo.addon_infos] eq_refl).
Defined.

(** ** When discovery fails *)

Lemma resolve_arguments_ok_iff svs items acc :
  (exists out, resolve_arguments svs items acc = Ok out)
  <-> (forall n arg, In (n, arg) items ->
                     dict_get svs (Fritz.relatedStateVariable arg) <> None).
Proof.
  split; [|apply resolve_arguments_total].
  revert acc. induction items as [|[n arg] items IH]; intros acc [out H] n' arg' Hin;
    [destruct Hin|]. simpl in H.
  destruct (dict_get svs (Fritz.relatedStateVariable arg)) eqn:E;
    [|discriminate H].
  destruct Hin as [Heq | Hin].
  - injection Heq as <- <-. congruence.
  - apply (IH _ (ex_intro _ out H) n' arg' Hin).
Qed.

Lemma resolve_arguments_raises svs items acc e :
  resolve_arguments svs items acc = Raise e -> e = KeyError.
Proof.
  revert acc. induction items as [|[n arg] items IH]; intros acc H; simpl in H;
    [discriminate H|].
  destruct (dict_get svs (Fritz.relatedStateVariable arg));
    [eauto | now injection H].
Qed.

Lemma scan_actions_ok_iff sn service items acc :
  (exists out, scan_actions sn service items acc = Ok out)
  <-> (forall item n arg,
          In item items -> eligible item = true ->
          In (n, arg) (Fritz.arguments (snd item)) ->
          dict_get (Fritz.state_variables service)
            (Fritz.relatedStateVariable arg) <> None).
Proof.
  revert acc. induction items as [|[an action] items IH]; intros acc.
  - simpl. split; [intros _ item n arg [] | intros _; now exists acc].
  - simpl. unfold eligible at 1.
    assert (Hskip : forall acc',
        (exists out, scan_actions sn service items acc' = Ok out)
        <-> (forall item n arg,
               In item items -> eligible item = true ->
               In (n, arg) (Fritz.arguments (snd item)) ->
               dict_get (Fritz.state_variables service)
                 (Fritz.relatedStateVariable arg) <> None))
      by (intros acc'; apply IH).
    destruct (Str.startswith an "Get") eqn:Hget; simpl.
    2:{ rewrite Hskip. split.
        - intros H item n arg [<- | Hin] He; [|now apply H].
          unfold eligible in He. simpl in He. now rewrite Hget in He.
        - intros H item n arg Hin. apply H. now right. }
    destruct (just_out_parameters action) eqn:Hout; simpl.
    2:{ rewrite Hskip. split.
        - intros H item n arg [<- | Hin] He; [|now apply H].
          unfold eligible in He. simpl in He. now rewrite Hget, Hout in He.
        - intros H item n arg Hin. apply H. now right. }
    destruct (resolve_arguments (Fritz.state_variables service)
                (Fritz.arguments action) []) as [args|e] eqn:Hres.
    + rewrite Hskip. split.
      * intros H item n arg [<- | Hin] He; [|now apply H].
        simpl. apply (proj1 (resolve_arguments_ok_iff _ _ [])). now exists args.
      * intros H item n arg Hin. apply H. now right.
    + split; [intros [out H]; discriminate H|].
      intros H. exfalso.
      destruct (proj2 (resolve_arguments_ok_iff (Fritz.state_variables service)
                         (Fritz.arguments action) [])) as [out Hok].
      * intros n arg. apply (H (an, action)); [now left|].
        unfold eligible. simpl. now rewrite Hget, Hout.
      * congruence.
Qed.

Lemma scan_actions_raises sn service items acc e :
  scan_actions sn service items acc = Raise e -> e = KeyError.
Proof.
  revert acc. induction items as [|[an action] items IH]; intros acc H;
    simpl in H; [discriminate H|].
  destruct (Str.startswith an "Get"); simpl in H; [|eauto].
  destruct (just_out_parameters action); simpl in H; [|eauto].
  destruct (resolve_arguments _ _ _) as [args|e'] eqn:Hres; [eauto|].
  injection H as <-. eapply resolve_arguments_raises; eauto.
Qed.

Lemma scan_services_ok_iff items acc :
  (exists out, scan_services items acc = Ok out)
  <-> (forall s item n arg,
          In s items -> In item (Fritz.actions (snd s)) ->
          eligible item = true ->
          In (n, arg) (Fritz.arguments (snd item)) ->
          dict_get (Fritz.state_variables (snd s))
            (Fritz.relatedStateVariable arg) <> None).
Proof.
  revert acc. induction items as [|[sn service] items IH]; intros acc.
  - simpl. split; [intros _ s item n arg [] | intros _; now exists acc].
  - simpl.
    destruct (scan_actions sn service (Fritz.actions service) acc)
      as [acc'|e] eqn:Hs.
    + rewrite IH. split.
      * intros H s item n arg [<- | Hin]; [|now apply H]. simpl.
        apply (proj1 (scan_actions_ok_iff sn service _ acc)). now exists acc'.
      * intros H s item n arg Hin. apply H. now right.
    + split; [intros [out H]; discriminate H|].
      intros H. exfalso.
      destruct (proj2 (scan_actions_ok_iff sn service
                         (Fritz.actions service) acc)) as [out Hok].
      * intros item n arg. apply (H (sn, service)). now left.
      * congruence.
Qed.

Lemma scan_services_raises items acc e :
  scan_services items acc = Raise e -> e = KeyError.
Proof.
  revert acc. induction items as [|[sn service] items IH]; intros acc H;
    simpl in H; [discriminate H|].
  destruct (scan_actions sn service _ acc) as [acc'|e'] eqn:Hs; [eauto|].
  injection H as <-. eapply scan_actions_raises; eauto.
Qed.

(** X2: discovery returns exactly when every argument of every eligible
    action relates to a state variable its service declares; otherwise it
    raises [KeyError].  What the actions it passes over relate to does
    not matter. *)
Theorem collect_actions_fails_iff (client : Fritz.FritzConnection) :
  ((exists actions, collect_actions client = Ok actions)
   <-> (forall s item n arg,
          In s (Fritz.services client) -> In item (Fritz.actions (snd s)) ->
          eligible item = true ->
          In (n, arg) (Fritz.arguments (snd item)) ->
          dict_get (Fritz.state_variables (snd s))
            (Fritz.relatedStateVariable arg) <> None))
  /\ (forall e, collect_actions client = Raise e -> e = KeyError).
Proof.
  split; [apply scan_services_ok_iff | intros e; apply scan_services_raises].
Qed.

(** ** What a discovered operation holds *)

Lemma dict_get_none_keys {V : Type} (d : dict V) (k : string) :
  dict_get d k = None <-> ~ In k (dict_keys d).
Proof.
  induction d as [|[k' v] d IH]; simpl; [tauto|].
  destruct (String.eqb_spec k' k) as [->|Hne].
  - split; [discriminate | intros H; exfalso; apply H; now left].
  - rewrite IH. split; [intros H [E|Hin]; [congruence | tauto] | tauto].
Qed.

Lemma dict_get_set_other {V : Type} (d : dict V) (k k' : string) (v : V) :
  k <> k' -> dict_get (dict_set d k v) k' = dict_get d k'.
Proof.
  intros Hne. induction d as [|[k0 v0] d IH]; simpl.
  - destruct (String.eqb_spec k k'); [congruence | reflexivity].
  - destruct (String.eqb_spec k0 k) as [->|Hk]; simpl.
    + destruct (String.eqb_spec k k'); [congruence | reflexivity].
    + now rewrite IH.
Qed.

Lemma dict_keys_set_new {V : Type} (d : dict V) (k : string) (v : V) :
  ~ In k (dict_keys d) -> dict_keys (dict_set d k v) = dict_keys d ++ [k].
Proof.
  induction d as [|[k0 v0] d IH]; simpl; [reflexivity|].
  intros H. destruct (String.eqb_spec k0 k) as [->|Hk].
  - exfalso. apply H. now left.
  - simpl. rewrite IH; [reflexivity | tauto].
Qed.

Lemma dict_keys_set_old {V : Type} (d : dict V) (k : string) (v : V) :
  In k (dict_keys d) -> dict_keys (dict_set d k v) = dict_keys d.
Proof.
  induction d as [|[k0 v0] d IH]; simpl; [intros []|].
  destruct (String.eqb_spec k0 k) as [->|Hk]; simpl; [reflexivity|].
  intros [E|Hin]; [congruence | now rewrite IH].
Qed.

(** Resolving arguments with distinct names gives a dictionary with those
    names, in that order, each bound to the state variable its argument
    relates to. *)
Lemma resolve_arguments_binds svs items acc out :
  resolve_arguments svs items acc = Ok out ->
  NoDup (dict_keys acc ++ dict_keys items) ->
  dict_keys out = dict_keys acc ++ dict_keys items
  /\ (forall n, In n (dict_keys acc) -> dict_get out n = dict_get acc n)
  /\ (forall n arg, In (n, arg) items ->
        dict_get out n = dict_get svs (Fritz.relatedStateVariable arg)).
Proof.
  revert acc. induction items as [|[n arg] items IH]; intros acc H Hnd;
    simpl in H.
  - injection H as <-. simpl. rewrite app_nil_r.
    repeat split; auto. intros n arg [].
  - destruct (dict_get svs (Fritz.relatedStateVariable arg)) as [sv|] eqn:Hsv;
      [|discriminate H].
    simpl in Hnd.
    assert (Hn : ~ In n (dict_keys acc)).
    { intros Hin. apply NoDup_remove_2 in Hnd. apply Hnd.
      apply in_or_app. now left. }
    assert (Hkeys : dict_keys (dict_set acc n sv) = dict_keys acc ++ [n])
      by now apply dict_keys_set_new.
    destruct (IH (dict_set acc n sv) H) as (Hk & Hacc & Hitems).
    { rewrite Hkeys, <- app_assoc. exact Hnd. }
    rewrite Hkeys, <- app_assoc in Hk. simpl in Hk.
    split; [exact Hk|]. split.
    + intros n0 Hin. rewrite Hacc by (rewrite Hkeys; apply in_or_app; now left).
      apply dict_get_set_other. congruence.
    + intros n0 arg0 [E | Hin]; [|now apply Hitems].
      injection E as <- <-.
      rewrite Hacc by (rewrite Hkeys; apply in_or_app; right; now left).
      now rewrite dict_get_set.
Qed.

Lemma scan_actions_resolved client sn service :
  In (sn, service) (Fritz.services client) ->
  forall items acc out,
    incl items (Fritz.actions service) ->
    Forall (resolved_in client) acc ->
    scan_actions sn service items acc = Ok out ->
    Forall (resolved_in client) out.
Proof.
  intros Hsvc. induction items as [|[an action] items IH]; simpl;
    intros acc out Hincl Hacc H.
  - now injection H as <-.
  - assert (Hrest : incl items (Fritz.actions service))
      by (intros x Hx; apply Hincl; now right).
    destruct (Str.startswith an "Get") eqn:Hget; simpl in H; [|eauto].
    destruct (just_out_parameters action) eqn:Hout; simpl in H; [|eauto].
    destruct (resolve_arguments _ _ _) as [args|] eqn:Hres; [|discriminate].
    apply (IH _ _ Hrest) in H; [exact H|].
    apply Forall_app. split; [exact Hacc|]. constructor; [|constructor].
    exists service, action. simpl. repeat split; auto.
    + apply Hincl. now left.
    + unfold eligible. simpl. now rewrite Hget, Hout.
Qed.

Lemma scan_services_resolved client :
  forall items acc out,
    incl items (Fritz.services client) ->
    Forall (resolved_in client) acc ->
    scan_services items acc = Ok out ->
    Forall (resolved_in client) out.
Proof.
  induction items as [|[sn service] items IH]; simpl; intros acc out Hincl Hacc H.
  - now injection H as <-.
  - destruct (scan_actions sn service _ acc) as [acc'|] eqn:Hscan; [|discriminate].
    apply (IH acc'); [intros x Hx; apply Hincl; now right | | exact H].
    eapply scan_actions_resolved; eauto.
    + apply Hincl. now left.
    + apply incl_refl.
Qed.

(** X3: an operation that discovery returns comes from an eligible
    action of the schema, and when that action's argument names are
    distinct, as the keys of a dictionary are, the operation's arguments
    have those names in that order and each name is bound to the state
    variable the schema argument relates to. *)
Theorem collect_actions_arguments (client : Fritz.FritzConnection)
    (actions : list Action) (a : Action) :
  collect_actions client = Ok actions ->
  In a actions ->
  exists service action,
    In (service_name a, service) (Fritz.services client)
    /\ In (action_name a, action) (Fritz.actions service)
    /\ eligible (action_name a, action) = true
    /\ (NoDup (dict_keys (Fritz.arguments action)) ->
        dict_keys (arguments a) = dict_keys (Fritz.arguments action)
        /\ forall n arg,
             In (n, arg) (Fritz.arguments action) ->
             exists sv,
               dict_get (Fritz.state_variables service)
                 (Fritz.relatedStateVariable arg) = Some sv
               /\ dict_get (arguments a) n = Some sv).
Proof.
  intros H Hin.
  assert (Hall : Forall (resolved_in client) actions)
    by (eapply scan_services_resolved; eauto using incl_refl).
  rewrite Forall_forall in Hall.
  destruct (Hall a Hin) as (service & action & Hs & Ha & He & Hres).
  exists service, action. repeat split; try assumption.
  - destruct (resolve_arguments_binds _ _ _ _ Hres) as (Hk & _); assumption.
  - intros n arg Harg.
    destruct (resolve_arguments_binds _ _ _ _ Hres) as (_ & _ & Hitems);
      [assumption|].
    pose proof (proj1 (resolve_arguments_ok_iff
                         (Fritz.state_variables service)
                         (Fritz.arguments action) [])
                  (ex_intro _ _ Hres) n arg Harg) as Hdecl.
    destruct (dict_get (Fritz.state_variables service)
                (Fritz.relatedStateVariable arg)) as [sv|] eqn:E;
      [|congruence].
    exists sv. split; [reflexivity|]. rewrite (Hitems n arg Harg). exact E.
Qed.

(** X3 at the sample device. *)
Lemma collect_actions_arguments_witness :
  exists service action,
    In ("WANCommonIFC1", service) (Fritz.services Demo.client)
    /\ In ("GetAddonInfos", action) (Fritz.actions service)
    /\ eligible ("GetAddonInfos", action) = true
    /\ (NoDup (dict_keys (Fritz.arguments action)) ->
        dict_keys (arguments Demo.addon_infos)
        = dict_keys (Fritz.arguments action)
        /\ forall n arg,
             In (n, arg) (Fritz.arguments action) ->
             exists sv,
               dict_get (Fritz.state_variables service)
                 (Fritz.relatedStateVariable arg) = Some sv
               /\ dict_get (arguments Demo.addon_infos) n = Some sv).
Proof.
  exact (collect_actions_arguments Demo.client [Demo.addon_infos]
           Demo.addon_infos eq_refl (or_introl eq_refl)).
Defined.

(** ** Which names share a metric name *)

Open Scope string_scope.

(** Turning hyphens into underscores changes no character's class. *)
Lemma hyphen_class (c : ascii) :
  let c' := if Ascii.eqb c "-" then "_"%char else c in
  Str.is_upper c' = Str.is_upper c
  /\ Str.is_lower c' = Str.is_lower c
  /\ Str.is_digit c' = Str.is_digit c.
Proof.
  cbv zeta. destruct (Ascii.eqb_spec c "-") as [->|_]; repeat split.
Qed.

Lemma sub_acronym_hyphen (s : string) :
  Inflection.sub_acronym (Str.replace "-" "_" s)
  = Str.replace "-" "_" (Inflection.sub_acronym s).
Proof.
  induction s as [|c1 t IH]; [reflexivity|].
  destruct t as [|c2 [|c3 u]]; [reflexivity | reflexivity |].
  change (Inflection.sub_acronym (String c1 (String c2 (String c3 u))))
    with (if Str.is_upper c1 && Str.is_upper c2 && Str.is_lower c3
          then String c1 (String "_" (Inflection.sub_acronym
                                        (String c2 (String c3 u))))
          else String c1 (Inflection.sub_acronym (String c2 (String c3 u)))).
  set (f := fun c : ascii => if Ascii.eqb c "-" then "_"%char else c).
  change (Str.replace "-" "_" (String c1 (String c2 (String c3 u))))
    with (String (f c1) (String (f c2) (String (f c3) (Str.replace "-" "_" u)))).
  change (Inflection.sub_acronym
            (String (f c1) (String (f c2) (String (f c3) (Str.replace "-" "_" u)))))
    with (if Str.is_upper (f c1) && Str.is_upper (f c2) && Str.is_lower (f c3)
          then String (f c1)
                 (String "_" (Inflection.sub_acronym
                                (Str.replace "-" "_" (String c2 (String c3 u)))))
          else String (f c1)
                 (Inflection.sub_acronym
                    (Str.replace "-" "_" (String c2 (String c3 u))))).
  rewrite IH.
  destruct (hyphen_class c1) as (E1 & _ & _).
  destruct (hyphen_class c2) as (E2 & _ & _).
  destruct (hyphen_class c3) as (_ & E3 & _).
  cbv zeta in E1, E2, E3.
  change (Str.is_upper (f c1) = Str.is_upper c1) in E1.
  change (Str.is_upper (f c2) = Str.is_upper c2) in E2.
  change (Str.is_lower (f c3) = Str.is_lower c3) in E3.
  rewrite E1, E2, E3.
  now destruct (Str.is_upper c1 && Str.is_upper c2 && Str.is_lower c3).
Qed.

Lemma sub_camel_hyphen (s : string) :
  Inflection.sub_camel (Str.replace "-" "_" s)
  = Str.replace "-" "_" (Inflection.sub_camel s).
Proof.
  induction s as [|c1 t IH]; [reflexivity|].
  destruct t as [|c2 u]; [reflexivity|].
  change (Inflection.sub_camel (String c1 (String c2 u)))
    with (if (Str.is_lower c1 || Str.is_digit c1) && Str.is_upper c2
          then String c1 (String "_" (Inflection.sub_camel (String c2 u)))
          else String c1 (Inflection.sub_camel (String c2 u))).
  set (f := fun c : ascii => if Ascii.eqb c "-" then "_"%char else c).
  change (Str.replace "-" "_" (String c1 (String c2 u)))
    with (String (f c1) (String (f c2) (Str.replace "-" "_" u))).
  change (Inflection.sub_camel
            (String (f c1) (String (f c2) (Str.replace "-" "_" u))))
    with (if (Str.is_lower (f c1) || Str.is_digit (f c1)) && Str.is_upper (f c2)
          then String (f c1)
                 (String "_" (Inflection.sub_camel
                                (Str.replace "-" "_" (String c2 u))))
          else String (f c1)
                 (Inflection.sub_camel (Str.replace "-" "_" (String c2 u)))).
  rewrite IH.
  destruct (hyphen_class c1) as (_ & E1 & D1).
  destruct (hyphen_class c2) as (E2 & _ & _).
  cbv zeta in E1, D1, E2.
  change (Str.is_lower (f c1) = Str.is_lower c1) in E1.
  change (Str.is_digit (f c1) = Str.is_digit c1) in D1.
  change (Str.is_upper (f c2) = Str.is_upper c2) in E2.
  rewrite E1, D1, E2.
  now destruct ((Str.is_lower c1 || Str.is_digit c1) && Str.is_upper c2).
Qed.

(** The snake-case form sees a hyphen as it sees an underscore. *)
Lemma underscore_hyphen (w : string) :
  Inflection.underscore w = Inflection.underscore (Str.replace "-" "_" w).
Proof.
  unfold Inflection.underscore.
  rewrite sub_acronym_hyphen, sub_camel_hyphen.
  rewrite (replace_absent "-" "_" (Str.replace "-" "_" _)); [reflexivity|].
  apply replace_removes. discriminate.
Qed.

(** X4: two variable names that differ only in which of ".", "-" and "_"
    stands at a place get the same metric name, whatever their services
    and actions. *)
Theorem metricify_conflates (svc act svc' act' v v' : string) :
  Str.replace "-" "_" (Str.replace "." "_" v)
  = Str.replace "-" "_" (Str.replace "." "_" v') ->
  metricify svc act v = metricify svc' act' v'.
Proof.
  intros H. unfold metricify. cbv zeta.
  rewrite (underscore_hyphen (Str.replace "." "_" v)).
  rewrite (underscore_hyphen (Str.replace "." "_" v')).
  now rewrite H.
Qed.

(** X4 at two names of the sample kind. *)
Lemma metricify_conflates_witness :
  metricify "WANCommonIFC1" "GetAddonInfos" "X_AVM-DE.TotalBytesSent"
  = metricify "WANCommonIFC2" "GetInfo" "X.AVM_DE-TotalBytesSent".
Proof.
  exact (metricify_conflates "WANCommonIFC1" "GetAddonInfos"
           "WANCommonIFC2" "GetInfo"
           "X_AVM-DE.TotalBytesSent" "X.AVM_DE-TotalBytesSent" eq_refl).
Defined.

(** ** The alphabet of a metric name *)

Lemma lower_char_name (c : ascii) :
  name_char c = true -> name_char (Str.lower_char c) = true.
Proof.
  destruct c as [[] [] [] [] [] [] [] []]; intros H;
    solve [reflexivity | discriminate H].
Qed.

Lemma lower_name (s : string) :
  Str.all_chars name_char s = true ->
  Str.all_chars name_char (Str.lower s) = true.
Proof.
  induction s as [|c s IH]; simpl; [reflexivity|].
  rewrite !andb_true_iff. intros [Hc Hs]. split; [|auto].
  now apply lower_char_name.
Qed.

Lemma name_snake_metric (c : ascii) :
  name_char c && snake_char c = true -> metric_char c = true.
Proof.
  unfold name_char, snake_char, metric_char.
  destruct (Str.is_upper c), (Str.is_lower c), (Str.is_digit c),
    (Ascii.eqb c "."), (Ascii.eqb c "-"), (Ascii.eqb c "_");
    simpl; intros H; solve [reflexivity | discriminate H].
Qed.

(** X5: the metric name of a variable whose name holds only ASCII
    letters, digits, dots, hyphens and underscores holds only small
    letters, digits and underscores. *)
Theorem metricify_alphabet (svc act v : string) :
  Str.all_chars name_char v = true ->
  Str.all_chars metric_char (metricify svc act v) = true.
Proof.
  intros Hv.
  apply (all_chars_impl (fun c => name_char c && snake_char c)).
  { apply name_snake_metric. }
  rewrite all_chars_and, metricify_snake, andb_true_r.
  unfold metricify. cbv zeta. rewrite all_chars_app.
  apply andb_true_iff. split; [reflexivity|].
  unfold Inflection.underscore. apply lower_name.
  apply replace_keeps; [reflexivity|].
  rewrite sub_camel_keeps, sub_acronym_keeps by reflexivity.
  apply replace_keeps; [reflexivity | exact Hv].
Qed.

(** X5 at a name of the sample kind. *)
Lemma metricify_alphabet_witness :
  Str.all_chars name_char "X_AVM-DE_TotalBytesSent64.v2" = true
  /\ Str.all_chars metric_char
       (metricify "WANCommonIFC1" "GetAddonInfos" "X_AVM-DE_TotalBytesSent64.v2")
     = true.
Proof.
  split; [reflexivity|].
  exact (metricify_alphabet "WANCommonIFC1" "GetAddonInfos"
           "X_AVM-DE_TotalBytesSent64.v2" eq_refl).
Defined.

Open Scope list_scope.

(** ** Splitting the listen address *)

Open Scope string_scope.

Lemma rsplit_none (sep : ascii) (s : string) :
  rsplit sep s = None
  <-> Str.all_chars (fun c => negb (Ascii.eqb c sep)) s = true.
Proof.
  induction s as [|c t IH]; simpl; [tauto|].
  destruct (rsplit sep t) as [[before after]|].
  - split; [discriminate|]. rewrite andb_true_iff. intros [_ H].
    apply IH in H. discriminate H.
  - destruct (Ascii.eqb c sep); simpl; [split; discriminate|].
    split; [intros _; now apply IH | reflexivity].
Qed.

Lemma rsplit_some (sep : ascii) (s before after : string) :
  rsplit sep s = Some (before, after) ->
  s = before ++ String sep after
  /\ Str.all_chars (fun c => negb (Ascii.eqb c sep)) after = true.
Proof.
  revert before. induction s as [|c t IH]; intros before H; simpl in H;
    [discriminate H|].
  destruct (rsplit sep t) as [[b a]|] eqn:E.
  - injection H as <- <-. destruct (IH b eq_refl) as [-> Ha]. now split.
  - destruct (Ascii.eqb_spec c sep) as [->|_]; [|discriminate H].
    injection H as <- <-. split; [reflexivity | now apply rsplit_none].
Qed.

Lemma rsplit_join (sep : ascii) (before after : string) :
  Str.all_chars (fun c => negb (Ascii.eqb c sep)) after = true ->
  rsplit sep (before ++ String sep after) = Some (before, after).
Proof.
  intros Ha. induction before as [|c b IH]; simpl.
  - apply rsplit_none in Ha. now rewrite Ha, Ascii.eqb_refl.
  - now rewrite IH.
Qed.

(** X6: splitting at the last separator and joining are inverse to each
    other: the two parts of a split give the text back with one
    separator between them and the second part holds no separator, a
    text joined from two such parts splits into them, and the split has
    one part only exactly when the text holds no separator. *)
Theorem rsplit_round_trip (sep : ascii) (s : string) :
  (forall before after,
      rsplit sep s = Some (before, after) <->
      s = before ++ String sep after
      /\ Str.all_chars (fun c => negb (Ascii.eqb c sep)) after = true)
  /\ (rsplit sep s = None
      <-> Str.all_chars (fun c => negb (Ascii.eqb c sep)) s = true).
Proof.
  split; [|apply rsplit_none].
  intros before after. split; [apply rsplit_some|].
  intros [-> Ha]. now apply rsplit_join.
Qed.

(** The default listen address and an IPv6 one. *)
Example rsplit_listen :
  rsplit ":" ":9413" = Some ("", "9413")
  /\ rsplit ":" "[::1]:9413" = Some ("[::1]", "9413")
  /\ rsplit ":" "9413" = None.
Proof. repeat split; reflexivity. Qed.

Open Scope list_scope.

(** ** The cache stays in good order *)

(** A property of the world that every iteration keeps, whatever its
    outcome, holds when the loop ends, whatever its outcome. *)
Lemma for_each_world {St X : Type} (body : St -> X -> M St)
    (P : World -> Prop) (xs : list X) :
  (forall s x w, P w -> P (snd (body s x w))) ->
  forall s w, P w -> P (snd (for_each body xs s w)).
Proof.
  intros Hbody. induction xs as [|x xs IH]; intros s w Hw; simpl; [exact Hw|].
  unfold bind. specialize (Hbody s x w Hw).
  destruct (body s x w) as [[s'|e] w']; simpl in Hbody; [now apply IH | exact Hbody].
Qed.

Lemma remove_keys k ls :
  map TTLCache.lk_key (TTLCache.remove k ls)
  = filter (fun k' => negb (TTLCache.key_eqb k' k)) (map TTLCache.lk_key ls).
Proof.
  induction ls as [|l ls IH]; simpl; [reflexivity|].
  destruct (TTLCache.key_eqb (TTLCache.lk_key l) k); simpl; now rewrite IH.
Qed.

Lemma remove_nodup k ls :
  NoDup (map TTLCache.lk_key ls) ->
  NoDup (map TTLCache.lk_key (TTLCache.remove k ls ++ [{| TTLCache.lk_key := k;
           TTLCache.lk_value := []; TTLCache.expire := 0 |}])).
Proof.
  intros H. rewrite map_app, remove_keys. simpl.
  apply NoDup_app.
  - now apply NoDup_filter.
  - constructor; [intros [] | constructor].
  - intros k' Hin [<- | []]. apply filter_In in Hin as [_ Hn].
    now rewrite key_eqb_refl in Hn.
Qed.

Lemma remove_length k ls : List.length (TTLCache.remove k ls) <= List.length ls.
Proof. apply filter_length_le. Qed.

Lemma remove_length_found k ls l :
  TTLCache.find k ls = Some l ->
  List.length (TTLCache.remove k ls) < List.length ls.
Proof.
  induction ls as [|x ls IH]; simpl; [discriminate|].
  destruct (TTLCache.key_eqb (TTLCache.lk_key x) k); simpl.
  - intros _. pose proof (remove_length k ls). unfold TTLCache.remove in *. lia.
  - intros H. apply IH in H. unfold TTLCache.remove in *. lia.
Qed.

Lemma expire_links_nodup time ls :
  NoDup (map TTLCache.lk_key ls) ->
  NoDup (map TTLCache.lk_key (TTLCache.expire_links time ls)).
Proof.
  induction ls as [|l ls IH]; simpl; [auto|]. intros H.
  inversion H as [|? ? Hn Hrest]; subst.
  destruct (TTLCache.expired time l); simpl; [auto|].
  constructor; [|auto]. intros Hin. apply Hn.
  apply in_map_iff in Hin as (x & Hx & Hin). apply in_map_iff.
  exists x. split; [exact Hx|]. now apply filter_In in Hin as [Hin _].
Qed.

Lemma evict_nodup n ls :
  NoDup (map TTLCache.lk_key ls) ->
  NoDup (map TTLCache.lk_key (TTLCache.evict n ls)).
Proof.
  induction ls as [|l ls IH]; simpl; [auto|]. intros H.
  destruct (Nat.ltb n (S (List.length ls + 1))); [|exact H].
  apply IH. now inversion H.
Qed.

Lemma evict_length n ls :
  1 <= n -> List.length (TTLCache.evict n ls) + 1 <= n.
Proof.
  intros Hn. induction ls as [|l ls IH]; simpl; [lia|].
  destruct (Nat.ltb_spec n (S (List.length ls + 1))); [exact IH | simpl; lia].
Qed.

Lemma evict_find k n ls :
  NoDup (map TTLCache.lk_key ls) ->
  TTLCache.find k ls = None -> TTLCache.find k (TTLCache.evict n ls) = None.
Proof.
  induction ls as [|l ls IH]; simpl; [auto|]. intros Hnd H.
  destruct (TTLCache.key_eqb (TTLCache.lk_key l) k) eqn:E; [discriminate H|].
  destruct (Nat.ltb n (S (List.length ls + 1))).
  - apply IH; [now inversion Hnd | exact H].
  - simpl. now rewrite E.
Qed.

Lemma same_keys_nodup (ls ls' : list TTLCache.Link) :
  map TTLCache.lk_key ls = map TTLCache.lk_key ls' ->
  NoDup (map TTLCache.lk_key ls) -> NoDup (map TTLCache.lk_key ls').
Proof. now intros <-. Qed.

Lemma move_to_end_ok k ls :
  NoDup (map TTLCache.lk_key ls) ->
  NoDup (map TTLCache.lk_key (TTLCache.move_to_end k ls))
  /\ List.length (TTLCache.move_to_end k ls) <= List.length ls.
Proof.
  intros H. unfold TTLCache.move_to_end.
  destruct (TTLCache.find k ls) as [l|] eqn:Hf; [|now split].
  pose proof (find_key _ _ _ Hf) as Hk.
  pose proof (remove_length_found _ _ _ Hf) as Hlen. split.
  - apply (same_keys_nodup
             (TTLCache.remove k ls ++ [{| TTLCache.lk_key := k;
                TTLCache.lk_value := []; TTLCache.expire := 0 |}])).
    + rewrite !map_app. simpl. now rewrite Hk.
    + now apply remove_nodup.
  - rewrite length_app. simpl. lia.
Qed.

Lemma getitem_ok c k time :
  cache_ok c -> cache_ok (snd (TTLCache.getitem c k time)).
Proof.
  intros [Hnd Hlen]. unfold TTLCache.getitem.
  destruct (TTLCache.find k (TTLCache.links c)) as [l|]; [|now split].
  destruct (move_to_end_ok k (TTLCache.links c) Hnd) as [Hnd' Hlen'].
  destruct (TTLCache.expired time l); split; simpl; solve [auto | lia].
Qed.

Lemma setitem_ok c k v time :
  cache_ok c -> cache_ok (TTLCache.setitem c k v time).
Proof.
  intros [Hnd Hlen]. unfold TTLCache.setitem.
  pose proof (expire_links_nodup time _ Hnd) as Hlive.
  assert (Hlivelen : List.length (TTLCache.expire_links time (TTLCache.links c))
                     <= List.length (TTLCache.links c))
    by apply filter_length_le.
  destruct (Nat.ltb_spec (TTLCache.maxsize c) 1) as [Hlt|Hge].
  - split; simpl; [exact Hlive | lia].
  - set (live := TTLCache.expire_links time (TTLCache.links c)) in *.
    assert (Hkeys : forall kept,
               NoDup (map TTLCache.lk_key kept) ->
               NoDup (map TTLCache.lk_key
                        (TTLCache.remove k kept
                         ++ [{| TTLCache.lk_key := k; TTLCache.lk_value := v;
                                TTLCache.expire := (time + TTLCache.ttl c)%Z |}]))).
    { intros kept Hk.
      apply (same_keys_nodup
               (TTLCache.remove k kept ++ [{| TTLCache.lk_key := k;
                  TTLCache.lk_value := []; TTLCache.expire := 0 |}])).
      - now rewrite !map_app.
      - now apply remove_nodup. }
    destruct (TTLCache.find k live) as [l|] eqn:Hf; split; simpl.
    + now apply Hkeys.
    + rewrite length_app. simpl.
      pose proof (remove_length_found _ _ _ Hf). lia.
    + apply Hkeys. now apply evict_nodup.
    + rewrite length_app. simpl.
      pose proof (remove_length k (TTLCache.evict (TTLCache.maxsize c) live)).
      pose proof (evict_length (TTLCache.maxsize c) live Hge). lia.
Qed.

Lemma call_action_cache_ok client clock a w :
  cache_ok (w_cache w) -> cache_ok (w_cache (snd (call_action client clock a w))).
Proof.
  intros H. rewrite call_action_run. cbv zeta.
  pose proof (getitem_ok (w_cache w) (hashkey a) (clock (w_ticks w)) H) as Hg.
  destruct (TTLCache.find _ _) as [l|].
  - destruct (TTLCache.expired _ l); [|exact Hg].
    destruct (Fritz.call_action client _ _ _) as [v|e]; simpl; [|exact Hg].
    now apply setitem_ok.
  - destruct (Fritz.call_action client _ _ _) as [v|e]; simpl; [|exact H].
    now apply setitem_ok.
Qed.

Lemma handle_read_cache client clock a key w :
  w_cache (snd (handle_read client clock a key w))
  = w_cache (snd (call_action client clock a w)).
Proof.
  rewrite handle_read_run. now destruct (call_action client clock a w) as [[o|e] w'].
Qed.

Lemma bind_key_cache_ok client FLAGS clock accepts a variables key w :
  cache_ok (w_cache w) ->
  cache_ok (w_cache (snd (bind_key client FLAGS clock accepts a variables key w))).
Proof.
  intros H. rewrite bind_key_run.
  destruct (dict_get (arguments a) key) as [sv|]; [|exact H].
  cbv zeta. destruct (isExportable (Fritz.name sv)); [|exact H].
  assert (Hr : cache_ok (w_cache (snd (handle_read client clock a key w))))
    by (rewrite handle_read_cache; now apply call_action_cache_ok).
  destruct (match dict_get variables _ with
            | Some g => Ok g
            | None => _
            end) as [g|e]; [|exact H].
  destruct (verbose FLAGS); [|exact H].
  now destruct (handle_read client clock a key w) as [[x|e] w'].
Qed.

Lemma visit_action_cache_ok client FLAGS clock accepts variables a w :
  cache_ok (w_cache w) ->
  cache_ok (w_cache (snd (visit_action client FLAGS clock accepts variables a w))).
Proof.
  intros H. destruct (skipped FLAGS a) eqn:Hs.
  - now rewrite visit_action_skipped.
  - rewrite visit_action_candidate by assumption.
    pose proof (call_action_cache_ok client clock a w H) as Hc.
    destruct (call_action client clock a w) as [[output|e] w1]; [|exact Hc].
    simpl in Hc.
    apply (for_each_world (bind_key client FLAGS clock accepts a)
             (fun w => cache_ok (w_cache w))); [|exact Hc].
    intros s x w0. apply bind_key_cache_ok.
Qed.

(** X7: a cache that holds one link for a key and no more links than
    its capacity stays so through every read, at a scrape and during
    registration, whether the read hits, misses or fails. *)
Theorem cache_stays_in_order (client : Fritz.FritzConnection) (FLAGS : Flags)
    (clock : nat -> Z) (registry_accepts : string -> bool)
    (a : Action) (key : string) (actions : list Action) (w : World) :
  cache_ok (w_cache w) ->
  cache_ok (w_cache (snd (call_action client clock a w)))
  /\ cache_ok (w_cache (snd (handle_read client clock a key w)))
  /\ cache_ok (w_cache (snd (collect_variables client FLAGS clock
                               registry_accepts actions w)))
  /\ TTLCache.maxsize (w_cache (snd (call_action client clock a w)))
     = TTLCache.maxsize (w_cache w).
Proof.
  intros H. split; [now apply call_action_cache_ok|].
  split; [rewrite handle_read_cache; now apply call_action_cache_ok|].
  split; [|apply call_action_params].
  unfold collect_variables.
  apply (for_each_world (visit_action client FLAGS clock registry_accepts)
           (fun w => cache_ok (w_cache w))); [|exact H].
  intros s x w0. apply visit_action_cache_ok.
Qed.

(** X7 at the start of the process. *)
Lemma cache_stays_in_order_witness :
  cache_ok (w_cache initial_world)
  /\ cache_ok (w_cache (snd (collect_variables Demo.client default_flags
                               (Demo.clock 1) Demo.accepts_all
                               [Demo.addon_infos] initial_world))).
Proof.
  assert (H : cache_ok (w_cache initial_world))
    by (split; [constructor | apply Nat.le_0_l]).
  split; [exact H|].
  exact (proj1 (proj2 (proj2
    (cache_stays_in_order Demo.client default_flags (Demo.clock 1)
       Demo.accepts_all Demo.addon_infos "NewByteSendRate"
       [Demo.addon_infos] initial_world H)))).
Defined.

(** ** When registration succeeds *)

Lemma find_In k ls l : TTLCache.find k ls = Some l -> In l ls.
Proof.
  induction ls as [|x ls IH]; simpl; [discriminate|].
  destruct (TTLCache.key_eqb (TTLCache.lk_key x) k).
  - intros H. injection H as <-. now left.
  - intros H. right. now apply IH.
Qed.

Lemma remove_In k ls l : In l (TTLCache.remove k ls) -> In l ls.
Proof. intros H. now apply filter_In in H as [H _]. Qed.

Lemma evict_In n ls l : In l (TTLCache.evict n ls) -> In l ls.
Proof.
  induction ls as [|x ls IH]; simpl; [auto|].
  destruct (Nat.ltb n (S (List.length ls + 1))); [|auto].
  intros H. right. now apply IH.
Qed.

Lemma getitem_In c k time l :
  In l (TTLCache.links (snd (TTLCache.getitem c k time))) ->
  In l (TTLCache.links c).
Proof.
  unfold TTLCache.getitem, TTLCache.move_to_end.
  destruct (TTLCache.find k (TTLCache.links c)) as [x|] eqn:Hf; [|auto].
  destruct (TTLCache.expired time x); simpl; intros H;
    apply in_app_or in H as [H | [<- | []]];
    eauto using remove_In, find_In.
Qed.

Lemma setitem_In c k v time l :
  In l (TTLCache.links (TTLCache.setitem c k v time)) ->
  In l (TTLCache.links c)
  \/ l = {| TTLCache.lk_key := k; TTLCache.lk_value := v;
            TTLCache.expire := (time + TTLCache.ttl c)%Z |}.
Proof.
  unfold TTLCache.setitem.
  assert (Hlive : forall x, In x (TTLCache.expire_links time (TTLCache.links c)) ->
                            In x (TTLCache.links c))
    by (intros x Hx; now apply filter_In in Hx as [Hx _]).
  destruct (Nat.ltb (TTLCache.maxsize c) 1); simpl; [auto|].
  intros H. apply in_app_or in H as [H | [<- | []]]; [left | now right].
  apply remove_In in H.
  destruct (TTLCache.find k _); [|apply evict_In in H]; auto.
Qed.

Section Declared.

Variable client : Fritz.FritzConnection.
Variable FLAGS : Flags.
Variable clock : nat -> Z.
Variable registry_accepts : string -> bool.
Variable cands : list Action.

Hypothesis device_conforms :
  forall a, In a cands -> answers_as_declared client a.

(** Storing a candidate's answer keeps the cached answers declared. *)
Lemma setitem_declared (a : Action) (c : TTLCache.t) (n : nat)
    (output : dict value) (time : Z) :
  In a cands -> cache_declared cands c ->
  Fritz.call_action client n (service_name a) (action_name a) = Ok output ->
  cache_declared cands (TTLCache.setitem c (hashkey a) output time).
Proof.
  intros Ha Hc Hans l a' Hl Ha' Hk key Hkey.
  apply setitem_In in Hl as [Hl | ->]; [now apply (Hc l a')|].
  simpl in Hk, Hkey. unfold hashkey in Hk. injection Hk as Hs Hn.
  destruct (device_conforms a' Ha' n) as (output' & Hans' & Hdecl).
  rewrite <- Hs, <- Hn, Hans in Hans'. injection Hans' as <-. now apply Hdecl.
Qed.

(** A candidate's read returns, from the cache or from the device, an
    answer whose outputs the candidate declares. *)
Lemma call_action_declared (a : Action) (w : World) :
  In a cands -> cache_declared cands (w_cache w) ->
  exists output w1,
    call_action client clock a w = (Ok output, w1)
    /\ cache_declared cands (w_cache w1)
    /\ forall key, In key (dict_keys output) ->
                   dict_get (arguments a) key <> None.
Proof.
  intros Ha Hc. rewrite call_action_run. cbv zeta.
  destruct (device_conforms a Ha (List.length (w_calls w)))
    as (output & Hans & Hdecl). rewrite Hans.
  assert (Hg : cache_declared cands
                 (snd (TTLCache.getitem (w_cache w) (hashkey a)
                         (clock (w_ticks w)))))
    by (intros l a' Hl; apply Hc; now apply getitem_In in Hl).
  destruct (TTLCache.find (hashkey a) (TTLCache.links (w_cache w)))
    as [l|] eqn:Hf.
  - destruct (TTLCache.expired (clock (w_ticks w)) l).
    + eexists. eexists. split; [reflexivity|]. split; [|exact Hdecl].
      simpl. eapply setitem_declared; eauto.
    + eexists. eexists. split; [reflexivity|]. split; [exact Hg|].
      apply (Hc l a); eauto using find_In, find_key.
  - eexists. eexists. split; [reflexivity|]. split; [|exact Hdecl].
    simpl. eapply setitem_declared; eauto.
Qed.

Hypothesis quiet : verbose FLAGS = false.
Hypothesis accepts_all : forall metric_name, registry_accepts metric_name = true.

(** Binding declared keys succeeds and reads nothing. *)
Lemma bind_keys_declared (a : Action) (keys : list string)
    (variables : dict Gauge) (w : World) :
  (forall key, In key keys -> dict_get (arguments a) key <> None) ->
  exists variables',
    for_each (bind_key client FLAGS clock registry_accepts a) keys variables w
    = (Ok variables', w).
Proof.
  revert variables. induction keys as [|key keys IH]; intros variables Hk;
    simpl; [now exists variables|].
  unfold bind. rewrite bind_key_run, quiet.
  destruct (dict_get (arguments a) key) as [sv|] eqn:Hsv;
    [|exfalso; apply (Hk key); [now left | exact Hsv]].
  cbv zeta. rewrite accepts_all.
  assert (Hrest : forall key', In key' keys -> dict_get (arguments a) key' <> None)
    by (intros key' Hin; apply Hk; now right).
  destruct (isExportable (Fritz.name sv)); [|now apply IH].
  destruct (dict_get variables _); now apply IH.
Qed.

Lemma visit_actions_declared (xs : list Action) (variables : dict Gauge)
    (w : World) :
  (forall a, In a xs -> skipped FLAGS a = false -> In a cands) ->
  cache_declared cands (w_cache w) ->
  exists variables' w',
    for_each (visit_action client FLAGS clock registry_accepts) xs variables w
    = (Ok variables', w')
    /\ cache_declared cands (w_cache w').
Proof.
  revert variables w. induction xs as [|a xs IH]; intros variables w Hx Hc;
    simpl; [now exists variables, w|].
  assert (Hrest : forall a', In a' xs -> skipped FLAGS a' = false -> In a' cands)
    by (intros a' Hin; apply Hx; now right).
  unfold bind. destruct (skipped FLAGS a) eqn:Hs.
  - rewrite visit_action_skipped by assumption. now apply IH.
  - rewrite visit_action_candidate by assumption.
    destruct (call_action_declared a w (Hx a (or_introl eq_refl) Hs) Hc)
      as (output & w1 & -> & Hc1 & Hdecl).
    destruct (bind_keys_declared a (dict_keys output) variables w1 Hdecl)
      as (variables' & ->).
    now apply IH.
Qed.

End Declared.

(** X8: registration succeeds when the verbose flag is off, the registry
    refuses no name, the device answers every call for a candidate with
    outputs the candidate declares, and the answers already cached are of
    that kind (none is, when the process starts). *)
Theorem collect_variables_succeeds (client : Fritz.FritzConnection)
    (FLAGS : Flags) (clock : nat -> Z) (registry_accepts : string -> bool)
    (actions : list Action) (w : World) :
  verbose FLAGS = false ->
  (forall metric_name, registry_accepts metric_name = true) ->
  (forall a, In a (candidates FLAGS actions) -> answers_as_declared client a) ->
  cache_declared (candidates FLAGS actions) (w_cache w) ->
  exists variables w',
    collect_variables client FLAGS clock registry_accepts actions w
    = (Ok variables, w').
Proof.
  intros Hq Hacc Hdev Hc.
  destruct (visit_actions_declared client FLAGS clock registry_accepts
              (candidates FLAGS actions) Hdev Hq Hacc actions [] w)
    as (variables & w' & H & _); [|exact Hc|now exists variables, w'].
  intros a Hin Hs. apply filter_In. now rewrite Hs.
Qed.

(** X8 at the sample device. *)
Lemma collect_variables_succeeds_witness :
  exists variables w',
    collect_variables Demo.client default_flags (Demo.clock 1)
      Demo.accepts_all [Demo.persistent_data; Demo.addon_infos] initial_world
    = (Ok variables, w').
Proof.
  refine (collect_variables_succeeds Demo.client default_flags (Demo.clock 1)
            Demo.accepts_all [Demo.persistent_data; Demo.addon_infos]
            initial_world eq_refl (fun _ => eq_refl) _ _).
  - intros a [<- | []] n. exists Demo.addon_output.
    split; [reflexivity|].
    intros key [<- | [<- | []]]; discriminate.
  - intros l a [].
Defined.

(** ** What registration binds *)

Lemma set_function_keeps (g : Gauge) (labels l : TTLCache.key)
    (f f0 : Accessor) :
  In (l, f) g -> exists f', In (l, f') (set_function g labels f0).
Proof.
  induction g as [|[l0 f1] g IH]; simpl; [intros []|].
  destruct (TTLCache.key_eqb l0 labels) eqn:E.
  - intros [H | H].
    + injection H as -> ->. exists f0. now left.
    + exists f. now right.
  - intros [H | H].
    + exists f. now left.
    + destruct (IH H) as [f' Hf']. exists f'. now right.
Qed.

Section Binding.

Variable client : Fritz.FritzConnection.
Variable FLAGS : Flags.
Variable clock : nat -> Z.
Variable registry_accepts : string -> bool.

(** Binding a key removes no child. *)
Lemma bind_key_keeps (a : Action) (variables variables' : dict Gauge)
    (key : string) (w w' : World) (metric_name : string)
    (labels : TTLCache.key) :
  bind_key client FLAGS clock registry_accepts a variables key w
  = (Ok variables', w') ->
  has_child variables metric_name labels ->
  has_child variables' metric_name labels.
Proof.
  rewrite bind_key_run. intros H (g & f & Hg & Hf).
  destruct (dict_get (arguments a) key) as [sv|]; [|discriminate H].
  cbv zeta in H.
  destruct (isExportable (Fritz.name sv));
    [|injection H as <- _; now exists g, f].
  set (mn := metricify (service_name a) (action_name a) (Fritz.name sv)) in *.
  assert (Hkept : forall g0,
             match dict_get variables mn with
             | Some g1 => Ok g1
             | None => if registry_accepts mn then Ok [] else Raise ValueError
             end = Ok g0 ->
             has_child
               (dict_set variables mn
                  (set_function g0 (hashkey a)
                     {| acc_action := a; acc_key := key |}))
               metric_name labels).
  { intros g0 Hg0. destruct (String.eqb_spec mn metric_name) as [E|Hne].
    - rewrite E in *. rewrite Hg in Hg0. injection Hg0 as <-.
      destruct (set_function_keeps g (hashkey a) labels f
                  {| acc_action := a; acc_key := key |} Hf) as [f' Hf'].
      eexists. exists f'. split; [apply dict_get_set | exact Hf'].
    - exists g, f. split; [|exact Hf].
      now rewrite dict_get_set_other. }
  destruct (match dict_get variables mn with
            | Some g1 => Ok g1
            | None => if registry_accepts mn then Ok [] else Raise ValueError
            end) as [g0|e]; [|discriminate H].
  specialize (Hkept g0 eq_refl).
  destruct (verbose FLAGS).
  - destruct (handle_read client clock a key w) as [[v|e] w1]; [|discriminate H].
    now injection H as <- _.
  - now injection H as <- _.
Qed.

Lemma bind_keys_keep (a : Action) (keys : list string)
    (variables variables' : dict Gauge) (w w' : World) (metric_name : string)
    (labels : TTLCache.key) :
  for_each (bind_key client FLAGS clock registry_accepts a) keys variables w
  = (Ok variables', w') ->
  has_child variables metric_name labels ->
  has_child variables' metric_name labels.
Proof.
  revert variables w. induction keys as [|key keys IH]; intros variables w H Hc;
    simpl in H.
  - now injection H as <- _.
  - unfold bind in H.
    destruct (bind_key client FLAGS clock registry_accepts a variables key w)
      as [[v1|e] w1] eqn:Hb; [|discriminate H].
    eapply IH; eauto using bind_key_keeps.
Qed.

Lemma visit_action_keeps (a : Action) (variables variables' : dict Gauge)
    (w w' : World) (metric_name : string) (labels : TTLCache.key) :
  visit_action client FLAGS clock registry_accepts variables a w
  = (Ok variables', w') ->
  has_child variables metric_name labels ->
  has_child variables' metric_name labels.
Proof.
  destruct (skipped FLAGS a) eqn:Hs.
  - rewrite visit_action_skipped by assumption. intros H. now injection H as <- _.
  - rewrite visit_action_candidate by assumption.
    destruct (call_action client clock a w) as [[output|e] w1]; [|discriminate].
    apply bind_keys_keep.
Qed.

Lemma visit_actions_keep (xs : list Action) (variables variables' : dict Gauge)
    (w w' : World) (metric_name : string) (labels : TTLCache.key) :
  for_each (visit_action client FLAGS clock registry_accepts) xs variables w
  = (Ok variables', w') ->
  has_child variables metric_name labels ->
  has_child variables' metric_name labels.
Proof.
  revert variables w. induction xs as [|a xs IH]; intros variables w H Hc;
    simpl in H.
  - now injection H as <- _.
  - unfold bind in H.
    destruct (visit_action client FLAGS clock registry_accepts variables a w)
      as [[v1|e] w1] eqn:Hv; [|discriminate H].
    eapply IH; eauto using visit_action_keeps.
Qed.

(** The loop over the keys leaves a child for every exportable key. *)
Lemma bind_keys_bind (a : Action) (keys : list string)
    (variables variables' : dict Gauge) (w w' : World) :
  for_each (bind_key client FLAGS clock registry_accepts a) keys variables w
  = (Ok variables', w') ->
  forall key state_variable,
    In key keys ->
    dict_get (arguments a) key = Some state_variable ->
    isExportable (Fritz.name state_variable) = true ->
    has_child variables'
      (metricify (service_name a) (action_name a) (Fritz.name state_variable))
      (hashkey a).
Proof.
  revert variables w. induction keys as [|k keys IH];
    intros variables w H key sv Hin Hsv Hexp; [destruct Hin|].
  simpl in H. unfold bind in H.
  destruct (bind_key client FLAGS clock registry_accepts a variables k w)
    as [[v1|e] w1] eqn:Hb; [|discriminate H].
  destruct Hin as [-> | Hin]; [|eapply IH; eauto].
  apply (bind_keys_keep a keys v1 variables' w1 w' _ _ H).
  destruct (bind_key_binds client FLAGS clock registry_accepts a variables v1
              key w w1 sv Hb Hsv Hexp) as (g & Hg & Hf).
  now exists g, {| acc_action := a; acc_key := key |}.
Qed.

End Binding.

(** X9: when registration returns, every candidate was read at its turn,
    and every exportable output of the answer it got then has a child,
    labelled with the candidate's service and action, in the gauge named
    after the output's state variable. *)
Theorem registration_complete (client : Fritz.FritzConnection)
    (FLAGS : Flags) (clock : nat -> Z) (registry_accepts : string -> bool)
    (before after : list Action) (a : Action) (w w' : World)
    (variables : dict Gauge) :
  collect_variables client FLAGS clock registry_accepts
    (before ++ a :: after) w = (Ok variables, w') ->
  skipped FLAGS a = false ->
  exists variables0 w0 output w1,
    for_each (visit_action client FLAGS clock registry_accepts) before [] w
    = (Ok variables0, w0)
    /\ call_action client clock a w0 = (Ok output, w1)
    /\ forall key state_variable,
         In key (dict_keys output) ->
         dict_get (arguments a) key = Some state_variable ->
         isExportable (Fritz.name state_variable) = true ->
         has_child variables
           (metricify (service_name a) (action_name a)
              (Fritz.name state_variable))
           (hashkey a).
Proof.
  unfold collect_variables. rewrite for_each_app. intros H Hs.
  destruct (for_each (visit_action client FLAGS clock registry_accepts)
              before [] w) as [[variables0|e] w0]; [|discriminate H].
  simpl in H. unfold bind in H.
  rewrite visit_action_candidate in H by assumption.
  destruct (call_action client clock a w0) as [[output|e] w1] eqn:Hcall;
    [|discriminate H].
  destruct (for_each (bind_key client FLAGS clock registry_accepts a)
              (dict_keys output) variables0 w1) as [[v1|e] w2] eqn:Hbind;
    [|discriminate H].
  exists variables0, w0, output, w1.
  split; [reflexivity|]. split; [exact Hcall|].
  intros key sv Hin Hsv Hexp.
  apply (visit_actions_keep client FLAGS clock registry_accepts after v1
           variables w2 w' _ _ H).
  eapply bind_keys_bind; eauto.
Qed.

(** X9 at the sample device. *)
Lemma registration_complete_witness :
  has_child
    (match fst (collect_variables Demo.client default_flags (Demo.clock 1)
                  Demo.accepts_all [Demo.persistent_data; Demo.addon_infos]
                  initial_world) with
     | Ok variables => variables
     | Raise _ => []
     end)
    "fritzbox_byte_receive_rate" ("WANCommonIFC1", "GetAddonInfos").
Proof.
  destruct (registration_complete Demo.client default_flags (Demo.clock 1)
              Demo.accepts_all [Demo.persistent_data] [] Demo.addon_infos
              initial_world _ _ eq_refl eq_refl)
    as (v0 & w0 & output & w1 & Hb & Hcall & Hall).
  injection Hb as <- <-. injection Hcall as <- _.
  exact (Hall "NewByteReceiveRate" _ (or_intror (or_introl eq_refl))
           eq_refl eq_refl).
Defined.

(** ** Startup *)

(** What [startup] does, step by step. *)
Lemma startup_run client FLAGS listen int clock accepts (w : World) :
  startup client FLAGS listen int clock accepts w =
  match collect_actions client with
  | Raise e => (Raise e, w)
  | Ok actions =>
      match collect_variables client FLAGS clock accepts actions w with
      | (Raise e, w') => (Raise e, w')
      | (Ok variables, w') =>
          match rsplit ":" listen with
          | None => (Raise ValueError, w')
          | Some (address, text) =>
              match int text with
              | Ok port => (Ok (variables, address, port), w')
              | Raise e => (Raise e, w')
              end
          end
      end
  end.
Proof.
  unfold startup, bind, lift, raise, ret.
  destruct (collect_actions client) as [actions|e]; [|reflexivity].
  destruct (collect_variables client FLAGS clock accepts actions w)
    as [[variables|e] w']; [|reflexivity].
  destruct (rsplit ":" listen) as [[address text]|]; [|reflexivity].
  now destruct (int text).
Qed.

(** A candidate among discovered operations is an eligible action of the
    schema that neither skip list names. *)
Lemma candidate_is_eligible client FLAGS actions a :
  collect_actions client = Ok actions ->
  In a actions -> skipped FLAGS a = false ->
  In (hashkey a) (eligible_keys client)
  /\ ~ In (service_name a) (service_skiplist FLAGS)
  /\ ~ In (action_name a) (action_skiplist FLAGS).
Proof.
  intros Hd Hin Hs. split.
  - apply scan_services_keys in Hd. simpl in Hd. unfold eligible_keys.
    rewrite <- Hd. now apply in_map.
  - assert (Hn : ~ (In (service_name a) (service_skiplist FLAGS)
                    \/ In (action_name a) (action_skiplist FLAGS))).
    { intros H. apply skipped_iff in H. congruence. }
    tauto.
Qed.

(** X10: whatever the schema, the flags and the outcome, every device
    call that startup issues is a call of an eligible action of the
    schema (name starting with "Get", every argument of direction "out")
    that neither skip list names; and when startup returns, calling the
    function of any gauge child issues at most one device call, of such
    an action, the one the child's labels name. *)
Theorem startup_calls_only_eligible (client : Fritz.FritzConnection)
    (FLAGS : Flags) (listen : string) (int : string -> result Z)
    (clock : nat -> Z) (registry_accepts : string -> bool) (w : World) :
  let run := startup client FLAGS listen int clock registry_accepts w in
  let allowed := fun k : TTLCache.key =>
                   In k (eligible_keys client)
                   /\ ~ In (fst k) (service_skiplist FLAGS)
                   /\ ~ In (snd k) (action_skiplist FLAGS) in
  (exists new, w_calls (snd run) = w_calls w ++ new /\ Forall allowed new)
  /\ (forall variables address port,
        fst run = Ok (variables, address, port) ->
        forall metric_name g labels f w0,
          In (metric_name, g) variables -> In (labels, f) g ->
          allowed labels
          /\ (w_calls (snd (invoke client clock f w0)) = w_calls w0
              \/ w_calls (snd (invoke client clock f w0))
                 = w_calls w0 ++ [labels])).
Proof.
  cbv zeta. rewrite startup_run.
  destruct (collect_actions client) as [actions|e] eqn:Hd.
  2:{ split; [|intros ? ? ? H; discriminate H].
      exists []. simpl. now rewrite app_nil_r. }
  pose proof (collect_variables_inv client FLAGS clock registry_accepts
                actions w) as Hinv.
  assert (Hcalls : forall w',
             calls_ok FLAGS actions (w_calls w) w' ->
             exists new, w_calls w' = w_calls w ++ new
               /\ Forall (fun k => In k (eligible_keys client)
                            /\ ~ In (fst k) (service_skiplist FLAGS)
                            /\ ~ In (snd k) (action_skiplist FLAGS)) new).
  { intros w' (new & Hnew & Hall). exists new. split; [exact Hnew|].
    revert Hall. apply Forall_impl. intros k (a & Ha & ->).
    apply filter_In in Ha as [Ha Hs]. apply negb_true_iff in Hs.
    exact (candidate_is_eligible client FLAGS actions a Hd Ha Hs). }
  destruct (collect_variables client FLAGS clock registry_accepts actions w)
    as [[variables|e] w'].
  2:{ split; [now apply Hcalls | intros ? ? ? H; discriminate H]. }
  destruct Hinv as [Hreg Hc].
  assert (Hbound : forall metric_name g labels f w0,
             In (metric_name, g) variables -> In (labels, f) g ->
             (In labels (eligible_keys client)
              /\ ~ In (fst labels) (service_skiplist FLAGS)
              /\ ~ In (snd labels) (action_skiplist FLAGS))
             /\ (w_calls (snd (invoke client clock f w0)) = w_calls w0
                 \/ w_calls (snd (invoke client clock f w0))
                    = w_calls w0 ++ [labels])).
  { intros mn g labels f w0 Hg Hf.
    destruct (Hreg mn g labels f Hg Hf) as (Ha & Hs & -> & _).
    split; [exact (candidate_is_eligible client FLAGS actions _ Hd Ha Hs)|].
    unfold invoke. rewrite handle_read_calls. apply call_action_calls. }
  destruct (rsplit ":" listen) as [[address text]|];
    [destruct (int text) as [port|e]|]; simpl;
    (split; [now apply Hcalls|]); intros ? ? ? H; try discriminate H.
  injection H as <- _ _. exact Hbound.
Qed.

(** X11: startup returns exactly when discovery returns, registration
    returns, the listen address splits at its last colon into an address
    and a text without colon, and [int] accepts the text; the world is
    then the one registration left.  When discovery raises, nothing has
    been done; when the listen address has no colon, startup raises
    [ValueError] only after registration has run and made its calls. *)
Theorem startup_listen (client : Fritz.FritzConnection)
    (FLAGS : Flags) (listen : string) (int : string -> result Z)
    (clock : nat -> Z) (registry_accepts : string -> bool) (w : World) :
  (forall variables address port w',
      startup client FLAGS listen int clock registry_accepts w
      = (Ok (variables, address, port), w')
      <-> exists text actions,
            listen = (address ++ String ":" text)%string
            /\ Str.all_chars (fun c => negb (Ascii.eqb c ":")) text = true
            /\ int text = Ok port
            /\ collect_actions client = Ok actions
            /\ collect_variables client FLAGS clock registry_accepts actions w
               = (Ok variables, w'))
  /\ (forall e, collect_actions client = Raise e ->
        startup client FLAGS listen int clock registry_accepts w = (Raise e, w))
  /\ (Str.all_chars (fun c => negb (Ascii.eqb c ":")) listen = true ->
      forall actions variables w',
        collect_actions client = Ok actions ->
        collect_variables client FLAGS clock registry_accepts actions w
        = (Ok variables, w') ->
        startup client FLAGS listen int clock registry_accepts w
        = (Raise ValueError, w')).
Proof.
  split; [|split].
  - intros variables address port w'. rewrite startup_run. split.
    + destruct (collect_actions client) as [actions|e] eqn:Hd; [|discriminate].
      destruct (collect_variables client FLAGS clock registry_accepts actions w)
        as [[v1|e] w1] eqn:Hr; [|discriminate].
      destruct (rsplit ":" listen) as [[address1 text]|] eqn:Hsplit;
        [|discriminate].
      destruct (int text) as [p|e] eqn:Hint; [|discriminate].
      intros H. injection H as <- <- <- <-.
      apply rsplit_some in Hsplit as [Hl Ht].
      exists text, actions. repeat split; assumption.
    + intros (text & actions & -> & Ht & Hint & -> & ->).
      now rewrite (rsplit_join ":" address text Ht), Hint.
  - intros e He. now rewrite startup_run, He.
  - intros Hl actions variables w' Hd Hr.
    rewrite startup_run, Hd, Hr. apply rsplit_none in Hl. now rewrite Hl.
Qed.

(** Startup at the sample device with the default listen address, with
    one without colon, and on the schema that does not resolve. *)
Example startup_samples :
  (exists variables w',
      startup Demo.client default_flags ":9413" Sample.int (Demo.clock 1)
        Demo.accepts_all initial_world
      = (Ok (variables, EmptyString, 9413%Z), w')
      /\ w_calls w' = [("WANCommonIFC1", "GetAddonInfos")])
  /\ (exists w',
        startup Demo.client default_flags "9413" Sample.int (Demo.clock 1)
          Demo.accepts_all initial_world
        = (Raise ValueError, w')
        /\ w_calls w' = [("WANCommonIFC1", "GetAddonInfos")])
  /\ startup Sample.broken_client default_flags ":9413" Sample.int
       (Demo.clock 1) Demo.accepts_all initial_world
     = (Raise KeyError, initial_world)
  /\ collect_actions Sample.passed_over_client = Ok [].
Proof.
  split; [eexists; eexists; split; reflexivity|].
  split; [eexists; split; reflexivity|].
  split; reflexivity.
Qed.

(** * The claims on coalescing, binding and registration *)

(** ** Registration reads every candidate *)

Lemma find_none_keys k ls :
  TTLCache.find k ls = None
  <-> (forall l, In l ls -> TTLCache.lk_key l <> k).
Proof.
  induction ls as [|x ls IH]; simpl; [split; [intros _ l [] | reflexivity]|].
  destruct (TTLCache.key_eqb (TTLCache.lk_key x) k) eqn:E.
  - apply key_eqb_eq in E. split; [discriminate|].
    intros H. exfalso. apply (H x); [now left | exact E].
  - rewrite IH. split.
    + intros H l [<- | Hl]; [|now apply H].
      intros Hk. apply key_eqb_eq in Hk. congruence.
    + intros H l Hl. apply H. now right.
Qed.

(** Storing under one key makes no link for another key. *)
Lemma find_setitem_absent c k k' v time :
  k' <> k ->
  TTLCache.find k' (TTLCache.links c) = None ->
  TTLCache.find k' (TTLCache.links (TTLCache.setitem c k v time)) = None.
Proof.
  intros Hne Hnone. apply find_none_keys. intros l Hl.
  apply setitem_In in Hl as [Hl | ->].
  - now apply (proj1 (find_none_keys k' _) Hnone).
  - simpl. congruence.
Qed.

Section Turns.

Variable client : Fritz.FritzConnection.
Variable FLAGS : Flags.
Variable clock : nat -> Z.
Variable registry_accepts : string -> bool.

(** Registration at a candidate's turn: the candidate is read, and the
    outcome of the read decides how registration goes on. *)
Lemma collect_variables_turn (before after : list Action) (a : Action)
    (variables0 : dict Gauge) (w w0 : World) :
  skipped FLAGS a = false ->
  for_each (visit_action client FLAGS clock registry_accepts) before [] w
  = (Ok variables0, w0) ->
  collect_variables client FLAGS clock registry_accepts (before ++ a :: after) w
  = match call_action client clock a w0 with
    | (Raise e, w1) => (Raise e, w1)
    | (Ok output, w1) =>
        match for_each (bind_key client FLAGS clock registry_accepts a)
                (dict_keys output) variables0 w1 with
        | (Raise e, w2) => (Raise e, w2)
        | (Ok variables1, w2) =>
            for_each (visit_action client FLAGS clock registry_accepts)
              after variables1 w2
        end
    end.
Proof.
  intros Hs Hb. unfold collect_variables. rewrite for_each_app, Hb.
  simpl. unfold bind. rewrite visit_action_candidate by assumption.
  destruct (call_action client clock a w0) as [[output|e] w1]; [|reflexivity].
  now destruct (for_each (bind_key client FLAGS clock registry_accepts a)
                  (dict_keys output) variables0 w1) as [[v1|e] w2].
Qed.

(** With the verbose flag off, a registration that returns has called
    the device once for every candidate, in order, when the candidates
    have distinct names and none has a link in the cache. *)
Lemma visit_actions_calls_exact (xs : list Action)
    (variables variables' : dict Gauge) (w w' : World) :
  verbose FLAGS = false ->
  NoDup (map hashkey (candidates FLAGS xs)) ->
  (forall a, In a (candidates FLAGS xs) ->
             TTLCache.find (hashkey a) (TTLCache.links (w_cache w)) = None) ->
  for_each (visit_action client FLAGS clock registry_accepts) xs variables w
  = (Ok variables', w') ->
  w_calls w' = w_calls w ++ map hashkey (candidates FLAGS xs).
Proof.
  intros Hq. revert variables w.
  induction xs as [|a xs IH]; intros variables w Hnd Hnone H.
  - simpl in H. injection H as _ <-. simpl. now rewrite app_nil_r.
  - simpl in H. unfold bind in H. unfold candidates in Hnd, Hnone |- *.
    simpl in Hnd, Hnone |- *.
    destruct (skipped FLAGS a) eqn:Hs; simpl in Hnd, Hnone |- *.
    + rewrite visit_action_skipped in H by assumption.
      now apply (IH variables w).
    + rewrite visit_action_candidate in H by assumption.
      rewrite call_action_run in H. cbv zeta in H.
      rewrite (Hnone a (or_introl eq_refl)) in H.
      destruct (Fritz.call_action client (List.length (w_calls w))
                  (service_name a) (action_name a)) as [v|e];
        [|discriminate H].
      set (w1 := {| w_cache := TTLCache.setitem (w_cache w) (hashkey a) v
                                 (clock (w_ticks w));
                    w_ticks := S (w_ticks w);
                    w_calls := w_calls w ++ [hashkey a] |}) in *.
      pose proof (bind_keys_quiet client FLAGS clock registry_accepts a
                    (dict_keys v) variables w1 Hq) as Hquiet.
      destruct (for_each (bind_key client FLAGS clock registry_accepts a)
                  (dict_keys v) variables w1) as [[v1|e] w2];
        [|discriminate H].
      simpl in Hquiet. subst w2.
      inversion Hnd as [|? ? Hfresh Hrest]; subst.
      rewrite (IH v1 w1 Hrest); [simpl; now rewrite <- app_assoc | | exact H].
      intros a' Ha'. simpl. apply find_setitem_absent.
      * intros E. apply Hfresh. rewrite <- E. now apply in_map.
      * apply Hnone. now right.
Qed.

End Turns.

(** C9, amended: the skip tests are a pure, total filter: registration
    runs as on the candidates alone and does nothing at all when there is
    none.  Registration does call the device and can fail: at its turn
    every candidate is read through the cache, an exception of that read
    ends registration with that exception, and otherwise the outputs of
    the answer are bound.  Every device call is a candidate's.  With the
    verbose flag off there is at most one device call for each candidate,
    binding a metric stores its accessor and reads nothing, and when the
    candidates have distinct names and none has a link in the cache, a
    registration that returns has issued exactly one device call for
    each candidate, in order. *)
Theorem registration_reads_candidates_once (client : Fritz.FritzConnection)
    (FLAGS : Flags) (clock : nat -> Z) (registry_accepts : string -> bool)
    (actions : list Action) (w : World) :
  let run := collect_variables client FLAGS clock registry_accepts actions w in
  let visit := visit_action client FLAGS clock registry_accepts in
  run = collect_variables client FLAGS clock registry_accepts
          (candidates FLAGS actions) w
  /\ (candidates FLAGS actions = [] -> run = (Ok [], w))
  /\ (forall before a after variables0 w0,
        actions = before ++ a :: after ->
        skipped FLAGS a = false ->
        for_each visit before [] w = (Ok variables0, w0) ->
        run = match call_action client clock a w0 with
              | (Raise e, w1) => (Raise e, w1)
              | (Ok output, w1) =>
                  match for_each (bind_key client FLAGS clock registry_accepts a)
                          (dict_keys output) variables0 w1 with
                  | (Raise e, w2) => (Raise e, w2)
                  | (Ok variables1, w2) => for_each visit after variables1 w2
                  end
              end)
  /\ calls_ok FLAGS actions (w_calls w) (snd run)
  /\ (verbose FLAGS = false ->
      List.length (w_calls (snd run))
      <= List.length (w_calls w) + List.length (candidates FLAGS actions)
      /\ (forall a variables key w0,
            snd (bind_key client FLAGS clock registry_accepts a variables key w0)
            = w0)
      /\ (NoDup (map hashkey (candidates FLAGS actions)) ->
          (forall a, In a (candidates FLAGS actions) ->
             TTLCache.find (hashkey a) (TTLCache.links (w_cache w)) = None) ->
          forall variables w',
            run = (Ok variables, w') ->
            w_calls w' = w_calls w ++ map hashkey (candidates FLAGS actions))).
Proof.
  cbv zeta.
  pose proof (collect_variables_candidates client FLAGS clock registry_accepts
                actions [] w) as Hcand.
  split; [exact Hcand|].
  split; [|split; [|split]].
  - intros Hnone. unfold collect_variables. rewrite Hcand, Hnone. reflexivity.
  - intros before a after variables0 w0 -> Hs Hb.
    now apply collect_variables_turn.
  - pose proof (collect_variables_inv client FLAGS clock registry_accepts
                  actions w) as Hinv.
    destruct (collect_variables client FLAGS clock registry_accepts actions w)
      as [[variables|e] w']; simpl; [apply Hinv | exact Hinv].
  - intros Hv. split; [now apply collect_variables_call_count|].
    split; [intros a variables key w0; now apply bind_key_quiet|].
    intros Hnd Hnone variables w' Hrun.
    now apply (visit_actions_calls_exact client FLAGS clock registry_accepts
                 actions [] variables w w').
Qed.

(** C9 at the sample device: one skipped operation, one candidate; the
    candidate is read, and the read's failure is registration's. *)
Lemma registration_reads_candidates_once_witness :
  let actions := [Demo.persistent_data; Demo.addon_infos] in
  w_calls (snd (collect_variables Demo.client default_flags (Demo.clock 1)
                  Demo.accepts_all actions initial_world))
  = [("WANCommonIFC1", "GetAddonInfos")]
  /\ fst (collect_variables Demo.dead_client default_flags (Demo.clock 1)
            Demo.accepts_all actions initial_world)
     = Raise DeviceError.
Proof.
  cbv zeta. split.
  - destruct (registration_reads_candidates_once Demo.client default_flags
                (Demo.clock 1) Demo.accepts_all
                [Demo.persistent_data; Demo.addon_infos] initial_world)
      as (_ & _ & _ & _ & Hquiet).
    destruct (Hquiet eq_refl) as (_ & _ & Hexact).
    refine (Hexact _ _ _ _ eq_refl).
    + repeat constructor. intros [].
    + intros a [<- | []]. reflexivity.
  - destruct (registration_reads_candidates_once Demo.dead_client default_flags
                (Demo.clock 1) Demo.accepts_all
                [Demo.persistent_data; Demo.addon_infos] initial_world)
      as (_ & _ & Hturn & _).
    exact (f_equal fst (Hturn [Demo.persistent_data] Demo.addon_infos []
                          [] initial_world eq_refl eq_refl eq_refl)).
Defined.

(** ** What a gauge child is bound to *)

Lemma subscript_In {V : Type} (d : dict V) (k : string) (v : V) :
  NoDup (dict_keys d) -> In (k, v) d -> subscript d k = Ok v.
Proof.
  unfold subscript. induction d as [|[k' v'] d IH]; simpl; [intros _ []|].
  intros Hnd [E | Hin].
  - injection E as -> ->. now rewrite String.eqb_refl.
  - inversion Hnd as [|? ? Hfresh Hrest]; subst.
    destruct (String.eqb_spec k' k) as [->|_]; [|now apply IH].
    exfalso. apply Hfresh. now apply (in_map fst) in Hin.
Qed.

Lemma subscript_absent {V : Type} (d : dict V) (k : string) :
  ~ In k (dict_keys d) -> subscript d k = Raise KeyError.
Proof.
  intros H. apply dict_get_none_keys in H. unfold subscript. now rewrite H.
Qed.

Lemma gauge_get_set_function (g : Gauge) (labels l : TTLCache.key) (f : Accessor) :
  gauge_get (set_function g labels f) l
  = if TTLCache.key_eqb labels l then Some f else gauge_get g l.
Proof.
  induction g as [|[l0 f0] g IH]; simpl; [reflexivity|].
  destruct (TTLCache.key_eqb l0 labels) eqn:E; simpl.
  - apply key_eqb_eq in E. subst l0. now destruct (TTLCache.key_eqb labels l).
  - rewrite IH. destruct (TTLCache.key_eqb l0 l) eqn:E'; [|reflexivity].
    apply key_eqb_eq in E'. subst l0.
    destruct (TTLCache.key_eqb labels l) eqn:E2; [|reflexivity].
    apply key_eqb_eq in E2. subst l. now rewrite key_eqb_refl in E.
Qed.

Lemma gauge_get_In (g : Gauge) (labels : TTLCache.key) (f : Accessor) :
  gauge_get g labels = Some f -> In (labels, f) g.
Proof.
  induction g as [|[l0 f0] g IH]; simpl; [discriminate|].
  destruct (TTLCache.key_eqb l0 labels) eqn:E; [|auto].
  apply key_eqb_eq in E. intros H. injection H as ->. subst. now left.
Qed.

Section Children.

Variable client : Fritz.FritzConnection.
Variable FLAGS : Flags.
Variable clock : nat -> Z.
Variable registry_accepts : string -> bool.

(** Binding a key sets one child, the one of the key's metric name and
    of its operation's labels, to the operation and the key, and leaves
    every other child as it was; a key that is not exportable leaves
    all. *)
Lemma bind_key_child (a : Action) (variables variables' : dict Gauge)
    (key : string) (w w' : World) (state_variable : Fritz.StateVariable)
    (metric_name : string) (labels : TTLCache.key) :
  bind_key client FLAGS clock registry_accepts a variables key w
  = (Ok variables', w') ->
  dict_get (arguments a) key = Some state_variable ->
  child_at variables' metric_name labels
  = if isExportable (Fritz.name state_variable)
       && String.eqb (metricify (service_name a) (action_name a)
                        (Fritz.name state_variable)) metric_name
       && TTLCache.key_eqb (hashkey a) labels
    then Some {| acc_action := a; acc_key := key |}
    else child_at variables metric_name labels.
Proof.
  rewrite bind_key_run. intros H Hsv. rewrite Hsv in H. cbv zeta in H.
  destruct (isExportable (Fritz.name state_variable)); simpl;
    [|now injection H as <- _].
  set (mn := metricify (service_name a) (action_name a)
               (Fritz.name state_variable)) in *.
  assert (Hset : forall g0,
             match dict_get variables mn with
             | Some g1 => Ok g1
             | None => if registry_accepts mn then Ok [] else Raise ValueError
             end = Ok g0 ->
             child_at
               (dict_set variables mn
                  (set_function g0 (hashkey a)
                     {| acc_action := a; acc_key := key |}))
               metric_name labels
             = if String.eqb mn metric_name && TTLCache.key_eqb (hashkey a) labels
               then Some {| acc_action := a; acc_key := key |}
               else child_at variables metric_name labels).
  { intros g0 Hg0. unfold child_at.
    destruct (String.eqb_spec mn metric_name) as [<-|Hne]; simpl.
    - rewrite dict_get_set, gauge_get_set_function.
      destruct (TTLCache.key_eqb (hashkey a) labels); [reflexivity|].
      destruct (dict_get variables mn) as [g1|].
      + now injection Hg0 as <-.
      + destruct (registry_accepts mn); [|discriminate Hg0].
        now injection Hg0 as <-.
    - now rewrite dict_get_set_other. }
  destruct (match dict_get variables mn with
            | Some g1 => Ok g1
            | None => if registry_accepts mn then Ok [] else Raise ValueError
            end) as [g0|e]; [|discriminate H].
  specialize (Hset g0 eq_refl).
  destruct (verbose FLAGS).
  - destruct (handle_read client clock a key w) as [[v|e] w1]; [|discriminate H].
    now injection H as <- _.
  - now injection H as <- _.
Qed.

(** The loop over the keys leaves a child as it was when the child has
    other labels than the operation or no exportable key of the loop has
    the child's metric name. *)
Lemma bind_keys_frame (a : Action) (keys : list string)
    (variables variables' : dict Gauge) (w w' : World)
    (metric_name : string) (labels : TTLCache.key) :
  for_each (bind_key client FLAGS clock registry_accepts a) keys variables w
  = (Ok variables', w') ->
  (hashkey a <> labels
   \/ forall key sv, In key keys -> dict_get (arguments a) key = Some sv ->
        isExportable (Fritz.name sv) = true ->
        metricify (service_name a) (action_name a) (Fritz.name sv)
        <> metric_name) ->
  child_at variables' metric_name labels = child_at variables metric_name labels.
Proof.
  revert variables w. induction keys as [|key keys IH]; intros variables w H Hfree;
    simpl in H.
  - now injection H as <- _.
  - unfold bind in H.
    destruct (bind_key client FLAGS clock registry_accepts a variables key w)
      as [[v1|e] w1] eqn:Hb; [|discriminate H].
    rewrite (IH v1 w1 H).
    2:{ destruct Hfree as [Hl | Hk]; [now left | right].
        intros key' sv Hin. apply Hk. now right. }
    destruct (dict_get (arguments a) key) as [sv|] eqn:Hsv.
    + rewrite (bind_key_child a variables v1 key w w1 sv metric_name labels Hb Hsv).
      destruct (isExportable (Fritz.name sv)) eqn:Hexp; [|reflexivity].
      destruct (String.eqb_spec
                  (metricify (service_name a) (action_name a) (Fritz.name sv))
                  metric_name) as [Hmn|_]; [|reflexivity].
      destruct (TTLCache.key_eqb (hashkey a) labels) eqn:Hl; [|reflexivity].
      apply key_eqb_eq in Hl. exfalso.
      destruct Hfree as [Hne | Hk]; [exact (Hne Hl)|].
      exact (Hk key sv (or_introl eq_refl) Hsv Hexp Hmn).
    + rewrite bind_key_run, Hsv in Hb. discriminate Hb.
Qed.

(** Operations with other names leave a child as it was. *)
Lemma visit_actions_frame (xs : list Action)
    (variables variables' : dict Gauge) (w w' : World)
    (metric_name : string) (labels : TTLCache.key) :
  for_each (visit_action client FLAGS clock registry_accepts) xs variables w
  = (Ok variables', w') ->
  (forall a, In a xs -> hashkey a <> labels) ->
  child_at variables' metric_name labels = child_at variables metric_name labels.
Proof.
  revert variables w. induction xs as [|a xs IH]; intros variables w H Hfree;
    simpl in H.
  - now injection H as <- _.
  - unfold bind in H.
    destruct (visit_action client FLAGS clock registry_accepts variables a w)
      as [[v1|e] w1] eqn:Hv; [|discriminate H].
    rewrite (IH v1 w1 H) by (intros a' Hin; apply Hfree; now right).
    destruct (skipped FLAGS a) eqn:Hs.
    + rewrite visit_action_skipped in Hv by assumption. now injection Hv as <- _.
    + rewrite visit_action_candidate in Hv by assumption.
      destruct (call_action client clock a w) as [[output|e] w0];
        [|discriminate Hv].
      apply (bind_keys_frame a (dict_keys output) variables v1 w0 w1 _ _ Hv).
      left. apply Hfree. now left.
Qed.

(** The child of a bound key after the rest of its operation's keys. *)
Lemma bind_keys_child (a : Action) (keys1 keys2 : list string) (key : string)
    (variables variables' : dict Gauge) (w w' : World)
    (sv : Fritz.StateVariable) :
  for_each (bind_key client FLAGS clock registry_accepts a)
    (keys1 ++ key :: keys2) variables w = (Ok variables', w') ->
  dict_get (arguments a) key = Some sv ->
  isExportable (Fritz.name sv) = true ->
  (forall key' sv', In key' keys2 -> dict_get (arguments a) key' = Some sv' ->
     isExportable (Fritz.name sv') = true ->
     metricify (service_name a) (action_name a) (Fritz.name sv')
     <> metricify (service_name a) (action_name a) (Fritz.name sv)) ->
  child_at variables'
    (metricify (service_name a) (action_name a) (Fritz.name sv)) (hashkey a)
  = Some {| acc_action := a; acc_key := key |}.
Proof.
  intros H Hsv Hexp Hfree. rewrite for_each_app in H.
  destruct (for_each (bind_key client FLAGS clock registry_accepts a)
              keys1 variables w) as [[v1|e] w1]; [|discriminate H].
  simpl in H. unfold bind in H.
  destruct (bind_key client FLAGS clock registry_accepts a v1 key w1)
    as [[v2|e] w2] eqn:Hb; [|discriminate H].
  rewrite (bind_keys_frame a keys2 v2 variables' w2 w' _ _ H) by now right.
  rewrite (bind_key_child a v1 v2 key w1 w2 sv _ _ Hb Hsv).
  now rewrite Hexp, String.eqb_refl, key_eqb_refl.
Qed.

End Children.

(** C8, as stated, fails: on the sample whose two outputs relate to one
    state variable, registration returns, "NewX" is an exportable output
    of the answer, and the child under its metric name and its
    operation's labels holds the key "NewY", bound after it. *)
Lemma accessor_replaced_on_collision :
  ~ (forall client FLAGS clock registry_accepts a w variables w' output w1
            key state_variable,
        collect_variables client FLAGS clock registry_accepts [a] w
        = (Ok variables, w') ->
        skipped FLAGS a = false ->
        call_action client clock a w = (Ok output, w1) ->
        In key (dict_keys output) ->
        dict_get (arguments a) key = Some state_variable ->
        isExportable (Fritz.name state_variable) = true ->
        child_at variables
          (metricify (service_name a) (action_name a)
             (Fritz.name state_variable))
          (hashkey a)
        = Some {| acc_action := a; acc_key := key |}).
Proof.
  intros H.
  specialize (H Twin.client default_flags (Demo.clock 1) Demo.accepts_all
                Twin.get_totals initial_world _ _ _ _ "NewX" _
                eq_refl eq_refl eq_refl (or_introl eq_refl) eq_refl eq_refl).
  vm_compute in H. discriminate H.
Qed.

(** On that sample a scrape of the one child reads 2, the value of
    "NewY"; the value of "NewX" is 1. *)
Example twin_scrape_reads_the_later_key :
  let run := collect_variables Twin.client default_flags (Demo.clock 1)
               Demo.accepts_all [Twin.get_totals] initial_world in
  exists variables f,
    fst run = Ok variables
    /\ child_at variables "fritzbox_total_bytes" ("WANCommonIFC1", "GetTotals")
       = Some f
    /\ fst (invoke Twin.client (Demo.clock 1) f (snd run)) = Ok (VInt 2)
    /\ fst (handle_read Twin.client (Demo.clock 1) Twin.get_totals "NewX"
              (snd run)) = Ok (VInt 1).
Proof. cbv zeta. eexists. eexists. repeat split; reflexivity. Qed.

(** C8, amended: reading a field returns the value that the mapping the
    read returns holds at the key, [KeyError] when the mapping has no
    such key, and the read's exception when the read raises.  An accessor
    is bound by value: binding an exportable key leaves, under its metric
    name and its operation's labels, a child that holds this operation
    and this key.  The child stays until a later binding under the same
    metric name and the same labels replaces it: after a registration
    that returns, an exportable output whose metric name no later
    exportable output of its operation has, and whose operation no later
    operation shares its names with, has a child that holds its own
    operation and key.  Whatever child there is holds an operation with
    the child's labels and a key whose state variable names the gauge,
    and calling its function returns the value at its key in the mapping
    that the read of its operation returns. *)
Theorem accessor_bound_until_replaced (client : Fritz.FritzConnection)
    (FLAGS : Flags) (clock : nat -> Z) (registry_accepts : string -> bool) :
  (forall a key w output w1,
      call_action client clock a w = (Ok output, w1) ->
      (forall v, NoDup (dict_keys output) -> In (key, v) output ->
                 handle_read client clock a key w = (Ok v, w1))
      /\ (~ In key (dict_keys output) ->
          handle_read client clock a key w = (Raise KeyError, w1)))
  /\ (forall a key w e w1,
        call_action client clock a w = (Raise e, w1) ->
        handle_read client clock a key w = (Raise e, w1))
  /\ (forall a variables key w variables' w' state_variable,
        bind_key client FLAGS clock registry_accepts a variables key w
        = (Ok variables', w') ->
        dict_get (arguments a) key = Some state_variable ->
        isExportable (Fritz.name state_variable) = true ->
        child_at variables'
          (metricify (service_name a) (action_name a)
             (Fritz.name state_variable))
          (hashkey a)
        = Some {| acc_action := a; acc_key := key |})
  /\ (forall before a after w variables w' variables0 w0 output w1
             keys1 key keys2 state_variable,
        collect_variables client FLAGS clock registry_accepts
          (before ++ a :: after) w = (Ok variables, w') ->
        skipped FLAGS a = false ->
        for_each (visit_action client FLAGS clock registry_accepts) before [] w
        = (Ok variables0, w0) ->
        call_action client clock a w0 = (Ok output, w1) ->
        dict_keys output = keys1 ++ key :: keys2 ->
        dict_get (arguments a) key = Some state_variable ->
        isExportable (Fritz.name state_variable) = true ->
        (forall key' sv', In key' keys2 ->
           dict_get (arguments a) key' = Some sv' ->
           isExportable (Fritz.name sv') = true ->
           metricify (service_name a) (action_name a) (Fritz.name sv')
           <> metricify (service_name a) (action_name a)
                (Fritz.name state_variable)) ->
        (forall a', In a' after -> hashkey a' <> hashkey a) ->
        child_at variables
          (metricify (service_name a) (action_name a)
             (Fritz.name state_variable))
          (hashkey a)
        = Some {| acc_action := a; acc_key := key |})
  /\ (forall actions w variables w' metric_name labels f,
        collect_variables client FLAGS clock registry_accepts actions w
        = (Ok variables, w') ->
        child_at variables metric_name labels = Some f ->
        bound_to FLAGS actions metric_name labels f)
  /\ (forall f w output w1 v,
        call_action client clock (acc_action f) w = (Ok output, w1) ->
        NoDup (dict_keys output) -> In (acc_key f, v) output ->
        invoke client clock f w = (Ok v, w1)).
Proof.
  assert (Hread : forall a key w output w1 v,
             call_action client clock a w = (Ok output, w1) ->
             NoDup (dict_keys output) -> In (key, v) output ->
             handle_read client clock a key w = (Ok v, w1)).
  { intros a key w output w1 v Hcall Hnd Hin.
    rewrite handle_read_run, Hcall. now rewrite (subscript_In output key v). }
  split; [|split; [|split; [|split; [|split]]]].
  - intros a key w output w1 Hcall. split; [intros v; now apply Hread|].
    intros Hout. rewrite handle_read_run, Hcall.
    now rewrite subscript_absent.
  - intros a key w e w1 Hcall. now rewrite handle_read_run, Hcall.
  - intros a variables key w variables' w' sv Hb Hsv Hexp.
    rewrite (bind_key_child client FLAGS clock registry_accepts a variables
               variables' key w w' sv _ _ Hb Hsv).
    now rewrite Hexp, String.eqb_refl, key_eqb_refl.
  - intros before a after w variables w' variables0 w0 output w1 keys1 key keys2
      sv Hrun Hs Hb Hcall Hkeys Hsv Hexp Hlater Hafter.
    rewrite (collect_variables_turn client FLAGS clock registry_accepts
               before after a variables0 w w0 Hs Hb), Hcall, Hkeys in Hrun.
    destruct (for_each (bind_key client FLAGS clock registry_accepts a)
                (keys1 ++ key :: keys2) variables0 w1)
      as [[v1|e] w2] eqn:Hbind; [|discriminate Hrun].
    rewrite (visit_actions_frame client FLAGS clock registry_accepts after v1
               variables w2 w' _ _ Hrun Hafter).
    exact (bind_keys_child client FLAGS clock registry_accepts a keys1 keys2
             key variables0 v1 w1 w2 sv Hbind Hsv Hexp Hlater).
  - intros actions w variables w' metric_name labels f Hrun Hchild.
    pose proof (collect_variables_inv client FLAGS clock registry_accepts
                  actions w) as Hinv.
    rewrite Hrun in Hinv. destruct Hinv as [Hreg _].
    unfold child_at in Hchild.
    destruct (dict_get variables metric_name) as [g|] eqn:Hg;
      [|discriminate Hchild].
    apply (Hreg metric_name g); [now apply dict_get_In | now apply gauge_get_In].
  - intros f w output w1 v. unfold invoke. apply Hread.
Qed.

(** C8 at the sample device: after registration the child of the send
    rate holds the send rate's key, and a scrape of it reads 42. *)
Lemma accessor_bound_until_replaced_witness :
  let run := collect_variables Demo.client default_flags (Demo.clock 1)
               Demo.accepts_all [Demo.addon_infos] initial_world in
  let f := {| acc_action := Demo.addon_infos; acc_key := "NewByteSendRate" |} in
  (exists variables,
      fst run = Ok variables
      /\ child_at variables "fritzbox_byte_send_rate"
           ("WANCommonIFC1", "GetAddonInfos") = Some f)
  /\ fst (invoke Demo.client (Demo.clock 1) f (snd run)) = Ok (VInt 42).
Proof.
  cbv zeta.
  destruct (accessor_bound_until_replaced Demo.client default_flags
              (Demo.clock 1) Demo.accepts_all)
    as (_ & _ & _ & Hkept & _ & Hinvoke).
  split.
  - eexists. split; [reflexivity|].
    eapply (Hkept [] Demo.addon_infos [] initial_world _ _ [] initial_world
              _ _ [] "NewByteSendRate" ["NewByteReceiveRate"]
              (snd (Demo.var "ByteSendRate"))).
    + lazy. reflexivity.
    + reflexivity.
    + reflexivity.
    + lazy. reflexivity.
    + reflexivity.
    + reflexivity.
    + reflexivity.
    + intros key' sv' [<- | []] Hsv' _. injection Hsv' as <-.
      vm_compute. discriminate.
    + intros a' [].
  - erewrite Hinvoke.
    + reflexivity.
    + lazy. reflexivity.
    + repeat constructor; simpl; intuition discriminate.
    + left. reflexivity.
Defined.

(** ** Reads one after the other and reads that overlap *)

Lemma run_schedule_app client clock (s1 s2 : list bool) (r1 r2 : Reading)
    (w : World) :
  run_schedule client clock (s1 ++ s2) r1 r2 w
  = let '(r1', r2', w') := run_schedule client clock s1 r1 r2 w in
    run_schedule client clock s2 r1' r2' w'.
Proof.
  revert r1 r2 w. induction s1 as [|b s1 IH]; intros r1 r2 w; simpl;
    [reflexivity|].
  destruct b.
  - destruct (step client clock r1 w) as [r1' w']. apply IH.
  - destruct (step client clock r2 w) as [r2' w']. apply IH.
Qed.

(** The three steps of a read, taken without interruption, are
    [handle_read]. *)
Lemma three_steps client clock (a : Action) (key : string) (w : World) :
  let (s1, w1) := step client clock (Looking a key) w in
  let (s2, w2) := step client clock s1 w1 in
  step client clock s2 w2
  = (Returned (fst (handle_read client clock a key w)),
     snd (handle_read client clock a key w)).
Proof.
  unfold handle_read, call_action, bind, lift, ret, step.
  unfold cache_getitem.
  destruct (TTLCache.find (hashkey a) (TTLCache.links (w_cache w))) as [l|].
  - destruct (TTLCache.getitem (w_cache w) (hashkey a) (clock (w_ticks w)))
      as [[v|] c]; [reflexivity|].
    unfold device_call. cbn [w_calls w_cache w_ticks].
    destruct (Fritz.call_action client (List.length (w_calls w))
                (service_name a) (action_name a)); reflexivity.
  - unfold device_call.
    destruct (Fritz.call_action client (List.length (w_calls w))
                (service_name a) (action_name a)); reflexivity.
Qed.

Lemma first_reads_alone client clock (a : Action) (key : string)
    (r2 : Reading) (w : World) :
  run_schedule client clock [true; true; true] (Looking a key) r2 w
  = (Returned (fst (handle_read client clock a key w)), r2,
     snd (handle_read client clock a key w)).
Proof.
  pose proof (three_steps client clock a key w) as H. cbn [run_schedule].
  destruct (step client clock (Looking a key) w) as [s1 w1].
  destruct (step client clock s1 w1) as [s2 w2].
  destruct (step client clock s2 w2) as [s3 w3].
  now injection H as -> ->.
Qed.

Lemma second_reads_alone client clock (a : Action) (key : string)
    (r1 : Reading) (w : World) :
  run_schedule client clock [false; false; false] r1 (Looking a key) w
  = (r1, Returned (fst (handle_read client clock a key w)),
     snd (handle_read client clock a key w)).
Proof.
  pose proof (three_steps client clock a key w) as H. cbn [run_schedule].
  destruct (step client clock (Looking a key) w) as [s1 w1].
  destruct (step client clock s1 w1) as [s2 w2].
  destruct (step client clock s2 w2) as [s3 w3].
  now injection H as -> ->.
Qed.

Lemma handle_read_world client clock (a : Action) (key : string) (w : World) :
  snd (handle_read client clock a key w) = snd (call_action client clock a w).
Proof.
  rewrite handle_read_run.
  now destruct (call_action client clock a w) as [[o|e] w'].
Qed.

Lemma handle_read_result client clock (a : Action) (key : string) (w : World) :
  fst (handle_read client clock a key w)
  = match fst (call_action client clock a w) with
    | Ok output => subscript output key
    | Raise e => Raise e
    end.
Proof.
  rewrite handle_read_run.
  now destruct (call_action client clock a w) as [[o|e] w'].
Qed.

(** Two reads one after the other that both find a live link call
    nothing and both answer from the link. *)
Lemma sequential_reads_no_call client clock (a a' : Action) (w : World)
    (l : TTLCache.Link) :
  hashkey a' = hashkey a ->
  TTLCache.find (hashkey a) (TTLCache.links (w_cache w)) = Some l ->
  (clock (w_ticks w) <= TTLCache.expire l)%Z ->
  (clock (S (w_ticks w)) <= TTLCache.expire l)%Z ->
  let w1 := snd (call_action client clock a w) in
  fst (call_action client clock a w) = Ok (TTLCache.lk_value l)
  /\ fst (call_action client clock a' w1) = Ok (TTLCache.lk_value l)
  /\ w_calls (snd (call_action client clock a' w1)) = w_calls w.
Proof.
  intros Hk Hf H1 H2. cbv zeta.
  assert (He1 : TTLCache.expired (clock (w_ticks w)) l = false)
    by now apply Z.ltb_ge.
  assert (He2 : TTLCache.expired (clock (S (w_ticks w))) l = false)
    by now apply Z.ltb_ge.
  destruct (call_action_live client clock a w l Hf He1) as [Hr Hc].
  assert (Hw1 : snd (call_action client clock a w)
                = {| w_cache := snd (TTLCache.getitem (w_cache w) (hashkey a)
                                       (clock (w_ticks w)));
                     w_ticks := S (w_ticks w); w_calls := w_calls w |})
    by (rewrite call_action_run; cbv zeta; now rewrite Hf, He1).
  split; [exact Hr|]. rewrite Hw1.
  destruct (call_action_live client clock a'
              {| w_cache := snd (TTLCache.getitem (w_cache w) (hashkey a)
                                   (clock (w_ticks w)));
                 w_ticks := S (w_ticks w); w_calls := w_calls w |} l)
    as [Hr' Hc']; [| exact He2 | now split].
  simpl. now rewrite Hk, getitem_find.
Qed.

Lemma step_looking_absent client clock (a : Action) (key : string) (w : World) :
  TTLCache.find (hashkey a) (TTLCache.links (w_cache w)) = None ->
  step client clock (Looking a key) w = (Calling a key, w).
Proof. intros H. unfold step, cache_getitem. now rewrite H. Qed.

Lemma step_calling client clock (a : Action) (key : string) (w : World) :
  step client clock (Calling a key) w
  = (match Fritz.call_action client (List.length (w_calls w))
             (service_name a) (action_name a) with
     | Ok v => Storing a key v
     | Raise e => Returned (Raise e)
     end,
     {| w_cache := w_cache w; w_ticks := w_ticks w;
        w_calls := w_calls w ++ [hashkey a] |}).
Proof.
  unfold step, device_call.
  now destruct (Fritz.call_action client (List.length (w_calls w))
                  (service_name a) (action_name a)).
Qed.

Lemma step_after_call client clock (a : Action) (key : string)
    (answer : result (dict value)) (w : World) :
  let r := match answer with
           | Ok v => Storing a key v
           | Raise e => Returned (Raise e)
           end in
  fst (step client clock r w)
  = Returned (match answer with
              | Ok v => subscript v key
              | Raise e => Raise e
              end)
  /\ w_calls (snd (step client clock r w)) = w_calls w.
Proof. cbv zeta. destruct answer; split; reflexivity. Qed.

(** Two reads that overlap, each looking the key up before the other has
    stored, both call the device when the key has no link. *)
Lemma reads_in_turn_call_twice client clock (a a' : Action) (key1 key2 : string)
    (w : World) :
  hashkey a' = hashkey a ->
  TTLCache.find (hashkey a) (TTLCache.links (w_cache w)) = None ->
  exists r1 r2 w',
    run_schedule client clock in_turn (Looking a key1) (Looking a' key2) w
    = (r1, r2, w')
    /\ w_calls w' = w_calls w ++ [hashkey a; hashkey a]
    /\ forall v1 v2,
         Fritz.call_action client (List.length (w_calls w))
           (service_name a) (action_name a) = Ok v1 ->
         Fritz.call_action client (S (List.length (w_calls w)))
           (service_name a) (action_name a) = Ok v2 ->
         r1 = Returned (subscript v1 key1) /\ r2 = Returned (subscript v2 key2).
Proof.
  intros Hk Hf.
  assert (Hn : service_name a' = service_name a /\ action_name a' = action_name a)
    by (unfold hashkey in Hk; now injection Hk).
  destruct Hn as [Hs Ha].
  unfold in_turn. cbn [run_schedule].
  rewrite (step_looking_absent client clock a key1 w Hf).
  rewrite (step_looking_absent client clock a' key2 w) by now rewrite Hk.
  rewrite !step_calling. cbn [w_calls w_cache w_ticks].
  rewrite Hk, Hs, Ha, length_app. cbn [List.length].
  replace (List.length (w_calls w) + 1) with (S (List.length (w_calls w))) by lia.
  set (answer1 := Fritz.call_action client (List.length (w_calls w))
                    (service_name a) (action_name a)).
  set (answer2 := Fritz.call_action client (S (List.length (w_calls w)))
                    (service_name a) (action_name a)).
  set (w2 := {| w_cache := w_cache w; w_ticks := w_ticks w;
                w_calls := (w_calls w ++ [hashkey a]) ++ [hashkey a] |}).
  destruct (step_after_call client clock a key1 answer1 w2) as [Hr1 Hc1].
  cbv zeta in Hr1, Hc1.
  destruct (step client clock _ w2) as [r1 w3]. simpl in Hr1, Hc1.
  destruct (step_after_call client clock a' key2 answer2 w3) as [Hr2 Hc2].
  cbv zeta in Hr2, Hc2.
  destruct (step client clock _ w3) as [r2 w4]. simpl in Hr2, Hc2.
  exists r1, r2, w4. split; [reflexivity|]. split.
  - rewrite Hc2, Hc1. unfold w2. simpl. now rewrite <- app_assoc.
  - intros v1 v2 H1 H2. subst r1 r2. now rewrite H1, H2.
Qed.

(** Every step of a reading stays on the reading's cache key and calls
    the device at most as often as the reading still can. *)
Lemma step_calls client clock (k : TTLCache.key) (r : Reading) (w : World) :
  reads_of k r ->
  reads_of k (fst (step client clock r w))
  /\ exists n,
       w_calls (snd (step client clock r w)) = w_calls w ++ repeat k n
       /\ n + calls_left (fst (step client clock r w)) <= calls_left r.
Proof.
  intros Hr. destruct r as [a key|a key|a key v|res]; simpl in Hr.
  - unfold step, cache_getitem.
    destruct (TTLCache.find (hashkey a) (TTLCache.links (w_cache w)));
      [destruct (TTLCache.getitem (w_cache w) (hashkey a) (clock (w_ticks w)))
         as [[v|] c]|]; simpl.
    + split; [exact I|]. exists 0. simpl. rewrite app_nil_r. split; [reflexivity|lia].
    + split; [exact Hr|]. exists 0. simpl. rewrite app_nil_r. split; [reflexivity|lia].
    + split; [exact Hr|]. exists 0. simpl. rewrite app_nil_r. split; [reflexivity|lia].
  - rewrite step_calling.
    destruct (Fritz.call_action client (List.length (w_calls w))
                (service_name a) (action_name a)); simpl.
    + split; [exact Hr|]. exists 1. simpl. rewrite Hr. split; [reflexivity|lia].
    + split; [exact I|]. exists 1. simpl. rewrite Hr. split; [reflexivity|lia].
  - simpl. split; [exact I|]. exists 0. simpl. rewrite app_nil_r.
    split; [|lia]. unfold cache_setitem, timer. reflexivity.
  - simpl. split; [exact I|]. exists 0. simpl. rewrite app_nil_r.
    split; [reflexivity|lia].
Qed.

(** On every schedule the two readings call the device for their key
    only, each at most once. *)
Lemma run_schedule_calls client clock (k : TTLCache.key) (schedule : list bool) :
  forall (r1 r2 : Reading) (w : World),
    reads_of k r1 -> reads_of k r2 ->
    exists n,
      w_calls (snd (run_schedule client clock schedule r1 r2 w))
      = w_calls w ++ repeat k n
      /\ n <= calls_left r1 + calls_left r2.
Proof.
  induction schedule as [|b schedule IH]; intros r1 r2 w H1 H2.
  - exists 0. simpl. rewrite app_nil_r. split; [reflexivity|lia].
  - cbn [run_schedule]. destruct b.
    + destruct (step_calls client clock k r1 w H1) as (H1' & n & Hc & Hn).
      destruct (step client clock r1 w) as [r1' w1]. simpl in H1', Hc, Hn.
      destruct (IH r1' r2 w1 H1' H2) as (m & Hc' & Hm).
      exists (n + m). rewrite Hc', Hc, repeat_app, app_assoc.
      split; [reflexivity|lia].
    + destruct (step_calls client clock k r2 w H2) as (H2' & n & Hc & Hn).
      destruct (step client clock r2 w) as [r2' w1]. simpl in H2', Hc, Hn.
      destruct (IH r1 r2' w1 H1 H2') as (m & Hc' & Hm).
      exists (n + m). rewrite Hc', Hc, repeat_app, app_assoc.
      split; [reflexivity|lia].
Qed.

(** Two reads one after the other whose first device call fails: the
    second read calls the device again. *)
Lemma sequential_reads_after_failure client clock (a a' : Action)
    (key1 key2 : string) (w : World) (e : exn) :
  hashkey a' = hashkey a ->
  fst (TTLCache.getitem (w_cache w) (hashkey a) (clock (w_ticks w))) = None ->
  Fritz.call_action client (List.length (w_calls w))
    (service_name a) (action_name a) = Raise e ->
  (forall n m, n <= m -> (clock n <= clock m)%Z) ->
  let w1 := snd (handle_read client clock a key1 w) in
  fst (handle_read client clock a key1 w) = Raise e
  /\ w_calls (snd (handle_read client clock a' key2 w1))
     = w_calls w ++ [hashkey a; hashkey a]
  /\ fst (handle_read client clock a' key2 w1)
     = match Fritz.call_action client (S (List.length (w_calls w)))
               (service_name a) (action_name a) with
       | Ok v => subscript v key2
       | Raise e' => Raise e'
       end.
Proof.
  intros Hk Hmiss Hans Hmono. cbv zeta.
  assert (Hn : service_name a' = service_name a /\ action_name a' = action_name a)
    by (unfold hashkey in Hk; now injection Hk).
  destruct Hn as [Hs Ha].
  destruct (call_action_miss client clock a w Hmiss) as [Hr Hc].
  destruct (call_action_failed client clock a w e Hmiss Hans)
    as (_ & Ht & Hagain).
  rewrite !handle_read_result, !handle_read_world.
  set (w1 := snd (call_action client clock a w)) in *.
  assert (Hmiss' : fst (TTLCache.getitem (w_cache w1) (hashkey a')
                          (clock (w_ticks w1))) = None).
  { rewrite Hk. apply Hagain, Hmono, Ht. }
  destruct (call_action_miss client clock a' w1 Hmiss') as [Hr' Hc'].
  rewrite Hr, Hans, Hr', Hc', Hc, Hk, Hs, Ha, length_app, <- app_assoc.
  cbn [List.length app].
  replace (List.length (w_calls w) + 1) with (S (List.length (w_calls w)))
    by lia.
  repeat split.
Qed.

(** C2, as stated, fails: two reads of two different outputs of one
    operation, with every clock reading inside the time to live, do not
    always issue one device call between them.  [call_action] takes no
    lock: when the two reads overlap, each looks the key up before the
    other has stored, and both call the device.  On the sample device,
    with an empty cache and a clock that stands still, the reads of
    NewByteSendRate and NewByteReceiveRate taken in turn return 42 and 7
    and leave two calls of GetAddonInfos in the trace. *)
Lemma overlapping_reads_call_twice :
  ~ (forall (client : Fritz.FritzConnection) (clock : nat -> Z) (a : Action)
            (key1 key2 : string) (schedule : list bool) (w : World)
            (v1 v2 : result value) (w' : World),
       key1 <> key2 ->
       (forall n : nat,
          (clock O <= clock n <= clock O + TTLCache.ttl (w_cache w))%Z) ->
       run_schedule client clock schedule (Looking a key1) (Looking a key2) w
       = (Returned v1, Returned v2, w') ->
       w_calls w' = w_calls w ++ [hashkey a]).
Proof.
  intros H.
  specialize (H Demo.client (Demo.clock 0) Demo.addon_infos
                "NewByteSendRate" "NewByteReceiveRate" in_turn initial_world
                (Ok (VInt 42)) (Ok (VInt 7))
                (snd (run_schedule Demo.client (Demo.clock 0) in_turn
                        (Looking Demo.addon_infos "NewByteSendRate")
                        (Looking Demo.addon_infos "NewByteReceiveRate")
                        initial_world))).
  assert (Hd : "NewByteSendRate" <> "NewByteReceiveRate") by discriminate.
  assert (Hw : forall n : nat,
             (Demo.clock 0 O <= Demo.clock 0 n
              <= Demo.clock 0 O + TTLCache.ttl (w_cache initial_world))%Z)
    by (intros n; unfold Demo.clock; simpl; lia).
  specialize (H Hd Hw eq_refl). vm_compute in H. discriminate H.
Qed.

(** Reads one after the other need not issue one call either: a device
    that does not answer is called by each of the two reads, and a cache
    that holds the answer already is read twice without any call. *)
Example failing_device_called_twice :
  let read := handle_read Demo.dead_client (Demo.clock 0) Demo.addon_infos in
  let w1 := snd (read "NewByteSendRate" initial_world) in
  w_calls (snd (read "NewByteReceiveRate" w1))
  = [hashkey Demo.addon_infos; hashkey Demo.addon_infos].
Proof. reflexivity. Qed.

Example cached_answer_needs_no_call :
  let read := handle_read Demo.client (Demo.clock 0) Demo.addon_infos in
  let w1 := snd (read "NewByteSendRate" initial_world) in
  let w2 := snd (read "NewByteReceiveRate" w1) in
  w_calls w1 = [hashkey Demo.addon_infos]
  /\ w_calls (snd (read "NewByteReceiveRate" w2)) = w_calls w2.
Proof. split; reflexivity. Qed.

(** C2, amended: two reads of outputs [key1] and [key2] of one operation
    (the same service name and action name) are coalesced when they run
    one after the other, not when they overlap.

    - Run one after the other, the two reads are two calls of
      [handle_read], the second in the world the first leaves.
    - When the first read misses the cache (no link, or an expired one),
      the device answers, and the second read's clock reading is no later
      than the time to live after the clock reading of the store, the two
      reads issue exactly one device call; its answer is stored whole
      under (service name, action name), and both reads return the
      subscript of that one answer.
    - When the cache holds a link for the operation that is not expired
      at either read, the two reads issue no device call and both return
      the subscript of the link's value.
    - When the first read misses and the device call raises, the first
      read raises the same exception, nothing is stored, and (the clock
      never going back) the second read calls the device again: two
      calls, the second read returning the outcome of the second call.
    - [call_action] takes no lock.  When the cache has no link for the
      operation and the two reads overlap, each looking the key up before
      the other has stored, the device is called twice, and each read
      returns the subscript of the answer to its own call.
    - However the steps of the two reads interleave, every device call
      is for this operation and there are at most two, one per read. *)
Theorem reads_coalesce_unless_overlapping
    (client : Fritz.FritzConnection) (clock : nat -> Z)
    (a a' : Action) (key1 key2 : string) (w : World) :
  hashkey a' = hashkey a ->
  let k := hashkey a in
  let read1 := handle_read client clock a key1 w in
  let w1 := snd read1 in
  let read2 := handle_read client clock a' key2 w1 in
  let answer n :=
    Fritz.call_action client n (service_name a) (action_name a) in
  run_schedule client clock one_after_the_other
    (Looking a key1) (Looking a' key2) w
  = (Returned (fst read1), Returned (fst read2), snd read2)
  /\ (forall output,
        1 <= TTLCache.maxsize (w_cache w) ->
        fst (TTLCache.getitem (w_cache w) k (clock (w_ticks w))) = None ->
        answer (List.length (w_calls w)) = Ok output ->
        (clock (w_ticks w1)
         <= clock (pred (w_ticks w1)) + TTLCache.ttl (w_cache w))%Z ->
        fst read1 = subscript output key1
        /\ fst read2 = subscript output key2
        /\ w_calls (snd read2) = w_calls w ++ [k]
        /\ exists l,
             TTLCache.find (service_name a, action_name a)
               (TTLCache.links (w_cache w1)) = Some l
             /\ TTLCache.lk_value l = output)
  /\ (forall l,
        TTLCache.find k (TTLCache.links (w_cache w)) = Some l ->
        (clock (w_ticks w) <= TTLCache.expire l)%Z ->
        (clock (S (w_ticks w)) <= TTLCache.expire l)%Z ->
        fst read1 = subscript (TTLCache.lk_value l) key1
        /\ fst read2 = subscript (TTLCache.lk_value l) key2
        /\ w_calls (snd read2) = w_calls w)
  /\ (forall e,
        fst (TTLCache.getitem (w_cache w) k (clock (w_ticks w))) = None ->
        answer (List.length (w_calls w)) = Raise e ->
        (forall n m, n <= m -> (clock n <= clock m)%Z) ->
        fst read1 = Raise e
        /\ w_calls (snd read2) = w_calls w ++ [k; k]
        /\ fst read2 = match answer (S (List.length (w_calls w))) with
                       | Ok v => subscript v key2
                       | Raise e' => Raise e'
                       end)
  /\ (TTLCache.find k (TTLCache.links (w_cache w)) = None ->
      exists r1 r2 w',
        run_schedule client clock in_turn (Looking a key1) (Looking a' key2) w
        = (r1, r2, w')
        /\ w_calls w' = w_calls w ++ [k; k]
        /\ forall v1 v2,
             answer (List.length (w_calls w)) = Ok v1 ->
             answer (S (List.length (w_calls w))) = Ok v2 ->
             r1 = Returned (subscript v1 key1)
             /\ r2 = Returned (subscript v2 key2))
  /\ (forall schedule,
        exists n,
          n <= 2
          /\ w_calls (snd (run_schedule client clock schedule
                             (Looking a key1) (Looking a' key2) w))
             = w_calls w ++ repeat k n).
Proof.
  intros Hk. cbv zeta.
  split; [|split; [|split; [|split; [|split]]]].
  - unfold one_after_the_other.
    change [true; true; true; false; false; false]
      with ([true; true; true] ++ [false; false; false]).
    rewrite run_schedule_app, first_reads_alone.
    apply second_reads_alone.
  - intros output Hmax Hmiss Hans Hwin.
    exact (sequential_reads_one_call client clock a a' key1 key2 w output
             Hk Hmax Hmiss Hans _ eq_refl Hwin).
  - intros l Hf H1 H2.
    destruct (sequential_reads_no_call client clock a a' w l Hk Hf H1 H2)
      as (Hr1 & Hr2 & Hc).
    rewrite !handle_read_result, !handle_read_world, Hr1, Hr2.
    repeat split. exact Hc.
  - intros e Hmiss Hans Hmono.
    exact (sequential_reads_after_failure client clock a a' key1 key2 w e
             Hk Hmiss Hans Hmono).
  - intros Hf. exact (reads_in_turn_call_twice client clock a a' key1 key2 w Hk Hf).
  - intros schedule.
    destruct (run_schedule_calls client clock (hashkey a) schedule
                (Looking a key1) (Looking a' key2) w eq_refl Hk)
      as (n & Hc & Hn).
    exists n. split; [exact Hn | exact Hc].
Qed.

(** C2 at the sample device: with an empty cache and a clock that
    advances by 5 at every reading, the reads of NewByteSendRate and
    NewByteReceiveRate one after the other return 42 and 7 from one call
    of GetAddonInfos; taken in turn they leave two calls in the trace. *)
Lemma reads_coalesce_unless_overlapping_witness :
  let run schedule :=
    run_schedule Demo.client (Demo.clock 5) schedule
      (Looking Demo.addon_infos "NewByteSendRate")
      (Looking Demo.addon_infos "NewByteReceiveRate") initial_world in
  let k := hashkey Demo.addon_infos in
  hashkey Demo.addon_infos = hashkey Demo.addon_infos
  /\ fst (fst (run one_after_the_other)) = Returned (Ok (VInt 42))
  /\ snd (fst (run one_after_the_other)) = Returned (Ok (VInt 7))
  /\ w_calls (snd (run one_after_the_other)) = [k]
  /\ w_calls (snd (run in_turn)) = [k; k].
Proof.
  cbv zeta. split; [reflexivity|].
  destruct (reads_coalesce_unless_overlapping Demo.client (Demo.clock 5)
              Demo.addon_infos Demo.addon_infos
              "NewByteSendRate" "NewByteReceiveRate" initial_world eq_refl)
    as (Hrun & Hone & _ & _ & Htwo & _).
  destruct (Hone Demo.addon_output (proj1 (Nat.leb_le 1 200) eq_refl)
              eq_refl eq_refl (proj1 (Z.leb_le 5 10) eq_refl))
    as (H1 & H2 & H3 & _).
  destruct (Htwo eq_refl) as (r1 & r2 & w' & Hturn & Hc & _).
  rewrite Hrun, Hturn. cbn [fst snd].
  rewrite H1, H2, H3, Hc. repeat split.
Defined.
